(** * scrape_nara.js: browser capture script of the OCR-Eval repository

    A shallow embedding of [src/scrape_nara.js] and proofs about it.

    The script drives a headless browser through Puppeteer.  Everything the
    script cannot decide by itself (whether a Puppeteer call resolves or
    rejects, what a function evaluated inside the page returns, which network
    responses arrive while the script is suspended at an [await], what the
    HTTP layer does with a GET, whether a file can be opened and written)
    is an input of the model: a [Scenario] for [scrapeNARA]; for
    [downloadFile], how the write stream opens and what [protocol.get]
    does, with the events that follow.  The control
    flow of the script itself (sequencing, [try]/[catch], the page loop, the
    event handlers) is translated statement by statement.

    JavaScript strings are modelled by [string]; a thrown value by [Error],
    of which the script only ever reads [message]. *)

From Stdlib.Strings Require Import String Ascii Byte.
From Stdlib.Numbers Require Import DecimalString.
From Stdlib.Numbers Require DecimalNat.
From stdpp Require Import base gmap strings list fin_maps.

Local Open Scope string_scope.
Local Open Scope list_scope.

(** ** Values shared by the whole script *)

Record Error := mkError { message : string }.

(** Result of a call that may throw (an awaited promise that may reject). *)
Inductive Outcome (A : Type) :=
| Ok (a : A)
| Throw (e : Error).
Arguments Ok {A} a.
Arguments Throw {A} e.

(** [String.prototype.includes]: [needle] occurs somewhere in [hay]. *)
Fixpoint includes (hay needle : string) : bool :=
  String.prefix needle hay
  || match hay with
     | EmptyString => false
     | String _ rest => includes rest needle
     end.

(** [String.prototype.startsWith]. *)
Definition startsWith (s pre : string) : bool := String.prefix pre s.

(** [String(n)] and [${n}] for a non-negative integer. *)
Definition String_of_nat (n : nat) : string :=
  NilEmpty.string_of_uint (Nat.to_uint n).

(** ** [downloadFile] (lines 14-29) *)

Module Download.

Abbreviation bytes := (list Byte.byte).

Inductive Protocol := https | http.

(** What Node reports once [protocol.get] has issued the request:
    - [ReqError]: the ['error'] event of the request object (no connection,
      DNS failure, connection closed before a response was received);
    - [Response]: the response callback is called with the status line and
      headers;
    - [Data], [End]: the events of the response body stream;
    - [Aborted]: the connection is lost after the response was received and
      before its body ended.  Node reports this on the response object
      (['aborted'], and ['error'] if someone listens there), not on the
      request, and the body stream never ends;
    - [StreamError]: the ['error'] event of the write stream (a write that
      fails: disk full, I/O error).  Neither the function nor the pipe
      leaves a listener for it, so it is an uncaught exception. *)
Inductive HttpEvent :=
| ReqError (err : Error)
| Response (statusCode : nat)
| Data (chunk : bytes)
| End
| Aborted
| StreamError (err : Error).

(** How [fs.createWriteStream(filepath)] fares:
    - [Opens]: the file is created, or truncated if it exists;
    - [OpenThrows]: the call itself throws (a path it does not accept);
    - [OpenFails]: the call returns a stream whose open fails (missing
      directory, no permission, the path is a directory); the stream emits
      ['error'], for which there is no listener, once [handled] events of
      the request have been handled. *)
Inductive StreamOpen :=
| Opens
| OpenThrows (err : Error)
| OpenFails (err : Error) (handled : nat).

(** What [protocol.get(url, ...)] does: it throws (the URL is invalid, or
    its protocol is not the module's), or it returns the request, on which
    the events follow. *)
Inductive GetResult :=
| GetThrows (err : Error)
| Requested (events : list HttpEvent).

Inductive Promise :=
| Pending
| Resolved
| Rejected (err : Error).

Record State := mkState {
  files : gmap string bytes;   (* the file system, by path *)
  piped : bool;                (* [response.pipe(file)] was executed *)
  closed : bool;               (* [file.close()] was executed *)
  promise : Promise;           (* the promise [downloadFile] returned *)
  uncaught : option Error      (* the exception that ended the process *)
}.

(** [resolve()] and [reject(err)] settle a pending promise only. *)
Definition settle (p new : Promise) : Promise :=
  match p with
  | Pending => new
  | _ => p
  end.

(** A write through the stream's descriptor: it reaches the path only
    while the path still names the file. *)
Definition write (filepath : string) (chunk : bytes) (fs : gmap string bytes)
  : gmap string bytes :=
  match fs !! filepath with
  | Some old => <[filepath := old ++ chunk]> fs
  | None => fs
  end.

Definition protocol_of (url : string) : Protocol :=
  if startsWith url "https" then https else http.

(** The handlers the function installs, one transition per event, while
    the process lives. *)
Definition handle (filepath : string) (s : State) (ev : HttpEvent) : State :=
  match ev with
  | ReqError err =>
      (* .on('error', (err) => { fs.unlink(filepath, () => {}); reject(err); }) *)
      {| files := delete filepath (files s);
         piped := piped s;
         closed := closed s;
         promise := settle (promise s) (Rejected err);
         uncaught := None |}
  | Response _ =>
      (* (response) => { response.pipe(file); file.on('finish', ...) } *)
      {| files := files s; piped := true; closed := closed s;
         promise := promise s; uncaught := None |}
  | Data chunk =>
      if piped s
      then {| files := write filepath chunk (files s);
              piped := true; closed := closed s; promise := promise s;
              uncaught := None |}
      else s
  | End =>
      (* the pipe ends [file]; 'finish': file.close(); resolve() *)
      if piped s
      then {| files := files s; piped := true; closed := true;
              promise := settle (promise s) Resolved; uncaught := None |}
      else s
  | Aborted =>
      (* nothing listens on the response *)
      s
  | StreamError err =>
      (* nothing listens on the stream *)
      {| files := files s; piped := piped s; closed := closed s;
         promise := promise s; uncaught := Some err |}
  end.

Definition on_event (filepath : string) (s : State) (ev : HttpEvent) : State :=
  match uncaught s with
  | Some _ => s
  | None => handle filepath s ev
  end.

(** The same while the stream is not open: what is piped into it waits in
    its buffer, and it does not finish. *)
Definition on_event_unopened (filepath : string) (s : State) (ev : HttpEvent)
  : State :=
  match ev with
  | Data _ | End => s
  | _ => on_event filepath s ev
  end.

(** An exception that nobody catches ends the process, if it still runs. *)
Definition die (err : Error) (s : State) : State :=
  match uncaught s with
  | Some _ => s
  | None =>
      {| files := files s; piped := piped s; closed := closed s;
         promise := promise s; uncaught := Some err |}
  end.

(** [protocol.get(url, ...).on('error', ...)] and what follows, from
    the state [file] in which the stream was made; [step] handles one
    event.  A throw of [get] leaves the executor, which rejects the
    promise. *)
Definition request (step : State -> HttpEvent -> State) (result : GetResult)
    (file : State) : State :=
  match result with
  | GetThrows err =>
      {| files := files file; piped := false; closed := false;
         promise := Rejected err; uncaught := None |}
  | Requested events => foldl step file events
  end.

(** The first [n] events of a request. *)
Definition first_events (n : nat) (result : GetResult) : GetResult :=
  match result with
  | GetThrows err => GetThrows err
  | Requested events => Requested (take n events)
  end.

(** [downloadFile(url, filepath)].  The executor of the promise runs at
    once: it makes the write stream and issues the GET through the module
    chosen by the URL's prefix; an exception thrown there rejects the
    promise.  Then the function reacts to what Node reports.  A stream
    that opens has created or truncated the file by then.  A stream whose
    open fails leaves the path alone, and the ['error'] it emits ends the
    process. *)
Definition downloadFile
    (createWriteStream : string -> StreamOpen)
    (get : Protocol -> string -> GetResult)
    (fs : gmap string bytes) (url filepath : string) : State :=
  let protocol := protocol_of url in
  match createWriteStream filepath with
  | OpenThrows err =>
      {| files := fs; piped := false; closed := false;
         promise := Rejected err; uncaught := None |}
  | Opens =>
      request (on_event filepath) (get protocol url)
        {| files := <[filepath := []]> fs;
           piped := false; closed := false; promise := Pending;
           uncaught := None |}
  | OpenFails err handled =>
      die err
        (request (on_event_unopened filepath)
           (first_events handled (get protocol url))
           {| files := fs;
              piped := false; closed := false; promise := Pending;
              uncaught := None |})
  end.

(** A request that succeeds: status line, the body in chunks, end. *)
Definition complete_response (statusCode : nat) (body : list bytes)
  : list HttpEvent :=
  Response statusCode :: map Data body ++ [End].

(** A response cut off after some chunks of its body. *)
Definition interrupted_response (statusCode : nat) (received : list bytes)
  : list HttpEvent :=
  Response statusCode :: map Data received ++ [Aborted].

End Download.

(** ** The capture script (lines 7-12 and 31-186) *)

Module Scrape.

(** *** Data *)

(** A parsed JSON body.  The script never looks inside. *)
#[local] Unset Elimination Schemes.
Inductive Json :=
| JNull
| JBool (b : bool)
| JNumber (literal : string)
| JString (s : string)
| JArray (items : list Json)
| JObject (members : list (string * Json)).
#[local] Set Elimination Schemes.

(** [{ url, data }], an element of [apiResponses]. *)
Record CapturedResponse := mkCaptured { url : string; data : Json }.

(** [{ page: i, imageUrl, transcription }], an element of [results];
    [imageUrl] is a string or [null]. *)
Record PageResult := mkPageResult {
  page : nat;
  imageUrl : option string;
  transcription : string
}.

(** The object returned by the first [page.evaluate] (lines 80-84). *)
Record ItemData := mkItemData {
  downloadLink : option string;
  pageCount : nat;
  thumbCount : nat
}.

Inductive LogArg :=
| Str (s : string)
| Obj (d : ItemData)
| Err (e : Error).

(** One line of output: [console.log], [console.error], or the report the
    runtime prints for an exception nobody caught. *)
Inductive LogLine :=
| Stdout (args : list LogArg)
| Stderr (args : list LogArg)
| Uncaught (e : Error).

Inductive Content :=
| Text (s : string)
| ApiResponsesJson (l : list CapturedResponse)   (* JSON.stringify(apiResponses, null, 2) *)
| ResultsJson (l : list PageResult)              (* JSON.stringify(results, null, 2) *)
| Partial (written : nat) (whole : Content).     (* the first [written] characters of [whole] *)

Inductive FsEntry :=
| Directory
| File (content : Content).

(** The calls that leave the script, as they appear in the source. *)
Inductive Call :=
| mkdirSync (path : string)
| launch
| newPage
| setViewport
| setRequestInterception
| goto
| settle_delay                           (* setTimeout 8000, line 69 *)
| evaluate_itemData
| waitForSelector (i : nat)
| evaluate_click (i : nat)
| click_delay (i : nat)                  (* setTimeout 2000, line 121 *)
| evaluate_imageUrl (i : nat)
| evaluate_hasTranscriptionTab (i : nat)
| tab_delay (i : nat)                    (* setTimeout 1500, line 149 *)
| evaluate_transcription (i : nat)
| writeFileSync (path : string)
| close.

#[global] Instance Call_eq_dec : EqDecision Call.
Proof. solve_decision. Defined.

(** What the network layer tells the script while it is suspended:
    - [ResponseEvent id u]: Puppeteer emits ['response'] for a response
      with URL [u] ([id] identifies the response object);
    - [JsonSettled id body]: the promise [response.json()] of response
      [id] settles; [Some data] is the parsed body, [None] a rejection
      (the body is not JSON, or could not be read). *)
Inductive NetEvent :=
| ResponseEvent (id : nat) (u : string)
| JsonSettled (id : nat) (body : option Json).

Inductive Browser := NotLaunched | Running | Closed.

Record State := mkState {
  fs : gmap string FsEntry;
  browser : Browser;
  listening : bool;                       (* page.on('response', ...) done *)
  apiResponses : list CapturedResponse;
  awaiting : gmap nat string;             (* handlers suspended at [await response.json()]: response, [url] *)
  results : list PageResult;
  log : list LogLine;
  calls : list Call                       (* every call made so far, in order *)
}.

(** The environment of one run. *)
Record Scenario := mkScenario {
  fs0 : gmap string FsEntry;                       (* the working directory at start *)
  mkdir_outcome : string -> Outcome unit;
  write_outcome : string -> Outcome unit;
  written_before_failure : string -> option nat;   (* see [fs_writeFileSync] *)
  net : Call -> list NetEvent;                     (* what arrives during each await *)
  launch_outcome : Outcome unit;
  newPage_outcome : Outcome unit;
  setViewport_outcome : Outcome unit;
  setRequestInterception_outcome : Outcome unit;
  goto_outcome : Outcome unit;
  itemData_outcome : Outcome (option string * nat); (* downloadLink, thumbs.length *)
  waitForSelector_outcome : nat -> Outcome unit;
  click_outcome : nat -> Outcome bool;
  imageUrl_outcome : nat -> Outcome (option string);
  hasTranscriptionTab_outcome : nat -> Outcome bool;
  transcription_outcome : nat -> Outcome string;
  close_outcome : Outcome unit
}.

(** *** State and exceptions *)

Definition M (A : Type) : Type := State -> State * Outcome A.

Definition ret {A} (a : A) : M A := fun s => (s, Ok a).

Definition bind {A B} (m : M A) (k : A -> M B) : M B :=
  fun s =>
    match m s with
    | (s', Ok a) => k a s'
    | (s', Throw e) => (s', Throw e)
    end.

Definition try_catch {A} (body : M A) (handler : Error -> M A) : M A :=
  fun s =>
    match body s with
    | (s', Ok a) => (s', Ok a)
    | (s', Throw e) => handler e s'
    end.

Declare Scope js_scope.
Delimit Scope js_scope with js.
Notation "x <- m ;; k" := (bind m (fun x => k))
  (at level 100, m at next level, right associativity) : js_scope.
Notation "m ;; k" := (bind m (fun _ => k))
  (at level 100, right associativity) : js_scope.
Local Open Scope js_scope.

Definition modify (f : State -> State) : M unit := fun s => (f s, Ok tt).

Definition with_fs (f : gmap string FsEntry -> gmap string FsEntry) (s : State) :=
  mkState (f (fs s)) (browser s) (listening s) (apiResponses s) (awaiting s)
          (results s) (log s) (calls s).
Definition with_browser (b : Browser) (s : State) :=
  mkState (fs s) b (listening s) (apiResponses s) (awaiting s)
          (results s) (log s) (calls s).
Definition with_listening (b : bool) (s : State) :=
  mkState (fs s) (browser s) b (apiResponses s) (awaiting s)
          (results s) (log s) (calls s).
Definition with_apiResponses (l : list CapturedResponse) (s : State) :=
  mkState (fs s) (browser s) (listening s) l (awaiting s)
          (results s) (log s) (calls s).
Definition with_awaiting (l : gmap nat string) (s : State) :=
  mkState (fs s) (browser s) (listening s) (apiResponses s) l
          (results s) (log s) (calls s).
Definition with_results (l : list PageResult) (s : State) :=
  mkState (fs s) (browser s) (listening s) (apiResponses s) (awaiting s)
          l (log s) (calls s).
Definition with_log (l : list LogLine) (s : State) :=
  mkState (fs s) (browser s) (listening s) (apiResponses s) (awaiting s)
          (results s) l (calls s).
Definition with_calls (l : list Call) (s : State) :=
  mkState (fs s) (browser s) (listening s) (apiResponses s) (awaiting s)
          (results s) (log s) l.

Definition console_log (args : list LogArg) : M unit :=
  modify (fun s => with_log (log s ++ [Stdout args]) s).

Definition console_error (e : Error) : M unit :=
  modify (fun s => with_log (log s ++ [Stderr [Err e]]) s).

Definition record_call (c : Call) (s : State) : State :=
  with_calls (calls s ++ [c]) s.

(** *** The response observer (lines 50-60) *)

(** The test of line 52. *)
Definition of_interest (u : string) : bool :=
  includes u "/records/" || includes u "/transcription"
  || includes u "/contributions".

(** The handler up to its [await]: read the URL, test it, call
    [response.json()] and suspend. *)
Definition on_response (id : nat) (u : string) : M unit :=
  if of_interest u
  then modify (fun s => with_awaiting (<[id := u]> (awaiting s)) s)
  else ret tt.

(** [response.json()]: the awaited promise, as it settled. *)
Definition response_json (body : option Json) : M Json :=
  fun s =>
    match body with
    | Some d => (s, Ok d)
    | None => (s, Throw (mkError "not JSON"))
    end.

(** The handler from its [await] on: the [try] block of lines 53-58. *)
Definition resume_handler (u : string) (body : option Json) : M unit :=
  try_catch
    (d <- response_json body ;;
     modify (fun s => with_apiResponses (apiResponses s ++ [mkCaptured u d]) s))
    (fun _ => (* Not JSON response *) ret tt).

Definition on_json_settled (id : nat) (body : option Json) : M unit :=
  fun s =>
    match awaiting s !! id with
    | Some u =>
        resume_handler u body (with_awaiting (delete id (awaiting s)) s)
    | None => (s, Ok tt)
    end.

Definition on_net_event (ev : NetEvent) : M unit :=
  match ev with
  | ResponseEvent id u => on_response id u
  | JsonSettled id body => on_json_settled id body
  end.

(** Run a list of statements or handlers in order; a throw ends it. *)
Fixpoint for_each {A} (l : list A) (body : A -> M unit) : M unit :=
  match l with
  | [] => ret tt
  | x :: rest => body x ;; for_each rest body
  end.

(** The events that reach the script during one suspension: none before
    the observer is registered. *)
Definition deliver (evs : list NetEvent) : M unit :=
  fun s => if listening s then for_each evs on_net_event s else (s, Ok tt).

(** *** The script *)

Definition imagesDir : string := "./images".
Definition transcriptionsDir : string := "./transcriptions".

(** The line feed written as \n in the source. *)
Definition nl : string := String (ascii_of_nat 10) EmptyString.

(** JavaScript truthiness of a string, and of a string or [null]. *)
Definition truthy (s : string) : bool :=
  match s with
  | EmptyString => false
  | _ => true
  end.

Definition truthy_opt (o : option string) : bool :=
  match o with
  | Some s => truthy s
  | None => false
  end.

Section Run.

Variable sc : Scenario.

(** [await] of a call that leaves the script: the call is made, the
    script is suspended, the network events of that suspension run
    through the observer, and the call's promise settles. *)
Definition await {A} (c : Call) (o : Outcome A) : M A :=
  modify (record_call c) ;;
  deliver (net sc c) ;;
  fun s => (s, o).

(** [await new Promise(resolve => setTimeout(resolve, ms))]. *)
Definition sleep (c : Call) : M unit := await c (Ok tt).

(** A synchronous call into [fs]: nothing else runs meanwhile. *)
Definition sync {A} (c : Call) (o : Outcome A) : M A :=
  modify (record_call c) ;;
  fun s => (s, o).

Definition fs_existsSync (path : string) : M bool :=
  fun s => (s, Ok (bool_decide (is_Some (fs s !! path)))).

Definition fs_mkdirSync (path : string) : M unit :=
  sync (mkdirSync path) (mkdir_outcome sc path) ;;
  modify (with_fs (insert path Directory)).

(** [fs.writeFileSync(path, data)] opens the file with flag ['w'], which
    creates or truncates it, then writes, then closes.  When it throws,
    either the open failed and the path is untouched
    ([written_before_failure] is [None]), or the file was opened and holds
    what was written before the error ([Some n]: its first [n]
    characters). *)
Definition fs_writeFileSync (path : string) (content : Content) : M unit :=
  modify (record_call (writeFileSync path)) ;;
  match write_outcome sc path with
  | Ok _ => modify (with_fs (insert path (File content)))
  | Throw e =>
      match written_before_failure sc path with
      | Some n => modify (with_fs (insert path (File (Partial n content))))
      | None => ret tt
      end ;;
      fun s => (s, Throw e)
  end.

(** Lines 11-12. *)
Definition ensure_dir (dir : string) : M unit :=
  present <- fs_existsSync dir ;;
  if negb present then fs_mkdirSync dir else ret tt.

(** Lines 134-157: [transcription] starts as [''] and is assigned once,
    by the last statement of the [try] block. *)
Definition read_transcription (i : nat) : M string :=
  try_catch
    (hasTranscriptionTab <-
       await (evaluate_hasTranscriptionTab i) (hasTranscriptionTab_outcome sc i) ;;
     if (hasTranscriptionTab : bool)
     then sleep (tab_delay i) ;;
          await (evaluate_transcription i) (transcription_outcome sc i)
     else ret "")
    (fun _ =>
       console_log
         [Str ("Could not get transcription for page " +:+ String_of_nat i)] ;;
       ret "").

(** The body of the [for] loop, lines 96-170. *)
Definition process_page (i : nat) : M unit :=
  console_log
    [Str (nl +:+ "Processing page " +:+ String_of_nat i +:+ " of 14...")] ;;
  try_catch
    (await (waitForSelector i) (waitForSelector_outcome sc i) ;;
     clicked <- await (evaluate_click i) (click_outcome sc i) ;;
     sleep (click_delay i) ;;
     imageUrl <- await (evaluate_imageUrl i) (imageUrl_outcome sc i) ;;
     transcription <- read_transcription i ;;
     modify (fun s =>
       with_results (results s ++ [mkPageResult i imageUrl transcription]) s) ;;
     console_log
       [Str ("Page " +:+ String_of_nat i +:+ ": Image URL: "
             +:+ (if truthy_opt imageUrl then "Found" else "Not found"))] ;;
     console_log
       [Str ("Page " +:+ String_of_nat i +:+ ": Transcription: "
             +:+ (if truthy transcription
                  then substring 0 100 transcription +:+ "..."
                  else "Not found"))])
    (fun e =>
       console_log
         [Str ("Error processing page " +:+ String_of_nat i +:+ ":");
          Str (message e)]).

(** [for (let i = 1; i <= 14; i++)]. *)
Definition page_loop : M unit := for_each (seq 1 14) process_page.

(** Lines 32-87: launch, observers, navigation, first look at the page. *)
Definition open_catalog : M unit :=
  console_log [Str "Launching browser..."] ;;
  await launch (launch_outcome sc) ;;
  modify (with_browser Running) ;;
  await newPage (newPage_outcome sc) ;;
  await setViewport (setViewport_outcome sc) ;;
  await setRequestInterception (setRequestInterception_outcome sc) ;;
  (* const apiResponses = [] *)
  modify (with_apiResponses []) ;;
  (* page.on('request', request => request.continue()) lets every request
     pass and touches nothing the script reads; page.on('response', ...) *)
  modify (with_listening true) ;;
  console_log [Str "Navigating to National Archives catalog page..."] ;;
  await goto (goto_outcome sc) ;;
  console_log [Str "Waiting for content to load..."] ;;
  sleep settle_delay ;;
  itemData <- await evaluate_itemData (itemData_outcome sc) ;;
  console_log
    [Str "Item data:"; Obj (mkItemData (fst itemData) 14 (snd itemData))].

(** Lines 173-183: write the two files, close the browser. *)
Definition save_and_close : M unit :=
  console_log [Str (nl +:+ "--- API Responses captured ---")] ;;
  captured <- (fun s => (s, Ok (apiResponses s))) ;;
  console_log
    [Str ("Captured " +:+ String_of_nat (length captured) +:+ " API responses")] ;;
  fs_writeFileSync "api_responses.json" (ApiResponsesJson captured) ;;
  collected <- (fun s => (s, Ok (results s))) ;;
  fs_writeFileSync "scrape_results.json" (ResultsJson collected) ;;
  await close (close_outcome sc) ;;
  modify (with_browser Closed) ;;
  console_log [Str (nl +:+ "Browser closed. Results saved to scrape_results.json")].

(** Lines 31-184, in source order. *)
Definition scrapeNARA : M unit :=
  open_catalog ;;
  (* const results = [] *)
  modify (with_results []) ;;
  page_loop ;;
  save_and_close.

(** The module body: the two directory checks, then
    [scrapeNARA().catch(console.error)]. *)
Definition script : M unit :=
  ensure_dir imagesDir ;;
  ensure_dir transcriptionsDir ;;
  try_catch scrapeNARA console_error.

Definition initial : State :=
  mkState (fs0 sc) NotLaunched false [] ∅ [] [] [].

(** The process: an exception that escapes the module body is reported by
    the runtime and makes the exit status 1; otherwise nothing sets a
    status and it is 0.  This is the status the process ends with; how long
    a browser that was left running keeps the process alive is outside the
    model. *)
Definition run : State * nat :=
  match script initial with
  | (s, Ok _) => (s, 0)
  | (s, Throw e) => (with_log (log s ++ [Uncaught e]) s, 1)
  end.

Definition final : State := fst run.
Definition exit_status : nat := snd run.

End Run.

End Scrape.

(** ** What a run leaves behind, in closed form

    These functions are not translations of source text: they describe the
    effect of the translated code and are proved equal to it below. *)

Module Trace.
Import Scrape.

(** The observer seen as a function on [(apiResponses, awaiting)]. *)
Definition capture_step
    (c : list CapturedResponse * gmap nat string) (ev : NetEvent)
  : list CapturedResponse * gmap nat string :=
  match ev with
  | ResponseEvent id u =>
      if of_interest u then (c.1, <[id := u]> c.2) else c
  | JsonSettled id body =>
      match c.2 !! id with
      | Some u =>
          (match body with
           | Some d => c.1 ++ [mkCaptured u d]
           | None => c.1
           end, delete id c.2)
      | None => c
      end
  end.

Definition capture (evs : list NetEvent)
  : list CapturedResponse * gmap nat string :=
  foldl capture_step ([], ∅) evs.

(** The URL with which response [id] was announced. *)
Fixpoint announced (id : nat) (evs : list NetEvent) : option string :=
  match evs with
  | [] => None
  | ResponseEvent id' u :: rest =>
      if Nat.eqb id id' then Some u else announced id rest
  | JsonSettled _ _ :: rest => announced id rest
  end.

(** The entry a settlement contributes: the body must have parsed and the
    response must have been announced with a URL of interest. *)
Definition settled_entry (all : list NetEvent) (ev : NetEvent)
  : option CapturedResponse :=
  match ev with
  | JsonSettled id (Some d) =>
      match announced id all with
      | Some u => if of_interest u then Some (mkCaptured u d) else None
      | None => None
      end
  | _ => None
  end.

(** The body with which the [json()] of response [id] settled. *)
Fixpoint settlement (id : nat) (evs : list NetEvent) : option Json :=
  match evs with
  | [] => None
  | JsonSettled id' body :: rest =>
      if Nat.eqb id id' then body else settlement id rest
  | ResponseEvent _ _ :: rest => settlement id rest
  end.

(** The entry an arrival would contribute if the sequence were kept in
    arrival order: the response must be of interest and its body must
    eventually parse. *)
Definition arrival_entry (all : list NetEvent) (ev : NetEvent)
  : option CapturedResponse :=
  match ev with
  | ResponseEvent id u =>
      if of_interest u
      then match settlement id all with
           | Some d => Some (mkCaptured u d)
           | None => None
           end
      else None
  | _ => None
  end.

(** Event lists the network layer can produce: every response object is
    announced once, and its [json()] settles at most once, after the
    announcement. *)
Fixpoint well_formed_from (ann stl : list nat) (evs : list NetEvent) : bool :=
  match evs with
  | [] => true
  | ResponseEvent id _ :: rest =>
      negb (bool_decide (id ∈ ann)) && well_formed_from (id :: ann) stl rest
  | JsonSettled id _ :: rest =>
      bool_decide (id ∈ ann) && negb (bool_decide (id ∈ stl))
      && well_formed_from ann (id :: stl) rest
  end.

Definition well_formed (evs : list NetEvent) : bool :=
  well_formed_from [] [] evs.

(** Writing a value for [(apiResponses, awaiting)] into a state. *)
Definition set_capture
    (c : list CapturedResponse * gmap nat string) (s : State) : State :=
  with_awaiting c.2 (with_apiResponses c.1 s).

(** The state after the observer has handled [evs]. *)
Definition observe (evs : list NetEvent) (s : State) : State :=
  if listening s
  then set_capture (foldl capture_step (apiResponses s, awaiting s) evs) s
  else s.

(** A straight-line sequence of calls, each of which may throw: the first
    exception, and the calls that are made. *)
Fixpoint first_error (steps : list (Call * Outcome unit)) : option Error :=
  match steps with
  | [] => None
  | (_, Throw e) :: _ => Some e
  | (_, Ok _) :: rest => first_error rest
  end.

Fixpoint calls_made (steps : list (Call * Outcome unit)) : list Call :=
  match steps with
  | [] => []
  | (c, Throw _) :: _ => [c]
  | (c, Ok _) :: rest => c :: calls_made rest
  end.

Definition void {A} (o : Outcome A) : Outcome unit :=
  match o with
  | Ok _ => Ok tt
  | Throw e => Throw e
  end.

Definition open_steps (sc : Scenario) : list (Call * Outcome unit) :=
  [(launch, launch_outcome sc);
   (newPage, newPage_outcome sc);
   (setViewport, setViewport_outcome sc);
   (setRequestInterception, setRequestInterception_outcome sc);
   (goto, goto_outcome sc);
   (settle_delay, Ok tt);
   (evaluate_itemData, void (itemData_outcome sc))].

Definition save_steps (sc : Scenario) : list (Call * Outcome unit) :=
  [(writeFileSync "api_responses.json", write_outcome sc "api_responses.json");
   (writeFileSync "scrape_results.json", write_outcome sc "scrape_results.json");
   (close, close_outcome sc)].

(** The lines printed by lines 32-87. *)
Definition open_log (sc : Scenario) : list LogLine :=
  Stdout [Str "Launching browser..."] ::
  match first_error (take 4 (open_steps sc)) with
  | Some _ => []
  | None =>
      Stdout [Str "Navigating to National Archives catalog page..."] ::
      match goto_outcome sc with
      | Throw _ => []
      | Ok _ =>
          Stdout [Str "Waiting for content to load..."] ::
          match itemData_outcome sc with
          | Throw _ => []
          | Ok itemData =>
              [Stdout [Str "Item data:";
                       Obj (mkItemData (fst itemData) 14 (snd itemData))]]
          end
      end
  end.

(** The lines printed by lines 173-183 when [apiResponses] has [n]
    elements. *)
Definition save_log (sc : Scenario) (n : nat) : list LogLine :=
  [Stdout [Str (nl +:+ "--- API Responses captured ---")];
   Stdout [Str ("Captured " +:+ String_of_nat n +:+ " API responses")]]
  ++ match first_error (save_steps sc) with
     | Some _ => []
     | None =>
         [Stdout [Str (nl +:+ "Browser closed. Results saved to scrape_results.json")]]
     end.

(** What a [writeFileSync] that throws leaves behind. *)
Definition failed_write (sc : Scenario) (path : string) (content : Content)
    (files : gmap string FsEntry) : gmap string FsEntry :=
  match written_before_failure sc path with
  | Some n => <[path := File (Partial n content)]> files
  | None => files
  end.

(** The file system after the two writes of lines 177-180, given what
    [apiResponses] and [results] hold at that point. *)
Definition saved_fs (sc : Scenario) (files : gmap string FsEntry)
    (api : list CapturedResponse) (res : list PageResult)
  : gmap string FsEntry :=
  match write_outcome sc "api_responses.json" with
  | Throw _ =>
      failed_write sc "api_responses.json" (ApiResponsesJson api) files
  | Ok _ =>
      match write_outcome sc "scrape_results.json" with
      | Throw _ =>
          failed_write sc "scrape_results.json" (ResultsJson res)
            (<["api_responses.json" := File (ApiResponsesJson api)]> files)
      | Ok _ =>
          <["scrape_results.json" := File (ResultsJson res)]>
            (<["api_responses.json" := File (ApiResponsesJson api)]> files)
      end
  end.

Definition outcome_of (o : option Error) : Outcome unit :=
  match o with
  | Some e => Throw e
  | None => Ok tt
  end.

(** The state of the observer in the middle of a well-formed event list:
    the suspended handlers are the announced responses of interest that
    have not settled. *)
Definition suspended (pre : list NetEvent) (stl : list nat) (id : nat)
  : option string :=
  if bool_decide (id ∈ stl) then None
  else match announced id pre with
       | Some u => if of_interest u then Some u else None
       | None => None
       end.

(** The part of the script a call belongs to. *)
Inductive Phase :=
| Directories
| Opening
| Page (i : nat)
| Saving.

Definition phase (c : Call) : Phase :=
  match c with
  | mkdirSync _ => Directories
  | launch | newPage | setViewport | setRequestInterception
  | goto | settle_delay | evaluate_itemData => Opening
  | waitForSelector i | evaluate_click i | click_delay i
  | evaluate_imageUrl i | evaluate_hasTranscriptionTab i
  | tab_delay i | evaluate_transcription i => Page i
  | writeFileSync _ | close => Saving
  end.

(** The calls during which the observer is registered and the script is
    suspended. *)
Definition observed (c : Call) : bool :=
  match c with
  | mkdirSync _ | writeFileSync _ => false
  | launch | newPage | setViewport | setRequestInterception => false
  | _ => true
  end.

(** The network events the observer has seen once the calls [cs] are made. *)
Definition delivered (sc : Scenario) (cs : list Call) : list NetEvent :=
  flat_map (net sc) (List.filter observed cs).

(** [s'] is [s] after some awaits that made the calls [cs], pushed [rs]
    onto [results] and printed [ls]; nothing else changed. *)
Record extends (sc : Scenario) (s s' : State)
    (rs : list PageResult) (ls : list LogLine) (cs : list Call) : Prop :=
  mkExtends {
    ext_fs : fs s' = fs s;
    ext_browser : browser s' = browser s;
    ext_listening : listening s' = listening s;
    ext_results : results s' = results s ++ rs;
    ext_log : log s' = log s ++ ls;
    ext_calls : calls s' = calls s ++ cs;
    ext_capture :
      (apiResponses s', awaiting s')
      = foldl capture_step (apiResponses s, awaiting s) (delivered sc cs)
  }.

(** Started with the observer registered, [m] ends with [r] after having
    made the calls [cs], pushed [rs] and printed [ls]. *)
Definition runs {A} (sc : Scenario) (m : M A) (r : Outcome A)
    (rs : list PageResult) (ls : list LogLine) (cs : list Call) : Prop :=
  forall s, listening s = true ->
    exists s', m s = (s', r) /\ extends sc s s' rs ls cs.

Section Page.

Variable sc : Scenario.

(** The value of [transcription] when [results.push] runs. *)
Definition transcription_read (i : nat) : string :=
  match hasTranscriptionTab_outcome sc i with
  | Ok true =>
      match transcription_outcome sc i with
      | Ok t => t
      | Throw _ => ""
      end
  | _ => ""
  end.

(** Page [i] reaches [results.push]: the three awaits before the inner
    [try] did not throw. *)
Definition reaches_push (i : nat) : bool :=
  match waitForSelector_outcome sc i, click_outcome sc i, imageUrl_outcome sc i with
  | Ok _, Ok _, Ok _ => true
  | _, _, _ => false
  end.

(** What iteration [i] appends to [results]. *)
Definition page_entry (i : nat) : list PageResult :=
  match waitForSelector_outcome sc i, click_outcome sc i, imageUrl_outcome sc i with
  | Ok _, Ok _, Ok u => [mkPageResult i u (transcription_read i)]
  | _, _, _ => []
  end.

(** The calls of the inner [try] block. *)
Definition transcription_calls (i : nat) : list Call :=
  evaluate_hasTranscriptionTab i ::
  match hasTranscriptionTab_outcome sc i with
  | Ok true => [tab_delay i; evaluate_transcription i]
  | _ => []
  end.

(** The calls of iteration [i]. *)
Definition page_calls (i : nat) : list Call :=
  waitForSelector i ::
  match waitForSelector_outcome sc i with
  | Throw _ => []
  | Ok _ =>
      evaluate_click i ::
      match click_outcome sc i with
      | Throw _ => []
      | Ok _ =>
          click_delay i :: evaluate_imageUrl i ::
          match imageUrl_outcome sc i with
          | Throw _ => []
          | Ok _ => transcription_calls i
          end
      end
  end.

(** The exception that reaches the outer [catch] of iteration [i]. *)
Definition page_error (i : nat) : option Error :=
  match waitForSelector_outcome sc i, click_outcome sc i, imageUrl_outcome sc i with
  | Throw e, _, _ => Some e
  | Ok _, Throw e, _ => Some e
  | Ok _, Ok _, Throw e => Some e
  | Ok _, Ok _, Ok _ => None
  end.

(** The exception that reaches the inner [catch] of iteration [i], if
    the iteration gets that far. *)
Definition transcription_error (i : nat) : option Error :=
  match hasTranscriptionTab_outcome sc i with
  | Throw e => Some e
  | Ok true =>
      match transcription_outcome sc i with
      | Throw e => Some e
      | Ok _ => None
      end
  | Ok false => None
  end.

Definition processing_line (i : nat) : LogLine :=
  Stdout [Str (nl +:+ "Processing page " +:+ String_of_nat i +:+ " of 14...")].

Definition error_line (i : nat) (e : Error) : LogLine :=
  Stdout [Str ("Error processing page " +:+ String_of_nat i +:+ ":");
          Str (message e)].

Definition no_transcription_line (i : nat) : LogLine :=
  Stdout [Str ("Could not get transcription for page " +:+ String_of_nat i)].

Definition found_lines (i : nat) (r : PageResult) : list LogLine :=
  [Stdout [Str ("Page " +:+ String_of_nat i +:+ ": Image URL: "
                +:+ (if truthy_opt (imageUrl r) then "Found" else "Not found"))];
   Stdout [Str ("Page " +:+ String_of_nat i +:+ ": Transcription: "
                +:+ (if truthy (transcription r)
                     then substring 0 100 (transcription r) +:+ "..."
                     else "Not found"))]].

(** The lines iteration [i] prints. *)
Definition page_log (i : nat) : list LogLine :=
  processing_line i ::
  match page_error i with
  | Some e => [error_line i e]
  | None =>
      match transcription_error i with
      | Some _ => [no_transcription_line i]
      | None => []
      end
      ++ flat_map (found_lines i) (page_entry i)
  end.

End Page.

(** The whole of [scrapeNARA] in closed form. *)
Section Whole.

Variable sc : Scenario.

Definition loop_calls : list Call := flat_map (page_calls sc) (seq 1 14).

(** The calls made up to the first write. *)
Definition calls_before_save : list Call :=
  calls_made (open_steps sc) ++ loop_calls.

Definition scrape_error : option Error :=
  match first_error (open_steps sc) with
  | Some e => Some e
  | None => first_error (save_steps sc)
  end.

Definition scrape_calls : list Call :=
  match first_error (open_steps sc) with
  | Some _ => calls_made (open_steps sc)
  | None => calls_before_save ++ calls_made (save_steps sc)
  end.

Definition scrape_results : list PageResult :=
  match first_error (open_steps sc) with
  | Some _ => []
  | None => flat_map (page_entry sc) (seq 1 14)
  end.

(** [apiResponses] when line 177 serialises it. *)
Definition captured_at_save : list CapturedResponse :=
  (capture (delivered sc calls_before_save)).1.

(** What [scrapeNARA] itself prints. *)
Definition scrape_log : list LogLine :=
  open_log sc
  ++ match first_error (open_steps sc) with
     | Some _ => []
     | None =>
         flat_map (page_log sc) (seq 1 14)
         ++ save_log sc (length captured_at_save)
     end.

Definition scrape_fs (files : gmap string FsEntry) : gmap string FsEntry :=
  match first_error (open_steps sc) with
  | Some _ => files
  | None => saved_fs sc files captured_at_save scrape_results
  end.

Definition scrape_browser (b : Browser) : Browser :=
  match launch_outcome sc with
  | Throw _ => b
  | Ok _ =>
      match scrape_error with
      | Some _ => Running
      | None => Closed
      end
  end.

(** Everything the observer was sent during the run. *)
Definition seen : list NetEvent := delivered sc (calls (final sc)).

(** The module-level directory checks, run from the initial state. *)
Definition dirs_run : State * Outcome unit :=
  bind (ensure_dir sc imagesDir) (fun _ => ensure_dir sc transcriptionsDir)
       (initial sc).

End Whole.

End Trace.

(** ** Concrete runs *)

Module Examples.

(** Downloads: a 404 whose error page arrives completely, a body cut off
    after two chunks, and a request that never gets a response. *)
Definition not_found_page : list Download.bytes :=
  [[x3c; x68; x31; x3e]; [x34; x30; x34]].

Definition get_404 (_ : Download.Protocol) (_ : string)
  : Download.GetResult :=
  Download.Requested (Download.complete_response 404 not_found_page).

Definition get_cut_off (_ : Download.Protocol) (_ : string)
  : Download.GetResult :=
  Download.Requested
    (Download.interrupted_response 200 [[xff; xd8]; [xff; xe0; x00]]).

Definition get_refused (_ : Download.Protocol) (_ : string)
  : Download.GetResult :=
  Download.Requested [Download.ReqError (mkError "connect ECONNREFUSED")].

(** A URL that the [http] module does not take: [get] throws. *)
Definition get_unsupported (_ : Download.Protocol) (_ : string)
  : Download.GetResult :=
  Download.GetThrows (mkError "Protocol 'ftp:' not supported. Expected 'http:'").

(** Every path can be opened for writing; no directory for the file. *)
Definition opens (_ : string) : Download.StreamOpen := Download.Opens.

Definition no_directory (_ : string) : Download.StreamOpen :=
  Download.OpenFails (mkError "ENOENT: no such file or directory, open") 0.

(** Runs of the script.  [calm] is a run in which every call succeeds, the
    working directory is empty and nothing of interest crosses the
    network; the others differ from it in one place. *)
Definition calm : Scrape.Scenario :=
  {| Scrape.fs0 := ∅;
     Scrape.mkdir_outcome := fun _ => Ok tt;
     Scrape.write_outcome := fun _ => Ok tt;
     Scrape.written_before_failure := fun _ => None;
     Scrape.net := fun _ => [];
     Scrape.launch_outcome := Ok tt;
     Scrape.newPage_outcome := Ok tt;
     Scrape.setViewport_outcome := Ok tt;
     Scrape.setRequestInterception_outcome := Ok tt;
     Scrape.goto_outcome := Ok tt;
     Scrape.itemData_outcome := Ok (None, 14);
     Scrape.waitForSelector_outcome := fun _ => Ok tt;
     Scrape.click_outcome := fun _ => Ok true;
     Scrape.imageUrl_outcome :=
       fun i => Ok (Some ("https://s3.amazonaws.com/NARAprodstorage/"
                          +:+ String_of_nat i +:+ ".jpg"));
     Scrape.hasTranscriptionTab_outcome := fun _ => Ok true;
     Scrape.transcription_outcome := fun _ => Ok "In the name of God Amen";
     Scrape.close_outcome := Ok tt |}.

Definition with_click (f : nat -> Outcome bool) (sc : Scrape.Scenario)
  : Scrape.Scenario :=
  {| Scrape.fs0 := Scrape.fs0 sc;
     Scrape.mkdir_outcome := Scrape.mkdir_outcome sc;
     Scrape.write_outcome := Scrape.write_outcome sc;
     Scrape.written_before_failure := Scrape.written_before_failure sc;
     Scrape.net := Scrape.net sc;
     Scrape.launch_outcome := Scrape.launch_outcome sc;
     Scrape.newPage_outcome := Scrape.newPage_outcome sc;
     Scrape.setViewport_outcome := Scrape.setViewport_outcome sc;
     Scrape.setRequestInterception_outcome :=
       Scrape.setRequestInterception_outcome sc;
     Scrape.goto_outcome := Scrape.goto_outcome sc;
     Scrape.itemData_outcome := Scrape.itemData_outcome sc;
     Scrape.waitForSelector_outcome := Scrape.waitForSelector_outcome sc;
     Scrape.click_outcome := f;
     Scrape.imageUrl_outcome := Scrape.imageUrl_outcome sc;
     Scrape.hasTranscriptionTab_outcome := Scrape.hasTranscriptionTab_outcome sc;
     Scrape.transcription_outcome := Scrape.transcription_outcome sc;
     Scrape.close_outcome := Scrape.close_outcome sc |}.

Definition with_tab (f : nat -> Outcome bool) (sc : Scrape.Scenario)
  : Scrape.Scenario :=
  {| Scrape.fs0 := Scrape.fs0 sc;
     Scrape.mkdir_outcome := Scrape.mkdir_outcome sc;
     Scrape.write_outcome := Scrape.write_outcome sc;
     Scrape.written_before_failure := Scrape.written_before_failure sc;
     Scrape.net := Scrape.net sc;
     Scrape.launch_outcome := Scrape.launch_outcome sc;
     Scrape.newPage_outcome := Scrape.newPage_outcome sc;
     Scrape.setViewport_outcome := Scrape.setViewport_outcome sc;
     Scrape.setRequestInterception_outcome :=
       Scrape.setRequestInterception_outcome sc;
     Scrape.goto_outcome := Scrape.goto_outcome sc;
     Scrape.itemData_outcome := Scrape.itemData_outcome sc;
     Scrape.waitForSelector_outcome := Scrape.waitForSelector_outcome sc;
     Scrape.click_outcome := Scrape.click_outcome sc;
     Scrape.imageUrl_outcome := Scrape.imageUrl_outcome sc;
     Scrape.hasTranscriptionTab_outcome := f;
     Scrape.transcription_outcome := Scrape.transcription_outcome sc;
     Scrape.close_outcome := Scrape.close_outcome sc |}.

Definition with_launch_goto (l g : Outcome unit) (sc : Scrape.Scenario)
  : Scrape.Scenario :=
  {| Scrape.fs0 := Scrape.fs0 sc;
     Scrape.mkdir_outcome := Scrape.mkdir_outcome sc;
     Scrape.write_outcome := Scrape.write_outcome sc;
     Scrape.written_before_failure := Scrape.written_before_failure sc;
     Scrape.net := Scrape.net sc;
     Scrape.launch_outcome := l;
     Scrape.newPage_outcome := Scrape.newPage_outcome sc;
     Scrape.setViewport_outcome := Scrape.setViewport_outcome sc;
     Scrape.setRequestInterception_outcome :=
       Scrape.setRequestInterception_outcome sc;
     Scrape.goto_outcome := g;
     Scrape.itemData_outcome := Scrape.itemData_outcome sc;
     Scrape.waitForSelector_outcome := Scrape.waitForSelector_outcome sc;
     Scrape.click_outcome := Scrape.click_outcome sc;
     Scrape.imageUrl_outcome := Scrape.imageUrl_outcome sc;
     Scrape.hasTranscriptionTab_outcome := Scrape.hasTranscriptionTab_outcome sc;
     Scrape.transcription_outcome := Scrape.transcription_outcome sc;
     Scrape.close_outcome := Scrape.close_outcome sc |}.

Definition with_net (n : Scrape.Call -> list Scrape.NetEvent)
    (sc : Scrape.Scenario) : Scrape.Scenario :=
  {| Scrape.fs0 := Scrape.fs0 sc;
     Scrape.mkdir_outcome := Scrape.mkdir_outcome sc;
     Scrape.write_outcome := Scrape.write_outcome sc;
     Scrape.written_before_failure := Scrape.written_before_failure sc;
     Scrape.net := n;
     Scrape.launch_outcome := Scrape.launch_outcome sc;
     Scrape.newPage_outcome := Scrape.newPage_outcome sc;
     Scrape.setViewport_outcome := Scrape.setViewport_outcome sc;
     Scrape.setRequestInterception_outcome :=
       Scrape.setRequestInterception_outcome sc;
     Scrape.goto_outcome := Scrape.goto_outcome sc;
     Scrape.itemData_outcome := Scrape.itemData_outcome sc;
     Scrape.waitForSelector_outcome := Scrape.waitForSelector_outcome sc;
     Scrape.click_outcome := Scrape.click_outcome sc;
     Scrape.imageUrl_outcome := Scrape.imageUrl_outcome sc;
     Scrape.hasTranscriptionTab_outcome := Scrape.hasTranscriptionTab_outcome sc;
     Scrape.transcription_outcome := Scrape.transcription_outcome sc;
     Scrape.close_outcome := Scrape.close_outcome sc |}.

(** The thumbnail click of page 7 throws. *)
Definition click7_throws : Scrape.Scenario :=
  with_click
    (fun i => if Nat.eqb i 7
              then Throw (mkError "Execution context was destroyed")
              else Ok true)
    calm.

(** The transcription tab lookup of page 3 throws. *)
Definition tab3_throws : Scrape.Scenario :=
  with_tab
    (fun i => if Nat.eqb i 3
              then Throw (mkError "Execution context was destroyed")
              else Ok true)
    calm.

(** The navigation times out; the browser did start. *)
Definition goto_times_out : Scrape.Scenario :=
  with_launch_goto (Ok tt)
    (Throw (mkError "Navigation timeout of 60000 ms exceeded")) calm.

(** The browser does not start. *)
Definition launch_fails : Scrape.Scenario :=
  with_launch_goto (Throw (mkError "Failed to launch the browser process"))
    (Ok tt) calm.

(** During the navigation the record search (response 1) arrives before
    the contributions (response 2), but the body of the contributions is
    complete first; a third response is of no interest and a fourth is
    not JSON. *)
Definition records_url : string :=
  "https://catalog.archives.gov/proxy/v3/records/search?naId_is=54928953".
Definition contributions_url : string :=
  "https://catalog.archives.gov/proxy/contributions/targetNaId/54928953".

Definition thumb_url : string :=
  "https://catalog.archives.gov/proxy/records/thumb.jpg".

Definition crossing : list Scrape.NetEvent :=
  [Scrape.ResponseEvent 1 records_url;
   Scrape.ResponseEvent 2 contributions_url;
   Scrape.ResponseEvent 3 "https://catalog.archives.gov/static/main.css";
   Scrape.ResponseEvent 4 thumb_url;
   Scrape.JsonSettled 2 (Some (Scrape.JArray []));
   Scrape.JsonSettled 4 None;
   Scrape.JsonSettled 1 (Some (Scrape.JObject []))].

(** The script's state with the observer registered, after the first four
    events of [crossing]. *)
Definition thumb_pending : Scrape.State :=
  (Scrape.for_each (take 4 crossing) Scrape.on_net_event
     (Scrape.with_listening true (Scrape.initial calm))).1.

Definition bodies_cross : Scrape.Scenario :=
  with_net (fun c => match c with Scrape.goto => crossing | _ => [] end) calm.

End Examples.

(** * Functions evaluated inside the page

    The five functions that [scrapeNARA] passes to [page.evaluate] (lines
    72-85, 104-119, 124-132, 137-146 and 150-153) run in the browser,
    against the document as it is at that moment.  The document is an
    input: it answers each selector query with the matching elements in
    document order.  A selector matches elements of every kind.  Of an
    element the functions read its text and one attribute, which every
    element has, and [innerText], [href] and [src], which are strings on
    the HTML elements that define them and something else on other
    elements; they call [click], which HTML elements have and SVG and
    MathML elements have not.  A character of a [string] stands for one
    UTF-16 code unit, so the texts covered are those with code units below
    256. *)

Module InPage.

(** What reading a property gives, and what a function returns. *)
Inductive Value :=
| JsUndefined
| JsNull
| JsString (s : string)
| JsObject.

Record Element := mkElement {
  node : nat;                          (* which node of the document *)
  textContent : string;
  aria_label : option string;          (* getAttribute('aria-label') *)
  has_click : bool;                    (* [click] is a method of the element *)
  innerText : Value;                   (* a string on an HTML element, else undefined *)
  href : Value;                        (* a string on an HTML anchor, an object on an SVG one *)
  src : Value                          (* a string on an HTML image *)
}.

(** [document.querySelectorAll], by selector text. *)
Definition Document : Type := string -> list Element.

Definition querySelectorAll (document : Document) (selector : string)
  : list Element :=
  document selector.

Definition querySelector (document : Document) (selector : string)
  : option Element :=
  head (querySelectorAll document selector).

(** *** Selectors of the script *)

Definition dq : string := String (ascii_of_nat 34) EmptyString.

(** [[name*="value"]] and [[name="value"]]. *)
Definition attr_contains (name value : string) : string :=
  "[" +:+ name +:+ "*=" +:+ dq +:+ value +:+ dq +:+ "]".

Definition attr_is (name value : string) : string :=
  "[" +:+ name +:+ "=" +:+ dq +:+ value +:+ dq +:+ "]".

(** Line 74 and line 113. *)
Definition thumbnail_selector : string := attr_contains "class" "thumbnail".

(** Line 75. *)
Definition pageNumber_selector : string :=
  attr_contains "class" "page-number" +:+ ", "
  +:+ attr_contains "aria-label" "page".

(** Line 78. *)
Definition s3_link_selector : string :=
  "a" +:+ attr_contains "href" "s3.amazonaws.com".



(** Line 138. *)
Definition tab_selector : string := "button, " +:+ attr_is "role" "tab".


(** *** String methods *)

(** White space and line terminators below 256: TAB, LF, VT, FF, CR,
    space and the no-break space. *)
Definition is_space (c : ascii) : bool :=
  let n := nat_of_ascii c in
  ((9 <=? n) && (n <=? 13) || (n =? 32) || (n =? 160))%nat.

Fixpoint trimStart (s : string) : string :=
  match s with
  | EmptyString => EmptyString
  | String c rest => if is_space c then trimStart rest else s
  end.

Fixpoint trimEnd (s : string) : string :=
  match s with
  | EmptyString => EmptyString
  | String c rest =>
      match trimEnd rest with
      | EmptyString => if is_space c then EmptyString else String c EmptyString
      | kept => String c kept
      end
  end.

(** The string consists of white space only. *)
Fixpoint blank (s : string) : bool :=
  match s with
  | EmptyString => true
  | String c rest => is_space c && blank rest
  end.

(** [String.prototype.trim]. *)
Definition trim (s : string) : string := trimEnd (trimStart s).

(** Lower case of a code unit below 256: A-Z, and the capital letters of
    the Latin-1 block (all of 192-222 but the multiplication sign). *)
Definition lower (c : ascii) : ascii :=
  let n := nat_of_ascii c in
  if ((65 <=? n) && (n <=? 90)
      || (192 <=? n) && (n <=? 222) && negb (n =? 215))%nat
  then ascii_of_nat (n + 32)
  else c.

(** [String.prototype.toLowerCase]. *)
Fixpoint toLowerCase (s : string) : string :=
  match s with
  | EmptyString => EmptyString
  | String c rest => String (lower c) (toLowerCase rest)
  end.

(** [list[index]] for an index that may be negative. *)
Definition item {A} (l : list A) (index : Z) : option A :=
  if (index <? 0)%Z then None else l !! Z.to_nat index.

(** *** The first evaluation (lines 72-85)

    [downloadLink] and [thumbCount] of the object it returns; [pageCount]
    is the constant 14. *)
Definition itemData_callback (document : Document) : Value * nat :=
  let thumbs := querySelectorAll document thumbnail_selector in
  let pageNumbers := querySelectorAll document pageNumber_selector in
  let downloadLink := querySelector document s3_link_selector in
  (match downloadLink with
   | Some a => href a
   | None => JsNull
   end,
   length thumbs).

(** *** The click on the page control (lines 104-119)

    A function returns its value, or throws, and has clicked some nodes. *)

(** The test of line 107. *)
Definition labelled (pageNum : nat) (btn : Element) : bool :=
  String.eqb (trim (textContent btn)) (String_of_nat pageNum)
  || match aria_label btn with
     | Some label => includes label ("page " +:+ String_of_nat pageNum)
     | None => false
     end.

(** The loop of lines 106-111: the button it clicks, if it returns. *)
Fixpoint first_labelled (pageNum : nat) (buttons : list Element)
  : option Element :=
  match buttons with
  | [] => None
  | btn :: rest =>
      if labelled pageNum btn then Some btn else first_labelled pageNum rest
  end.

(** Calling [click] on [undefined], and on an element without the
    method ([callee] is the expression as the source has it). *)
Definition click_of_undefined : Error :=
  mkError "Cannot read properties of undefined (reading 'click')".

Definition click_is_not_a_function (callee : string) : Error :=
  mkError (callee +:+ ".click is not a function").

(** [el.click(); return true;] *)
Definition click_then_true (callee : string) (el : Element)
  : Outcome bool * list nat :=
  if has_click el then (Ok true, [node el])
  else (Throw (click_is_not_a_function callee), []).

Definition click_callback (document : Document) (pageNum : nat)
  : Outcome bool * list nat :=
  let buttons := querySelectorAll document "button" in
  match first_labelled pageNum buttons with
  | Some btn => click_then_true "btn" btn
  | None =>
      let thumbs := querySelectorAll document thumbnail_selector in
      if (pageNum <=? length thumbs)%nat then
        match item thumbs (Z.of_nat pageNum - 1) with
        | Some thumb => click_then_true "thumbs[(pageNum - 1)]" thumb
        | None => (Throw click_of_undefined, [])
        end
      else (Ok false, [])
  end.


(** *** The transcription tab (lines 137-146) *)

(** The test of line 140. *)
Definition names_transcription (tab : Element) : bool :=
  includes (toLowerCase (textContent tab)) "transcription".

Fixpoint first_transcription_tab (tabs : list Element) : option Element :=
  match tabs with
  | [] => None
  | tab :: rest =>
      if names_transcription tab then Some tab
      else first_transcription_tab rest
  end.

Definition hasTranscriptionTab_callback (document : Document)
  : Outcome bool * list nat :=
  let tabs := querySelectorAll document tab_selector in
  match first_transcription_tab tabs with
  | Some tab => click_then_true "tab" tab
  | None => (Ok false, [])
  end.


(** *** The script on given documents *)




Definition text (v : Value) : option string :=
  match v with
  | JsString s => Some s
  | _ => None
  end.


End InPage.

(** ** Concrete documents *)

Module Documents.
Import InPage.

Definition button (n : nat) (label_text : string) (label : option string)
  : Element :=
  {| node := n; textContent := label_text; aria_label := label;
     has_click := true; innerText := JsString label_text;
     href := JsUndefined; src := JsUndefined |}.

(** A thumbnail that is an HTML element, and one that is an [svg]. *)
Definition thumbnail (n : nat) : Element :=
  {| node := n; textContent := ""; aria_label := None;
     has_click := true; innerText := JsString "";
     href := JsUndefined; src := JsUndefined |}.

Definition svg_thumbnail (n : nat) : Element :=
  {| node := n; textContent := ""; aria_label := None;
     has_click := false; innerText := JsUndefined;
     href := JsUndefined; src := JsUndefined |}.

(** A pager whose controls carry their page in [aria-label] only, the
    control of page 10 standing before that of page 1. *)
Definition pager_buttons : list Element :=
  [button 1 "Previous" None;
   button 2 "" (Some "Go to page 10");
   button 3 "" (Some "Go to page 1");
   button 4 "Next" None].

Definition pager : Document :=
  fun selector =>
    if String.eqb selector "button" then pager_buttons else [].

(** Three thumbnails, the second an [svg], and no button that names a
    page. *)
Definition three_thumbnails : Document :=
  fun selector =>
    if String.eqb selector thumbnail_selector
    then [thumbnail 11; svg_thumbnail 12; thumbnail 13]
    else if String.eqb selector "button"
    then [button 1 "Previous" None; button 4 "Next" None]
    else [].

(** Two tabs, the second in capitals. *)
Definition tabbed : Document :=
  fun selector =>
    if String.eqb selector tab_selector
    then [button 21 "Details" None; button 22 "TRANSCRIPTION (2)" None]
    else [].



End Documents.

(** ** The calls made before a given call *)

Module Order.

(** The part of the trace [cs] that precedes the first [c]. *)
Fixpoint calls_before (c : Scrape.Call) (cs : list Scrape.Call)
  : list Scrape.Call :=
  match cs with
  | [] => []
  | c' :: rest =>
      if decide (c' = c) then [] else c' :: calls_before c rest
  end.

End Order.

(** ** Runs in which nothing throws *)

Module Quiet.

(** Every call the script makes goes through: the file system accepts
    what is asked of it and every awaited promise resolves. *)
Definition no_failure (sc : Scrape.Scenario) : Prop :=
  (forall path, Scrape.mkdir_outcome sc path = Ok tt)
  /\ (forall path, Scrape.write_outcome sc path = Ok tt)
  /\ Scrape.launch_outcome sc = Ok tt
  /\ Scrape.newPage_outcome sc = Ok tt
  /\ Scrape.setViewport_outcome sc = Ok tt
  /\ Scrape.setRequestInterception_outcome sc = Ok tt
  /\ Scrape.goto_outcome sc = Ok tt
  /\ (exists itemData, Scrape.itemData_outcome sc = Ok itemData)
  /\ (forall i,
        Scrape.waitForSelector_outcome sc i = Ok tt
        /\ (exists clicked, Scrape.click_outcome sc i = Ok clicked)
        /\ (exists imageUrl, Scrape.imageUrl_outcome sc i = Ok imageUrl)
        /\ (exists tab, Scrape.hasTranscriptionTab_outcome sc i = Ok tab)
        /\ (exists text, Scrape.transcription_outcome sc i = Ok text))
  /\ Scrape.close_outcome sc = Ok tt.

End Quiet.

(** ** More concrete runs *)

Module MoreExamples.

(** The working directory cannot be written to: [mkdirSync] throws. *)
Definition mkdir_denied : Scrape.Scenario :=
  {| Scrape.fs0 := ∅;
     Scrape.mkdir_outcome :=
       fun _ => Throw (mkError "EACCES: permission denied, mkdir");
     Scrape.write_outcome := Scrape.write_outcome Examples.calm;
     Scrape.written_before_failure :=
       Scrape.written_before_failure Examples.calm;
     Scrape.net := Scrape.net Examples.calm;
     Scrape.launch_outcome := Scrape.launch_outcome Examples.calm;
     Scrape.newPage_outcome := Scrape.newPage_outcome Examples.calm;
     Scrape.setViewport_outcome := Scrape.setViewport_outcome Examples.calm;
     Scrape.setRequestInterception_outcome :=
       Scrape.setRequestInterception_outcome Examples.calm;
     Scrape.goto_outcome := Scrape.goto_outcome Examples.calm;
     Scrape.itemData_outcome := Scrape.itemData_outcome Examples.calm;
     Scrape.waitForSelector_outcome := Scrape.waitForSelector_outcome Examples.calm;
     Scrape.click_outcome := Scrape.click_outcome Examples.calm;
     Scrape.imageUrl_outcome := Scrape.imageUrl_outcome Examples.calm;
     Scrape.hasTranscriptionTab_outcome :=
       Scrape.hasTranscriptionTab_outcome Examples.calm;
     Scrape.transcription_outcome := Scrape.transcription_outcome Examples.calm;
     Scrape.close_outcome := Scrape.close_outcome Examples.calm |}.

(** The two directories exist, together with a file of an earlier run and
    a file the script knows nothing about; the disk is full, so every
    [writeFileSync] throws. *)
Definition earlier_files : gmap string Scrape.FsEntry :=
  {[ "./images" := Scrape.Directory;
     "./transcriptions" := Scrape.Directory;
     "scrape_results.json" := Scrape.File (Scrape.Text "[]");
     "notes.txt" := Scrape.File (Scrape.Text "keep") ]}.

Definition disk_full : Scrape.Scenario :=
  {| Scrape.fs0 := earlier_files;
     Scrape.mkdir_outcome := Scrape.mkdir_outcome Examples.calm;
     Scrape.write_outcome :=
       fun _ => Throw (mkError "ENOSPC: no space left on device, write");
     Scrape.written_before_failure := fun _ => Some 0;
     Scrape.net := Scrape.net Examples.calm;
     Scrape.launch_outcome := Scrape.launch_outcome Examples.calm;
     Scrape.newPage_outcome := Scrape.newPage_outcome Examples.calm;
     Scrape.setViewport_outcome := Scrape.setViewport_outcome Examples.calm;
     Scrape.setRequestInterception_outcome :=
       Scrape.setRequestInterception_outcome Examples.calm;
     Scrape.goto_outcome := Scrape.goto_outcome Examples.calm;
     Scrape.itemData_outcome := Scrape.itemData_outcome Examples.calm;
     Scrape.waitForSelector_outcome := Scrape.waitForSelector_outcome Examples.calm;
     Scrape.click_outcome := Scrape.click_outcome Examples.calm;
     Scrape.imageUrl_outcome := Scrape.imageUrl_outcome Examples.calm;
     Scrape.hasTranscriptionTab_outcome :=
       Scrape.hasTranscriptionTab_outcome Examples.calm;
     Scrape.transcription_outcome := Scrape.transcription_outcome Examples.calm;
     Scrape.close_outcome := Scrape.close_outcome Examples.calm |}.

(** No page shows a transcription tab. *)
Definition no_tabs : Scrape.Scenario :=
  Examples.with_tab (fun _ => Ok false) Examples.calm.

(** The record search is answered during the navigation; the contributions
    are answered only while [browser.close()] is awaited. *)
Definition late_response : Scrape.Scenario :=
  Examples.with_net
    (fun c => match c with
              | Scrape.goto =>
                  [Scrape.ResponseEvent 1 Examples.records_url;
                   Scrape.JsonSettled 1 (Some (Scrape.JObject []))]
              | Scrape.close =>
                  [Scrape.ResponseEvent 2 Examples.contributions_url;
                   Scrape.JsonSettled 2 (Some (Scrape.JArray []))]
              | _ => []
              end)
    Examples.calm.

End MoreExamples.

(** * Properties of [downloadFile] *)

Module DownloadFacts.
Import Download.

Section Handlers.

Variable filepath : string.

(** After an uncaught exception nothing is handled any more. *)
Lemma dead_stays (evs : list HttpEvent) (s : State) (e : Error) :
  uncaught s = Some e -> foldl (on_event filepath) s evs = s.
Proof.
  intros Hs. induction evs as [|ev evs IH]; cbn [foldl]; [done|].
  unfold on_event at 2. by rewrite Hs.
Qed.

(** A process alive at the end was alive all along. *)
Lemma alive_before (evs : list HttpEvent) (s : State) :
  uncaught (foldl (on_event filepath) s evs) = None -> uncaught s = None.
Proof.
  intros H. destruct (uncaught s) as [e|] eqn:Hs; [|done].
  by rewrite (dead_stays evs s e Hs), Hs in H.
Qed.

(** Body chunks piped into a file that is still in place are appended in
    order; nothing else changes. *)
Lemma pipe_chunks (chunks : list bytes) (s : State) (old : bytes) :
  uncaught s = None ->
  piped s = true ->
  files s !! filepath = Some old ->
  foldl (on_event filepath) s (map Data chunks)
  = {| files := <[filepath := old ++ concat chunks]> (files s);
       piped := true; closed := closed s; promise := promise s;
       uncaught := None |}.
Proof.
  revert s old.
  induction chunks as [|c chunks IH]; intros s old Hu Hp Hf;
    cbn [map foldl concat].
  - rewrite app_nil_r, insert_id by exact Hf. destruct s; simpl in *.
    by subst.
  - unfold on_event at 2. rewrite Hu. cbn [handle]. rewrite Hp.
    unfold write. rewrite Hf.
    erewrite IH; cbn [files piped closed promise uncaught];
      [| reflexivity | reflexivity | apply lookup_insert_eq].
    by rewrite insert_insert_eq, app_assoc.
Qed.

(** Once the path is gone no event brings it back. *)
Lemma unlinked_stays (evs : list HttpEvent) (s : State) :
  files s !! filepath = None ->
  files (foldl (on_event filepath) s evs) !! filepath = None.
Proof.
  revert s. induction evs as [|ev evs IH]; intros s Hf; simpl; [done|].
  apply IH. unfold on_event. destruct (uncaught s); [done|].
  destruct ev; simpl; try done.
  - by rewrite lookup_delete_eq.
  - destruct (piped s); simpl; [|done]. unfold write. by rewrite Hf.
  - by destruct (piped s).
Qed.

(** A settled promise keeps its state. *)
Lemma settled_stays (evs : list HttpEvent) (s : State) :
  promise s <> Pending ->
  promise (foldl (on_event filepath) s evs) = promise s.
Proof.
  revert s. induction evs as [|ev evs IH]; intros s Hs; simpl; [done|].
  assert (Hstep : promise (on_event filepath s ev) = promise s).
  { unfold on_event. destruct (uncaught s); [done|].
    destruct ev; simpl; try done.
    - by destruct (promise s).
    - by destruct (piped s).
    - destruct (piped s); simpl; [|done]. by destruct (promise s). }
  rewrite IH; rewrite Hstep; done.
Qed.

(** A rejection comes from a request error among the events. *)
Lemma rejected_by_request_error (evs : list HttpEvent) (s : State) (err : Error) :
  promise (foldl (on_event filepath) s evs) = Rejected err ->
  promise s = Rejected err \/ ReqError err ∈ evs.
Proof.
  revert s. induction evs as [|ev evs IH]; intros s H; simpl in *; [by left|].
  destruct (IH _ H) as [Hs | Hin]; [| right; by apply list_elem_of_further].
  unfold on_event in Hs. destruct (uncaught s); [by left|].
  destruct ev; simpl in Hs; try (by left).
  - destruct (promise s) eqn:Hp; simpl in Hs; try (left; congruence).
    right. injection Hs as ->. apply list_elem_of_here.
  - destruct (piped s); by left.
  - destruct (piped s); simpl in Hs; [|by left].
    destruct (promise s); simpl in Hs; try discriminate; by left.
Qed.

(** The path disappears only through the unlink of the error handler. *)
Lemma unlinked_by_request_error (evs : list HttpEvent) (s : State) :
  files (foldl (on_event filepath) s evs) !! filepath = None ->
  files s !! filepath = None \/ exists err, ReqError err ∈ evs.
Proof.
  revert s. induction evs as [|ev evs IH]; intros s H; simpl in *; [by left|].
  destruct (IH _ H) as [Hs | [err Hin]];
    [| right; exists err; by apply list_elem_of_further].
  unfold on_event in Hs. destruct (uncaught s); [by left|].
  destruct ev; simpl in Hs; try (by left).
  - right. eexists. apply list_elem_of_here.
  - destruct (piped s); simpl in Hs; [|by left].
    unfold write in Hs. destruct (files s !! filepath) eqn:Hf; [|by left].
    by rewrite lookup_insert_eq in Hs.
  - destruct (piped s); by left.
Qed.

(** [die] adds the exception and nothing else. *)
Lemma die_state (err : Error) (s : State) :
  files (die err s) = files s
  /\ promise (die err s) = promise s
  /\ closed (die err s) = closed s
  /\ is_Some (uncaught (die err s)).
Proof.
  unfold die. destruct (uncaught s) eqn:E; cbn; rewrite ?E; eauto.
Qed.

(** A stream that is not open takes nothing to disk and does not finish:
    the promise is not resolved, a rejection comes from a request error,
    [file.close()] is not called, and the path is at most unlinked. *)
Lemma unopened_run (evs : list HttpEvent) (s : State) :
  (promise (foldl (on_event_unopened filepath) s evs) = Resolved ->
   promise s = Resolved)
  /\ (forall err,
        promise (foldl (on_event_unopened filepath) s evs) = Rejected err ->
        promise s = Rejected err \/ ReqError err ∈ evs)
  /\ closed (foldl (on_event_unopened filepath) s evs) = closed s
  /\ (files (foldl (on_event_unopened filepath) s evs) = files s
      \/ files (foldl (on_event_unopened filepath) s evs)
         = delete filepath (files s))
  /\ (forall path, path <> filepath ->
        files (foldl (on_event_unopened filepath) s evs) !! path
        = files s !! path).
Proof.
  revert s. induction evs as [|ev evs IH]; intros s; cbn [foldl].
  { repeat split; auto. }
  destruct (IH (on_event_unopened filepath s ev))
    as (Hres & Hrej & Hclosed & Hfiles & Hother).
  assert (Hstep :
    (promise (on_event_unopened filepath s ev) = promise s
     \/ exists err, ev = ReqError err
                    /\ promise (on_event_unopened filepath s ev)
                       = settle (promise s) (Rejected err))
    /\ closed (on_event_unopened filepath s ev) = closed s
    /\ (files (on_event_unopened filepath s ev) = files s
        \/ files (on_event_unopened filepath s ev)
           = delete filepath (files s))).
  { unfold on_event_unopened, on_event.
    destruct ev; try (by auto); destruct (uncaught s); cbn;
      repeat split; eauto. }
  destruct Hstep as (Hp & Hc & Hf).
  split; [|split; [|split; [|split]]].
  - intros H%Hres. destruct Hp as [Hp | (err & -> & Hp)]; [congruence|].
    rewrite Hp in H. by destruct (promise s).
  - intros err [H | H]%Hrej; [| right; by apply list_elem_of_further].
    destruct Hp as [Hp | (err' & -> & Hp)]; [left; congruence|].
    rewrite Hp in H. destruct (promise s) eqn:E; cbn in H.
    + injection H as ->. right. apply list_elem_of_here.
    + discriminate.
    + by left.
  - congruence.
  - destruct Hfiles as [-> | ->], Hf as [-> | ->]; auto.
    right. by rewrite delete_delete_eq.
  - intros path Hne. rewrite Hother by done.
    destruct Hf as [-> | ->]; [done | by rewrite lookup_delete_ne].
Qed.

End Handlers.

(** The status code of a response plays no part. *)
Lemma complete_response_resolves
    (createWriteStream : string -> StreamOpen)
    (get : Protocol -> string -> GetResult)
    (fs : gmap string bytes) (url filepath : string)
    (statusCode : nat) (body : list bytes) :
  createWriteStream filepath = Opens ->
  get (protocol_of url) url = Requested (complete_response statusCode body) ->
  downloadFile createWriteStream get fs url filepath
  = {| files := <[filepath := concat body]> fs;
       piped := true; closed := true; promise := Resolved;
       uncaught := None |}.
Proof.
  intros Hopen Hget. unfold downloadFile, request, complete_response in *.
  rewrite Hopen, Hget.
  cbn [foldl]. rewrite foldl_app.
  erewrite pipe_chunks;
    [| reflexivity | reflexivity
     | cbn [on_event handle uncaught files]; apply lookup_insert_eq].
  cbn. by rewrite !insert_insert_eq.
Qed.

(** A body that stops before its end stays on disk as far as it came, the
    stream stays open and the promise is never settled. *)
Lemma interrupted_response_pends
    (createWriteStream : string -> StreamOpen)
    (get : Protocol -> string -> GetResult)
    (fs : gmap string bytes) (url filepath : string)
    (statusCode : nat) (received : list bytes) :
  createWriteStream filepath = Opens ->
  get (protocol_of url) url
  = Requested (interrupted_response statusCode received) ->
  downloadFile createWriteStream get fs url filepath
  = {| files := <[filepath := concat received]> fs;
       piped := true; closed := false; promise := Pending;
       uncaught := None |}.
Proof.
  intros Hopen Hget. unfold downloadFile, request, interrupted_response in *.
  rewrite Hopen, Hget.
  cbn [foldl]. rewrite foldl_app.
  erewrite pipe_chunks;
    [| reflexivity | reflexivity
     | cbn [on_event handle uncaught files]; apply lookup_insert_eq].
  cbn. by rewrite !insert_insert_eq.
Qed.

(** A connection that is refused: the file just created is removed and the
    caller gets the error. *)
Lemma refused_connection_cleans_up :
  downloadFile Examples.opens Examples.get_refused ∅
    "http://host/a.jpg" "./images/a.jpg"
  = {| files := ∅; piped := false; closed := false;
       promise := Rejected (mkError "connect ECONNREFUSED");
       uncaught := None |}.
Proof.
  unfold downloadFile, request, Examples.opens, Examples.get_refused.
  cbn [foldl on_event handle uncaught files piped closed promise settle].
  by rewrite delete_insert_eq, delete_empty.
Qed.

(** A directory that is missing: the file is not made, nothing of the
    response is handled, and the process ends with the error of the open. *)
Lemma missing_directory_ends_process :
  downloadFile Examples.no_directory Examples.get_404 ∅
    "http://host/a.jpg" "./images/a.jpg"
  = {| files := ∅; piped := false; closed := false; promise := Pending;
       uncaught := Some (mkError "ENOENT: no such file or directory, open") |}.
Proof. reflexivity. Qed.

(** Where a rejection comes from. *)
Lemma rejection_origin
    (createWriteStream : string -> StreamOpen)
    (get : Protocol -> string -> GetResult)
    (fs : gmap string bytes) (url filepath : string) (err : Error) :
  promise (downloadFile createWriteStream get fs url filepath) = Rejected err ->
  createWriteStream filepath = OpenThrows err
  \/ get (protocol_of url) url = GetThrows err
  \/ exists events,
       get (protocol_of url) url = Requested events /\ ReqError err ∈ events.
Proof.
  unfold downloadFile, request, first_events.
  destruct (createWriteStream filepath) as [|e|e handled].
  - destruct (get (protocol_of url) url) as [e'|events].
    + cbn. intros [= ->]. right. by left.
    + intros H. right. right. exists events. split; [done|].
      by apply rejected_by_request_error in H as [H | H].
  - cbn. intros [= ->]. by left.
  - rewrite (proj1 (proj2 (die_state _ _))).
    destruct (get (protocol_of url) url) as [e'|events].
    + cbn. intros [= ->]. right. by left.
    + intros H. right. right. exists events. split; [done|].
      apply unopened_run in H as [H | H]; [discriminate|].
      by eapply subseteq_take.
Qed.

(** C10, as the code has it.  When the stream opens and the request is
    issued and succeeds (a response arrives and its body runs to the end),
    the promise resolves and the file holds the body, whatever the status
    code.  The file is removed only through an ['error'] event of the
    request, and is removed, with the promise rejected, when the request
    fails before any response.  A rejection has three sources: an
    ['error'] event of the request, a throw of [protocol.get], which leaves
    the empty file behind, and a throw of [fs.createWriteStream].  When
    the stream fails to open, the file is not made, the process ends and
    the promise is never resolved. *)
Theorem downloadFile_status_blind
    (createWriteStream : string -> StreamOpen)
    (get : Protocol -> string -> GetResult)
    (fs : gmap string bytes) (url filepath : string) :
  (forall statusCode body,
      createWriteStream filepath = Opens ->
      get (protocol_of url) url
      = Requested (complete_response statusCode body) ->
      promise (downloadFile createWriteStream get fs url filepath) = Resolved
      /\ files (downloadFile createWriteStream get fs url filepath) !! filepath
         = Some (concat body)
      /\ closed (downloadFile createWriteStream get fs url filepath) = true
      /\ uncaught (downloadFile createWriteStream get fs url filepath) = None)
  /\ (forall err,
        promise (downloadFile createWriteStream get fs url filepath)
        = Rejected err ->
        createWriteStream filepath = OpenThrows err
        \/ get (protocol_of url) url = GetThrows err
        \/ exists events,
             get (protocol_of url) url = Requested events
             /\ ReqError err ∈ events)
  /\ (createWriteStream filepath = Opens ->
      files (downloadFile createWriteStream get fs url filepath) !! filepath
      = None ->
      exists events err,
        get (protocol_of url) url = Requested events
        /\ ReqError err ∈ events)
  /\ (forall err rest,
        createWriteStream filepath = Opens ->
        get (protocol_of url) url = Requested (ReqError err :: rest) ->
        promise (downloadFile createWriteStream get fs url filepath)
        = Rejected err
        /\ files (downloadFile createWriteStream get fs url filepath)
             !! filepath = None)
  /\ (forall err,
        createWriteStream filepath = Opens ->
        get (protocol_of url) url = GetThrows err ->
        promise (downloadFile createWriteStream get fs url filepath)
        = Rejected err
        /\ files (downloadFile createWriteStream get fs url filepath)
             !! filepath = Some []
        /\ closed (downloadFile createWriteStream get fs url filepath) = false)
  /\ (forall err handled,
        createWriteStream filepath = OpenFails err handled ->
        is_Some (uncaught (downloadFile createWriteStream get fs url filepath))
        /\ promise (downloadFile createWriteStream get fs url filepath)
           <> Resolved
        /\ closed (downloadFile createWriteStream get fs url filepath)
           = false
        /\ (files (downloadFile createWriteStream get fs url filepath) = fs
            \/ files (downloadFile createWriteStream get fs url filepath)
               = delete filepath fs)).
Proof.
  split; [|split; [|split; [|split; [|split]]]].
  - intros statusCode body Hopen Hget.
    rewrite (complete_response_resolves _ _ _ _ _ _ _ Hopen Hget).
    cbn [promise files closed uncaught]. by rewrite lookup_insert_eq.
  - intros err. apply rejection_origin.
  - intros Hopen H. unfold downloadFile, request in H. rewrite Hopen in H.
    destruct (get (protocol_of url) url) as [e|events].
    + cbn in H. by rewrite lookup_insert_eq in H.
    + apply unlinked_by_request_error in H as [H | [err H]].
      * cbn in H. by rewrite lookup_insert_eq in H.
      * by exists events, err.
  - intros err rest Hopen Hget. unfold downloadFile, request.
    rewrite Hopen, Hget. cbn [foldl on_event handle uncaught]. split.
    + by rewrite settled_stays.
    + apply unlinked_stays. cbn. apply lookup_delete_eq.
  - intros err Hopen Hget. unfold downloadFile, request.
    rewrite Hopen, Hget. cbn. by rewrite lookup_insert_eq.
  - intros err handled Hopen. unfold downloadFile. rewrite Hopen.
    destruct (die_state err
                (request (on_event_unopened filepath)
                   (first_events handled (get (protocol_of url) url))
                   {| files := fs; piped := false; closed := false;
                      promise := Pending; uncaught := None |}))
      as (-> & -> & -> & Hdead).
    split; [done|]. unfold request, first_events.
    destruct (get (protocol_of url) url) as [e|events].
    + cbn. split; [done|]. split; [done|]. by left.
    + destruct (unopened_run filepath (take handled events)
                  {| files := fs; piped := false; closed := false;
                     promise := Pending; uncaught := None |})
        as (Hres & _ & Hclosed & Hfiles & _).
      split; [|split; [done | done]].
      intros H%Hres. discriminate H.
Qed.

(** The claim has every rejection come from a request error.  An ftp URL
    is passed to the [http] module, whose [get] throws: the promise is
    rejected though no request exists to emit ['error'], and the file just
    created stays, empty. *)
Lemma rejection_without_request_error :
  promise (downloadFile Examples.opens Examples.get_unsupported ∅
             "ftp://host/a.jpg" "./images/a.jpg")
  = Rejected (mkError "Protocol 'ftp:' not supported. Expected 'http:'")
  /\ Examples.get_unsupported (protocol_of "ftp://host/a.jpg") "ftp://host/a.jpg"
     = GetThrows (mkError "Protocol 'ftp:' not supported. Expected 'http:'")
  /\ files (downloadFile Examples.opens Examples.get_unsupported ∅
              "ftp://host/a.jpg" "./images/a.jpg")
       !! "./images/a.jpg" = Some [].
Proof.
  split; [reflexivity|]. split; [reflexivity|].
  cbn. by rewrite lookup_insert_eq.
Qed.

(** The 404 page of [Examples.get_404] is saved and reported as success. *)
Lemma downloadFile_status_blind_witness :
  promise (downloadFile Examples.opens Examples.get_404 ∅
             "http://host/a.jpg" "./images/a.jpg")
  = Resolved
  /\ files (downloadFile Examples.opens Examples.get_404 ∅
              "http://host/a.jpg" "./images/a.jpg")
       !! "./images/a.jpg"
     = Some (concat Examples.not_found_page)
  /\ closed (downloadFile Examples.opens Examples.get_404 ∅
               "http://host/a.jpg" "./images/a.jpg")
     = true
  /\ uncaught (downloadFile Examples.opens Examples.get_404 ∅
                 "http://host/a.jpg" "./images/a.jpg")
     = None.
Proof.
  exact (proj1 (downloadFile_status_blind Examples.opens
                  Examples.get_404 ∅ "http://host/a.jpg" "./images/a.jpg")
               404 Examples.not_found_page eq_refl eq_refl).
Defined.

(** C8.  A download whose response body is interrupted: the five bytes
    that arrived stay at [filepath], the stream is not closed, and the
    promise is neither resolved nor rejected. *)
Theorem downloadFile_interrupted_stream :
  promise (downloadFile Examples.opens Examples.get_cut_off ∅
             "https://s3.amazonaws.com/a.jpg" "./images/a.jpg") = Pending
  /\ files (downloadFile Examples.opens Examples.get_cut_off ∅
              "https://s3.amazonaws.com/a.jpg" "./images/a.jpg")
       !! "./images/a.jpg" = Some [xff; xd8; xff; xe0; x00]
  /\ closed (downloadFile Examples.opens Examples.get_cut_off ∅
               "https://s3.amazonaws.com/a.jpg" "./images/a.jpg") = false.
Proof.
  rewrite (interrupted_response_pends _ _ _ _ _ 200
             [[xff; xd8]; [xff; xe0; x00]]) by reflexivity.
  cbn. by rewrite lookup_insert_eq.
Qed.

End DownloadFacts.

(** * Properties of the capture script *)

Module ScrapeFacts.
Import Scrape Trace.
Local Open Scope js_scope.

(** ** The observer *)

Lemma set_capture_same (s : State) :
  set_capture (apiResponses s, awaiting s) s = s.
Proof. by destruct s. Qed.

Lemma set_capture_twice c c' (s : State) :
  set_capture c' (set_capture c s) = set_capture c' s.
Proof. by destruct s. Qed.

(** One event through the handler: it never throws, and it touches
    [apiResponses] and [awaiting] only, as [capture_step] says. *)
Lemma on_net_event_run (ev : NetEvent) (s : State) :
  on_net_event ev s
  = (set_capture (capture_step (apiResponses s, awaiting s) ev) s, Ok tt).
Proof.
  destruct ev as [id u | id body]; cbn [on_net_event capture_step fst snd].
  - unfold on_response. destruct (of_interest u).
    + by destruct s.
    + by rewrite set_capture_same.
  - unfold on_json_settled. destruct (awaiting s !! id) as [u|].
    + destruct body as [d|]; by destruct s.
    + by rewrite set_capture_same.
Qed.

Lemma for_each_events (evs : list NetEvent) (s : State) :
  for_each evs on_net_event s
  = (set_capture (foldl capture_step (apiResponses s, awaiting s) evs) s, Ok tt).
Proof.
  revert s. induction evs as [|ev evs IH]; intros s; cbn [for_each foldl].
  - unfold ret. by rewrite set_capture_same.
  - unfold bind. rewrite on_net_event_run, IH.
    rewrite set_capture_twice.
    by destruct (capture_step (apiResponses s, awaiting s) ev), s.
Qed.

Lemma deliver_run (evs : list NetEvent) (s : State) :
  deliver evs s = (observe evs s, Ok tt).
Proof.
  unfold deliver, observe. destruct (listening s); [|done].
  apply for_each_events.
Qed.

Lemma await_run sc {A} (c : Call) (o : Outcome A) (s : State) :
  await sc c o s = (observe (net sc c) (record_call c s), o).
Proof. unfold await, bind, modify. by rewrite deliver_run. Qed.

Lemma delivered_app sc (cs cs' : list Call) :
  delivered sc (cs ++ cs') = delivered sc cs ++ delivered sc cs'.
Proof. unfold delivered. by rewrite List.filter_app, flat_map_app. Qed.

(** ** Composition of run segments *)

Lemma extends_refl sc (s : State) : extends sc s s [] [] [].
Proof. split; by rewrite ?app_nil_r. Qed.

Lemma extends_trans sc (s1 s2 s3 : State) rs ls cs rs' ls' cs' :
  extends sc s1 s2 rs ls cs ->
  extends sc s2 s3 rs' ls' cs' ->
  extends sc s1 s3 (rs ++ rs') (ls ++ ls') (cs ++ cs').
Proof.
  intros [] []. split; try congruence.
  - rewrite app_assoc. congruence.
  - rewrite app_assoc. congruence.
  - rewrite app_assoc. congruence.
  - rewrite delivered_app, foldl_app. congruence.
Qed.

Lemma extends_log sc (s : State) (l : LogLine) :
  extends sc s (with_log (log s ++ [l]) s) [] [l] [].
Proof. split; by rewrite ?app_nil_r. Qed.

Lemma extends_push sc (s : State) (r : PageResult) :
  extends sc s (with_results (results s ++ [r]) s) [r] [] [].
Proof. split; by rewrite ?app_nil_r. Qed.

(** An await made while the observer is registered. *)
Lemma extends_await sc (c : Call) (s : State) :
  listening s = true -> observed c = true ->
  extends sc s (observe (net sc c) (record_call c s)) [] [] [c].
Proof.
  intros Hl Hc. unfold observe. cbn [listening record_call with_calls].
  rewrite Hl. split; cbn; rewrite ?app_nil_r; try done.
  rewrite Hc. cbn [flat_map]. rewrite app_nil_r.
  by destruct (foldl capture_step (apiResponses s, awaiting s) (net sc c)).
Qed.

(** ** Rules for [runs] *)

Section Rules.

Variable sc : Scenario.

Lemma runs_eq {A} (m : M A) r rs ls cs rs' ls' cs' :
  runs sc m r rs ls cs -> rs = rs' -> ls = ls' -> cs = cs' ->
  runs sc m r rs' ls' cs'.
Proof. by intros H <- <- <-. Qed.

Lemma runs_ret {A} (a : A) : runs sc (ret a) (Ok a) [] [] [].
Proof. intros s _. exists s. split; [done | apply extends_refl]. Qed.

Lemma runs_bind_ok {A B} (m : M A) (k : A -> M B) a r rs ls cs rs' ls' cs' :
  runs sc m (Ok a) rs ls cs ->
  runs sc (k a) r rs' ls' cs' ->
  runs sc (bind m k) r (rs ++ rs') (ls ++ ls') (cs ++ cs').
Proof.
  intros Hm Hk s Hl. destruct (Hm s Hl) as (s1 & E1 & X1).
  destruct (Hk s1) as (s2 & E2 & X2).
  { destruct X1. congruence. }
  exists s2. split; [| by eapply extends_trans].
  unfold bind. by rewrite E1.
Qed.

Lemma runs_bind_throw {A B} (m : M A) (k : A -> M B) e rs ls cs :
  runs sc m (Throw e) rs ls cs ->
  runs sc (bind m k) (Throw e) rs ls cs.
Proof.
  intros Hm s Hl. destruct (Hm s Hl) as (s1 & E1 & X1).
  exists s1. split; [| done]. unfold bind. by rewrite E1.
Qed.

Lemma runs_try_ok {A} (m : M A) (h : Error -> M A) a rs ls cs :
  runs sc m (Ok a) rs ls cs ->
  runs sc (try_catch m h) (Ok a) rs ls cs.
Proof.
  intros Hm s Hl. destruct (Hm s Hl) as (s1 & E1 & X1).
  exists s1. split; [| done]. unfold try_catch. by rewrite E1.
Qed.

Lemma runs_try_throw {A} (m : M A) (h : Error -> M A) e r
    rs ls cs rs' ls' cs' :
  runs sc m (Throw e) rs ls cs ->
  runs sc (h e) r rs' ls' cs' ->
  runs sc (try_catch m h) r (rs ++ rs') (ls ++ ls') (cs ++ cs').
Proof.
  intros Hm Hh s Hl. destruct (Hm s Hl) as (s1 & E1 & X1).
  destruct (Hh s1) as (s2 & E2 & X2).
  { destruct X1. congruence. }
  exists s2. split; [| by eapply extends_trans].
  unfold try_catch. by rewrite E1.
Qed.

Lemma runs_await {A} (c : Call) (o : Outcome A) :
  observed c = true -> runs sc (await sc c o) o [] [] [c].
Proof.
  intros Hc s Hl. eexists. split; [apply await_run |].
  by apply extends_await.
Qed.

Lemma runs_sleep (c : Call) :
  observed c = true -> runs sc (sleep sc c) (Ok tt) [] [] [c].
Proof. apply runs_await. Qed.

Lemma runs_console_log (args : list LogArg) :
  runs sc (console_log args) (Ok tt) [] [Stdout args] [].
Proof. intros s _. eexists. split; [done | apply extends_log]. Qed.

Lemma runs_push (r : PageResult) :
  runs sc (modify (fun s => with_results (results s ++ [r]) s))
       (Ok tt) [r] [] [].
Proof. intros s _. eexists. split; [done | apply extends_push]. Qed.

Lemma runs_for_each (body : nat -> M unit) (l : list nat)
    (rs : nat -> list PageResult) (ls : nat -> list LogLine)
    (cs : nat -> list Call) :
  (forall i, runs sc (body i) (Ok tt) (rs i) (ls i) (cs i)) ->
  runs sc (for_each l body) (Ok tt)
       (flat_map rs l) (flat_map ls l) (flat_map cs l).
Proof.
  intros Hbody. induction l as [|i l IH]; cbn [for_each flat_map].
  - apply runs_ret.
  - by eapply runs_bind_ok.
Qed.

End Rules.

Create HintDb runs.
#[local] Hint Resolve runs_ret runs_console_log runs_push : runs.
#[local] Hint Extern 1 (runs _ (await _ _ _) _ _ _ _) =>
  apply runs_await; reflexivity : runs.
#[local] Hint Extern 1 (runs _ (sleep _ _) _ _ _ _) =>
  apply runs_sleep; reflexivity : runs.

(** Walk through a block whose awaited outcomes are known. *)
Ltac walk :=
  lazymatch goal with
  | |- runs _ (bind _ _) _ _ _ _ =>
      first [ eapply runs_bind_ok; [solve [eauto with runs] | cbv beta; walk]
            | eapply runs_bind_throw; solve [eauto with runs] ]
  | |- runs _ (try_catch _ _) _ _ _ _ =>
      first [ eapply runs_try_ok; walk
            | eapply runs_try_throw; [walk | cbv beta; walk] ]
  | |- runs _ (if ?b then _ else _) _ _ _ _ => cbv iota; walk
  | |- _ => solve [eauto with runs]
  end.

Ltac same_lists :=
  cbn [app flat_map found_lines imageUrl transcription];
  rewrite ?app_nil_r; reflexivity.

(** ** One iteration of the page loop *)

Lemma runs_read_transcription sc (i : nat) :
  runs sc (read_transcription sc i) (Ok (transcription_read sc i)) []
       (match transcription_error sc i with
        | Some _ => [no_transcription_line i]
        | None => []
        end)
       (transcription_calls sc i).
Proof.
  unfold read_transcription, transcription_read, transcription_error,
    transcription_calls.
  destruct (hasTranscriptionTab_outcome sc i) as [[|]|e].
  - destruct (transcription_outcome sc i) as [t|e];
      (eapply runs_eq; [walk | same_lists ..]).
  - eapply runs_eq; [walk | same_lists ..].
  - eapply runs_eq; [walk | same_lists ..].
Qed.

#[local] Hint Resolve runs_read_transcription : runs.

(** An iteration never throws; it pushes [page_entry], prints [page_log]
    and makes [page_calls]. *)
Lemma runs_process_page sc (i : nat) :
  runs sc (process_page sc i) (Ok tt)
       (page_entry sc i) (page_log sc i) (page_calls sc i).
Proof.
  unfold process_page, page_log, page_entry, page_calls, page_error.
  destruct (waitForSelector_outcome sc i) as [[]|e1];
    [destruct (click_outcome sc i) as [b|e2];
     [destruct (imageUrl_outcome sc i) as [u|e3] |] |];
    (eapply runs_eq; [walk | same_lists ..]).
Qed.

Lemma runs_page_loop sc :
  runs sc (page_loop sc) (Ok tt)
       (flat_map (page_entry sc) (seq 1 14))
       (flat_map (page_log sc) (seq 1 14))
       (flat_map (page_calls sc) (seq 1 14)).
Proof. apply runs_for_each, runs_process_page. Qed.

(** ** The straight-line parts *)

Lemma observe_off (evs : list NetEvent) (s : State) :
  listening s = false -> observe evs s = s.
Proof. unfold observe. by intros ->. Qed.

Lemma observe_on (evs : list NetEvent) (s : State) :
  listening s = true ->
  observe evs s
  = set_capture (foldl capture_step (apiResponses s, awaiting s) evs) s.
Proof. unfold observe. by intros ->. Qed.

Ltac conjuncts := repeat match goal with |- _ /\ _ => split end.

Lemma pair_eta {A B} (p : A * B) : (p.1, p.2) = p.
Proof. by destruct p. Qed.

(** Lines 32-87 never touch the files or [results]; what they capture is
    what the observer was sent from [goto] on. *)
Lemma open_catalog_run sc (s : State) :
  listening s = false -> apiResponses s = [] -> awaiting s = ∅ ->
  exists s',
    open_catalog sc s = (s', outcome_of (first_error (open_steps sc)))
    /\ fs s' = fs s
    /\ results s' = results s
    /\ calls s' = calls s ++ calls_made (open_steps sc)
    /\ browser s' = match launch_outcome sc with
                    | Ok _ => Running
                    | Throw _ => browser s
                    end
    /\ log s' = log s ++ open_log sc
    /\ (apiResponses s', awaiting s')
       = capture (delivered sc (calls_made (open_steps sc)))
    /\ (first_error (open_steps sc) = None -> listening s' = true).
Proof.
  intros Hl Ha Hw.
  unfold open_catalog, open_log, open_steps, sleep, bind, console_log, modify,
    capture, delivered.
  cbn [first_error calls_made take].
  rewrite await_run, observe_off by done.
  destruct (launch_outcome sc) as [[]|e]; cbn [first_error calls_made outcome_of].
  2: { eexists; split; [reflexivity|]. cbn. rewrite Ha, Hw.
       repeat split; eauto; discriminate. }
  rewrite await_run, observe_off by done.
  destruct (newPage_outcome sc) as [[]|e]; cbn [first_error calls_made outcome_of].
  2: { eexists; split; [reflexivity|]. cbn. rewrite Ha, Hw, <- !app_assoc.
       repeat split; eauto; discriminate. }
  rewrite await_run, observe_off by done.
  destruct (setViewport_outcome sc) as [[]|e]; cbn [first_error calls_made outcome_of].
  2: { eexists; split; [reflexivity|]. cbn. rewrite Ha, Hw, <- !app_assoc.
       repeat split; eauto; discriminate. }
  rewrite await_run, observe_off by done.
  destruct (setRequestInterception_outcome sc) as [[]|e];
    cbn [first_error calls_made outcome_of].
  2: { eexists; split; [reflexivity|]. cbn. rewrite Ha, Hw, <- !app_assoc.
       repeat split; eauto; discriminate. }
  rewrite await_run, observe_on by done.
  destruct (goto_outcome sc) as [[]|e]; cbn [first_error calls_made outcome_of].
  2: { eexists; split; [reflexivity|]. cbn. rewrite Hw, <- !app_assoc, ?app_nil_r.
       repeat split; rewrite ?pair_eta; eauto; discriminate. }
  rewrite await_run, observe_on by done.
  rewrite await_run, observe_on by done.
  destruct (itemData_outcome sc) as [found|e];
    cbn [void first_error calls_made outcome_of].
  2: { eexists; split; [reflexivity|]. cbn.
       rewrite Hw, <- !app_assoc, ?foldl_app, ?app_nil_r, ?pair_eta.
       repeat split; eauto; discriminate. }
  eexists; split; [reflexivity|]. cbn.
  rewrite Hw, <- !app_assoc, ?foldl_app, ?app_nil_r, ?pair_eta.
  repeat split; eauto.
Qed.

(** Lines 173-183, started with the observer registered. *)
Lemma save_and_close_run sc (s : State) :
  listening s = true ->
  exists s',
    save_and_close sc s = (s', outcome_of (first_error (save_steps sc)))
    /\ fs s' = saved_fs sc (fs s) (apiResponses s) (results s)
    /\ results s' = results s
    /\ calls s' = calls s ++ calls_made (save_steps sc)
    /\ browser s' = match first_error (save_steps sc) with
                    | None => Closed
                    | Some _ => browser s
                    end
    /\ log s' = log s ++ save_log sc (length (apiResponses s))
    /\ (apiResponses s', awaiting s')
       = foldl capture_step (apiResponses s, awaiting s)
               (delivered sc (calls_made (save_steps sc))).
Proof.
  intros Hl.
  unfold save_and_close, save_log, save_steps, saved_fs, failed_write,
    fs_writeFileSync, sync, bind, console_log, modify, ret, delivered.
  cbn [first_error calls_made].
  destruct (write_outcome sc "api_responses.json") as [[]|e];
    cbn [first_error calls_made outcome_of].
  2: { destruct (written_before_failure sc "api_responses.json");
         (eexists; split; [reflexivity|]); cbn; rewrite <- !app_assoc;
         repeat split; eauto. }
  destruct (write_outcome sc "scrape_results.json") as [[]|e];
    cbn [first_error calls_made outcome_of].
  2: { destruct (written_before_failure sc "scrape_results.json");
         (eexists; split; [reflexivity|]); cbn; rewrite <- !app_assoc;
         repeat split; eauto. }
  rewrite await_run, observe_on by done.
  destruct (close_outcome sc) as [[]|e];
    cbn [first_error calls_made outcome_of].
  2: { eexists; split; [reflexivity|]. cbn.
       rewrite <- !app_assoc, ?app_nil_r, ?pair_eta. repeat split; eauto. }
  eexists; split; [reflexivity|]. cbn.
  rewrite <- !app_assoc, ?app_nil_r, ?pair_eta. repeat split; eauto.
Qed.

(** ** The whole function *)

Lemma open_ok_launch_ok sc :
  first_error (open_steps sc) = None -> launch_outcome sc = Ok tt.
Proof.
  unfold open_steps. cbn [first_error].
  by destruct (launch_outcome sc) as [[]|].
Qed.

Lemma scrapeNARA_run sc (s : State) :
  listening s = false -> apiResponses s = [] -> awaiting s = ∅ ->
  results s = [] ->
  exists s',
    scrapeNARA sc s = (s', outcome_of (scrape_error sc))
    /\ fs s' = scrape_fs sc (fs s)
    /\ results s' = scrape_results sc
    /\ calls s' = calls s ++ scrape_calls sc
    /\ browser s' = scrape_browser sc (browser s)
    /\ log s' = log s ++ scrape_log sc
    /\ (apiResponses s', awaiting s') = capture (delivered sc (scrape_calls sc)).
Proof.
  intros Hl Ha Hw Hr.
  destruct (open_catalog_run sc s Hl Ha Hw)
    as (s1 & E1 & Hfs1 & Hres1 & Hcalls1 & Hb1 & Hlog1 & Hcap1 & Hl1).
  unfold scrapeNARA, scrape_browser, scrape_error, scrape_fs, scrape_results,
    scrape_calls, scrape_log, bind.
  rewrite E1.
  destruct (first_error (open_steps sc)) as [e|] eqn:Hopen; cbn [outcome_of].
  { exists s1. rewrite app_nil_r. conjuncts; congruence. }
  specialize (Hl1 eq_refl). unfold modify.
  destruct (runs_page_loop sc (with_results [] s1) Hl1) as (s2 & E2 & X2).
  destruct X2 as [Hfs2 Hb2 Hl2 Hres2 Hlog2 Hcalls2 Hcap2].
  cbn in Hfs2, Hb2, Hl2, Hres2, Hlog2, Hcalls2, Hcap2.
  rewrite E2.
  destruct (save_and_close_run sc s2)
    as (s3 & E3 & Hfs3 & Hres3 & Hcalls3 & Hb3 & Hlog3 & Hcap3);
    [congruence|].
  assert (Hcap2' : (apiResponses s2, awaiting s2)
                   = capture (delivered sc (calls_before_save sc))).
  { unfold calls_before_save, loop_calls, capture.
    rewrite delivered_app, foldl_app.
    fold (capture (delivered sc (calls_made (open_steps sc)))).
    by rewrite <- Hcap1. }
  assert (Hapi2 : apiResponses s2 = captured_at_save sc).
  { unfold captured_at_save. by rewrite <- Hcap2'. }
  exists s3. rewrite E3. conjuncts; [done | ..].
  - by rewrite Hfs3, Hfs2, Hfs1, Hres2, Hapi2.
  - by rewrite Hres3, Hres2.
  - rewrite Hcalls3, Hcalls2, Hcalls1. unfold calls_before_save, loop_calls.
    by rewrite <- !app_assoc.
  - rewrite Hb3, Hb2, Hb1, (open_ok_launch_ok sc Hopen).
    by destruct (first_error (save_steps sc)).
  - rewrite Hlog3, Hlog2, Hlog1, Hapi2. by rewrite <- !app_assoc.
  - rewrite Hcap3, Hcap2'. unfold capture.
    by rewrite delivered_app, foldl_app.
Qed.

(** ** The process *)

(** The directory checks leave everything but [fs] and [calls] as it was
    at start, and make no call other than [mkdirSync]. *)
Lemma dirs_run_facts sc :
  exists sd r,
    dirs_run sc = (sd, r)
    /\ listening sd = false /\ apiResponses sd = [] /\ awaiting sd = ∅
    /\ results sd = [] /\ log sd = [] /\ browser sd = NotLaunched
    /\ (forall c, c ∈ calls sd -> exists path, c = mkdirSync path)
    /\ (forall path, path <> imagesDir -> path <> transcriptionsDir ->
                    fs sd !! path = fs0 sc !! path).
Proof.
  unfold dirs_run, ensure_dir, fs_existsSync, fs_mkdirSync, sync, bind, modify,
    ret, initial.
  cbn [fs].
  destruct (bool_decide (is_Some (fs0 sc !! imagesDir)));
    cbn [negb fs record_call with_fs with_calls calls app].
  - destruct (bool_decide (is_Some (fs0 sc !! transcriptionsDir))); cbn [negb];
      [| destruct (mkdir_outcome sc transcriptionsDir) as [[]|e]];
      (do 2 eexists; split; [reflexivity|]; cbn; conjuncts; try done;
       first [ by intros; rewrite ?lookup_insert_ne
             | apply Forall_forall; repeat constructor; eauto ]).
  - destruct (mkdir_outcome sc imagesDir) as [[]|e];
      cbn [negb fs record_call with_fs with_calls calls app];
      [destruct (bool_decide (is_Some (<[imagesDir:=Directory]> (fs0 sc)
                                         !! transcriptionsDir))); cbn [negb];
       [| destruct (mkdir_outcome sc transcriptionsDir) as [[]|e]] |];
      (do 2 eexists; split; [reflexivity|]; cbn; conjuncts; try done;
       first [ by intros; rewrite ?lookup_insert_ne
             | apply Forall_forall; repeat constructor; eauto ]).
Qed.

Lemma run_unfold sc :
  run sc
  = match dirs_run sc with
    | (sd, Ok _) =>
        match scrapeNARA sc sd with
        | (s, Ok _) => (s, 0)
        | (s, Throw e) => (with_log (log s ++ [Stderr [Err e]]) s, 0)
        end
    | (sd, Throw e) => (with_log (log sd ++ [Uncaught e]) sd, 1)
    end.
Proof.
  unfold run, script, dirs_run, bind, try_catch, console_error, modify.
  destruct (ensure_dir sc imagesDir (initial sc)) as [s1 [[]|e1]]; [|done].
  destruct (ensure_dir sc transcriptionsDir s1) as [s2 [[]|e2]]; [|done].
  by destruct (scrapeNARA sc s2) as [s3 [[]|e3]].
Qed.

(** The final state of the process, field by field. *)
Lemma final_facts sc :
  exists sd r,
    dirs_run sc = (sd, r)
    /\ (forall c, c ∈ calls sd -> exists path, c = mkdirSync path)
    /\ (forall path, path <> imagesDir -> path <> transcriptionsDir ->
                    fs sd !! path = fs0 sc !! path)
    /\ match r with
       | Throw e =>
           exit_status sc = 1
           /\ fs (final sc) = fs sd
           /\ results (final sc) = []
           /\ calls (final sc) = calls sd
           /\ browser (final sc) = NotLaunched
           /\ log (final sc) = [Uncaught e]
           /\ apiResponses (final sc) = []
       | Ok _ =>
           exit_status sc = 0
           /\ fs (final sc) = scrape_fs sc (fs sd)
           /\ results (final sc) = scrape_results sc
           /\ calls (final sc) = calls sd ++ scrape_calls sc
           /\ browser (final sc) = scrape_browser sc NotLaunched
           /\ log (final sc)
              = scrape_log sc
                ++ match scrape_error sc with
                   | Some e => [Stderr [Err e]]
                   | None => []
                   end
           /\ (apiResponses (final sc), awaiting (final sc))
              = capture (delivered sc (scrape_calls sc))
       end.
Proof.
  destruct (dirs_run_facts sc)
    as (sd & r & E & Hl & Ha & Hw & Hres & Hlog & Hb & Hcalls & Hfs).
  exists sd, r. conjuncts; try done.
  unfold final, exit_status. rewrite run_unfold, E.
  destruct r as [[]|e].
  - destruct (scrapeNARA_run sc sd Hl Ha Hw Hres)
      as (s' & E' & Hfs' & Hres' & Hcalls' & Hb' & Hlog' & Hcap').
    rewrite E'. rewrite Hb, Hlog in *. cbn [app] in Hlog'.
    destruct (scrape_error sc) as [e|];
      cbn [outcome_of fst snd with_log fs results calls browser log
           apiResponses awaiting];
      rewrite ?app_nil_r; conjuncts; congruence.
  - cbn. rewrite Hlog. by conjuncts.
Qed.

(** ** What the observer collects *)

Lemma prefix_spec (needle hay : string) :
  String.prefix needle hay = true <-> exists post, hay = needle +:+ post.
Proof.
  revert hay. induction needle as [|a needle IH]; intros [|b hay]; cbn.
  - split; [intros _; by exists "" | done].
  - split; [intros _; by eexists | done].
  - split; [done | by intros [? ?]].
  - destruct (ascii_dec a b) as [->|Hne].
    + rewrite IH. split; intros [post H]; exists post;
        [by rewrite H | by injection H].
    + split; [done | intros [post H]; by injection H].
Qed.

Lemma includes_spec (hay needle : string) :
  includes hay needle = true
  <-> exists pre post, hay = pre +:+ needle +:+ post.
Proof.
  induction hay as [|a hay IH]; cbn [includes].
  - rewrite orb_false_r, prefix_spec. split.
    + intros [post H]. by exists "", post.
    + intros (pre & post & H). destruct pre; [by exists post |discriminate].
  - rewrite orb_true_iff, prefix_spec, IH. split.
    + intros [[post H] | (pre & post & H)].
      * by exists "", post.
      * exists (String a pre), post. cbn. by rewrite H.
    + intros (pre & post & H). destruct pre as [|b pre].
      * left. by exists post.
      * right. exists pre, post. by injection H.
Qed.

Lemma capture_snoc (evs : list NetEvent) (ev : NetEvent) :
  capture (evs ++ [ev]) = capture_step (capture evs) ev.
Proof. apply foldl_snoc. Qed.

(** Every captured entry has a URL of interest and is the parsed body of a
    response announced with that URL; every suspended handler belongs to
    an announced response with a URL of interest. *)
Lemma capture_sound (evs : list NetEvent) :
  (forall e, e ∈ (capture evs).1 ->
     of_interest (url e) = true
     /\ exists id, ResponseEvent id (url e) ∈ evs
                  /\ JsonSettled id (Some (data e)) ∈ evs)
  /\ (forall id u, (capture evs).2 !! id = Some u ->
        of_interest u = true /\ ResponseEvent id u ∈ evs).
Proof.
  induction evs as [|ev evs [IHa IHw]] using rev_ind.
  - split; [intros e H; by apply elem_of_nil in H | intros id u H; done].
  - rewrite capture_snoc.
    assert (Ha : forall e, e ∈ (capture evs).1 ->
              of_interest (url e) = true
              /\ exists id, ResponseEvent id (url e) ∈ evs ++ [ev]
                           /\ JsonSettled id (Some (data e)) ∈ evs ++ [ev]).
    { intros e He. destruct (IHa e He) as (Hu & id & H1 & H2).
      split; [done|]. exists id. rewrite !elem_of_app. auto. }
    assert (Hw : forall id u, (capture evs).2 !! id = Some u ->
              of_interest u = true /\ ResponseEvent id u ∈ evs ++ [ev]).
    { intros id u H. destruct (IHw id u H). rewrite elem_of_app. auto. }
    destruct (capture evs) as [a w]. cbn [fst snd] in *.
    destruct ev as [id u | id body]; cbn [capture_step fst snd].
    + destruct (of_interest u) eqn:Hu; cbn [fst snd]; split; try done.
      intros id' u' H.
      destruct (decide (id = id')) as [<-|Hne].
      * rewrite lookup_insert_eq in H. injection H as <-.
        split; [done|]. rewrite elem_of_app, list_elem_of_singleton. auto.
      * rewrite lookup_insert_ne in H by done. auto.
    + destruct (w !! id) as [u|] eqn:Hid; cbn [fst snd]; split; try done.
      * intros e He. destruct body as [d|]; [|auto].
        apply elem_of_app in He as [He | He]; [auto|].
        apply list_elem_of_singleton in He as ->. cbn [url data].
        destruct (Hw id u Hid) as [Hu Hin]. split; [done|].
        exists id. split; [done|].
        rewrite elem_of_app, list_elem_of_singleton. auto.
      * intros id' u' H. apply lookup_delete_Some in H as [_ H]. auto.
Qed.

Lemma announced_app (id : nat) (pre l : list NetEvent) :
  announced id (pre ++ l)
  = match announced id pre with
    | Some u => Some u
    | None => announced id l
    end.
Proof.
  induction pre as [|[id' u | id' body] pre IH]; cbn [app announced]; try done.
  by destruct (Nat.eqb id id').
Qed.

Lemma capture_order_from (suf pre : list NetEvent)
    (a : list CapturedResponse) (w : gmap nat string) (ann stl : list nat) :
  well_formed_from ann stl suf = true ->
  (forall id, id ∈ ann <-> is_Some (announced id pre)) ->
  (forall id, id ∈ stl -> id ∈ ann) ->
  (forall id, w !! id = suspended pre stl id) ->
  (foldl capture_step (a, w) suf).1
  = a ++ omap (settled_entry (pre ++ suf)) suf.
Proof.
  revert pre a w ann stl.
  induction suf as [|ev suf IH]; intros pre a w ann stl Hwf Hann Hstl Hw.
  { cbn. by rewrite app_nil_r. }
  replace (pre ++ ev :: suf) with ((pre ++ [ev]) ++ suf)
    by (by rewrite <- app_assoc).
  destruct ev as [id u | id body]; cbn [well_formed_from] in Hwf;
    cbn [foldl omap list_omap].
  - apply andb_true_iff in Hwf as [Hfresh Hwf].
    apply negb_true_iff, bool_decide_eq_false in Hfresh.
    assert (Hnone : announced id pre = None).
    { destruct (announced id pre) eqn:E; [|done].
      exfalso. apply Hfresh, Hann. by rewrite E. }
    cbn [settled_entry].
    assert (Hstep : capture_step (a, w) (ResponseEvent id u)
                    = (a, if of_interest u then <[id:=u]> w else w)).
    { cbn [capture_step fst snd]. by destruct (of_interest u). }
    rewrite Hstep.
    apply (IH (pre ++ [ResponseEvent id u]) _ _ (id :: ann) stl Hwf).
    + intros id'. rewrite elem_of_cons, announced_app, Hann. cbn [announced].
      destruct (announced id' pre) eqn:E.
      * split; [intros _; by eexists | intros _; right; by eexists].
      * destruct (Nat.eqb_spec id' id) as [->|Hne].
        -- split; [intros _; by eexists | by left].
        -- split; [intros [?|[? ?]]; done | intros [? ?]; done].
    + intros id' H. apply elem_of_cons. right. by apply Hstl.
    + intros id'. unfold suspended. rewrite announced_app. cbn [announced].
      assert (Hunsettled : id ∉ stl) by (intros H; by apply Hfresh, Hstl).
      destruct (Nat.eqb_spec id' id) as [->|Hne].
      * rewrite Hnone, bool_decide_eq_false_2 by done.
        destruct (of_interest u); [by rewrite lookup_insert_eq|].
        rewrite Hw. unfold suspended.
        by rewrite bool_decide_eq_false_2, Hnone by done.
      * assert (Hw' : (if of_interest u then <[id:=u]> w else w) !! id'
                      = w !! id').
        { destruct (of_interest u); [|done]. by rewrite lookup_insert_ne. }
        rewrite Hw', Hw. unfold suspended.
        by destruct (announced id' pre).
  - apply andb_true_iff in Hwf as [Hwf1 Hwf].
    apply andb_true_iff in Hwf1 as [Hknown Hnew].
    apply bool_decide_eq_true in Hknown.
    apply negb_true_iff, bool_decide_eq_false in Hnew.
    apply Hann in Hknown as [u0 Hu0].
    assert (Hall : announced id ((pre ++ [JsonSettled id body]) ++ suf)
                   = Some u0).
    { by rewrite !announced_app, Hu0. }
    assert (Hwid : w !! id = if of_interest u0 then Some u0 else None).
    { rewrite Hw. unfold suspended.
      by rewrite bool_decide_eq_false_2, Hu0 by done. }
    assert (Hstep : capture_step (a, w) (JsonSettled id body)
                    = (a ++ match settled_entry
                                    ((pre ++ [JsonSettled id body]) ++ suf)
                                    (JsonSettled id body) with
                            | Some e => [e]
                            | None => []
                            end,
                       delete id w)).
    { cbn [capture_step settled_entry fst snd]. rewrite Hwid, Hall.
      destruct (of_interest u0).
      - by destruct body; rewrite ?app_nil_r.
      - rewrite delete_id by done. destruct body; by rewrite ?app_nil_r. }
    rewrite Hstep.
    erewrite (IH (pre ++ [JsonSettled id body]) _ _ ann (id :: stl) Hwf).
    + destruct (settled_entry _ (JsonSettled id body));
        by rewrite <- ?app_assoc, ?app_nil_r.
    + intros id'. rewrite announced_app, Hann. cbn [announced].
      by destruct (announced id' pre).
    + intros id' [->|H]%elem_of_cons; [| by apply Hstl].
      apply Hann. by rewrite Hu0.
    + intros id'. unfold suspended. rewrite announced_app. cbn [announced].
      destruct (decide (id' = id)) as [->|Hne].
      * rewrite lookup_delete_eq.
        by rewrite bool_decide_eq_true_2 by apply list_elem_of_here.
      * rewrite lookup_delete_ne, Hw by done. unfold suspended.
        assert (Hdec : bool_decide (id' ∈ id :: stl) = bool_decide (id' ∈ stl)).
        { apply bool_decide_ext. rewrite elem_of_cons.
          split; [by intros [?|?] | by right]. }
        rewrite Hdec. by destruct (announced id' pre).
Qed.

(** On a well-formed event list the capture sequence is the sequence of
    successful settlements of responses of interest, in the order of the
    settlements. *)
Lemma capture_in_settlement_order (evs : list NetEvent) :
  well_formed evs = true ->
  (capture evs).1 = omap (settled_entry evs) evs.
Proof.
  intros Hwf. unfold capture.
  rewrite (capture_order_from evs [] [] ∅ [] [] Hwf); try done.
  - intros id. split; [by intros ?%elem_of_nil | by intros [? ?]].
Qed.

(** ** Where calls come from *)

Lemma calls_made_subset (steps : list (Call * Outcome unit)) (c : Call) :
  c ∈ calls_made steps -> c ∈ map fst steps.
Proof.
  induction steps as [|[c' [[]|e]] steps IH]; cbn [calls_made map fst].
  - done.
  - rewrite !elem_of_cons. intros [->|H]; auto.
  - rewrite list_elem_of_singleton, elem_of_cons. auto.
Qed.

Lemma phase_open sc (c : Call) :
  c ∈ calls_made (open_steps sc) -> phase c = Opening.
Proof.
  intros H%calls_made_subset. cbn in H.
  repeat (apply elem_of_cons in H as [->|H]; [done|]).
  by apply elem_of_nil in H.
Qed.

Lemma phase_save sc (c : Call) :
  c ∈ calls_made (save_steps sc) -> phase c = Saving.
Proof.
  intros H%calls_made_subset. cbn in H.
  repeat (apply elem_of_cons in H as [->|H]; [done|]).
  by apply elem_of_nil in H.
Qed.

Lemma phase_page sc (i : nat) (c : Call) :
  c ∈ page_calls sc i -> phase c = Page i.
Proof.
  unfold page_calls, transcription_calls.
  destruct (waitForSelector_outcome sc i), (click_outcome sc i),
    (imageUrl_outcome sc i), (hasTranscriptionTab_outcome sc i) as [[]|];
    intros H;
    repeat (apply elem_of_cons in H as [->|H]; [done|]);
    by apply elem_of_nil in H.
Qed.

Lemma elem_of_flat_map {A B} (f : A -> list B) (l : list A) (y : B) :
  y ∈ flat_map f l <-> exists x, x ∈ l /\ y ∈ f x.
Proof.
  rewrite list_elem_of_In, in_flat_map.
  split; intros (x & H1 & H2); exists x; by rewrite ?list_elem_of_In in *.
Qed.

Lemma phase_loop sc (c : Call) :
  c ∈ loop_calls sc ->
  exists i, 1 <= i <= 14 /\ phase c = Page i /\ c ∈ page_calls sc i.
Proof.
  unfold loop_calls. rewrite elem_of_flat_map. intros (i & Hi & Hc).
  exists i. apply elem_of_seq in Hi. split; [lia|].
  split; [by eapply phase_page | done].
Qed.

(** A call of iteration [i] found in the trace of a run: the directory
    checks and lines 32-87 went through, [i] is one of the fourteen pages
    and the call is one that iteration [i] makes. *)
Lemma page_call_made sc (c : Call) (i : nat) :
  phase c = Page i ->
  c ∈ calls (final sc) ->
  (dirs_run sc).2 = Ok tt
  /\ first_error (open_steps sc) = None
  /\ 1 <= i <= 14
  /\ c ∈ page_calls sc i.
Proof.
  intros Hph Hc.
  destruct (final_facts sc) as (sd & r & E & Hmk & _ & H).
  rewrite E. cbn [snd].
  destruct r as [[]|e].
  - destruct H as (_ & _ & _ & Hcalls & _).
    rewrite Hcalls in Hc. unfold scrape_calls, calls_before_save in Hc.
    apply elem_of_app in Hc as [Hc | Hc].
    { apply Hmk in Hc as [path ->]. discriminate. }
    destruct (first_error (open_steps sc)) as [e|].
    { apply phase_open in Hc. congruence. }
    rewrite !elem_of_app in Hc. destruct Hc as [[Hc | Hc] | Hc].
    + apply phase_open in Hc. congruence.
    + apply phase_loop in Hc as (j & Hj & Hpj & Hc).
      assert (j = i) as -> by congruence. done.
    + apply phase_save in Hc. congruence.
  - destruct H as (_ & _ & _ & Hcalls & _). rewrite Hcalls in Hc.
    apply Hmk in Hc as [path ->]. discriminate.
Qed.

Lemma seq_split (i : nat) :
  1 <= i <= 14 ->
  seq 1 14 = seq 1 (i - 1) ++ i :: seq (S i) (14 - i).
Proof.
  intros Hi. replace 14 with ((i - 1) + S (14 - i)) at 1 by lia.
  rewrite seq_app. cbn [seq]. by replace (1 + (i - 1)) with i by lia.
Qed.

(** ** Navigation failure *)

Lemma open_fails_at_goto sc (e : Error) :
  goto_outcome sc = Throw e ->
  exists e', first_error (open_steps sc) = Some e'.
Proof.
  intros H. unfold open_steps. cbn [first_error]. rewrite H.
  destruct (launch_outcome sc), (newPage_outcome sc),
    (setViewport_outcome sc), (setRequestInterception_outcome sc); eauto.
Qed.

Lemma open_log_not_processing sc (i : nat) : processing_line i ∉ open_log sc.
Proof.
  unfold open_log, open_steps, processing_line, nl.
  cbn [take first_error].
  destruct (launch_outcome sc), (newPage_outcome sc),
    (setViewport_outcome sc), (setRequestInterception_outcome sc),
    (goto_outcome sc), (itemData_outcome sc);
    cbn [first_error]; intros H;
    repeat (apply elem_of_cons in H as [H|H]; [discriminate H|]);
    by apply elem_of_nil in H.
Qed.

(** C7.  If the navigation fails, the run makes no call of any iteration
    of the page loop and no [writeFileSync], prints no "Processing page"
    line, collects no PageResult, and leaves both output files as they
    were when the script started. *)
Theorem navigation_failure_stops_run sc (e : Error) :
  goto_outcome sc = Throw e ->
  (forall c, c ∈ calls (final sc) ->
             phase c = Directories \/ phase c = Opening)
  /\ (forall i, waitForSelector i ∉ calls (final sc))
  /\ (forall path, writeFileSync path ∉ calls (final sc))
  /\ (forall i, processing_line i ∉ log (final sc))
  /\ results (final sc) = []
  /\ fs (final sc) !! "api_responses.json" = fs0 sc !! "api_responses.json"
  /\ fs (final sc) !! "scrape_results.json" = fs0 sc !! "scrape_results.json".
Proof.
  intros Hgoto.
  destruct (open_fails_at_goto sc e Hgoto) as [e' Hopen].
  destruct (final_facts sc) as (sd & r & E & Hmk & Hfs0 & H).
  assert (Hphase : forall c, c ∈ calls (final sc) ->
                             phase c = Directories \/ phase c = Opening).
  { intros c Hc. destruct r as [[]|e0].
    - destruct H as (_ & _ & _ & Hcalls & _). rewrite Hcalls in Hc.
      unfold scrape_calls in Hc. rewrite Hopen in Hc.
      apply elem_of_app in Hc as [Hc | Hc].
      + apply Hmk in Hc as [path ->]. by left.
      + right. by eapply phase_open.
    - destruct H as (_ & _ & _ & Hcalls & _). rewrite Hcalls in Hc.
      apply Hmk in Hc as [path ->]. by left. }
  split; [done|].
  split; [intros i Hc; by destruct (Hphase _ Hc) |].
  split; [intros path Hc; by destruct (Hphase _ Hc) |].
  destruct r as [[]|e0].
  - destruct H as (_ & Hfs & Hres & _ & _ & Hlog & _).
    unfold scrape_fs, scrape_results, scrape_log, scrape_error in *.
    rewrite Hopen in *. rewrite app_nil_r in Hlog.
    conjuncts.
    + intros i. rewrite Hlog, elem_of_app, list_elem_of_singleton.
      intros [Hin | Heq]; [by eapply open_log_not_processing | discriminate].
    + done.
    + by rewrite Hfs, Hfs0.
    + by rewrite Hfs, Hfs0.
  - destruct H as (_ & Hfs & Hres & _ & _ & Hlog & _). conjuncts.
    + intros i. rewrite Hlog, list_elem_of_singleton. discriminate.
    + done.
    + by rewrite Hfs, Hfs0.
    + by rewrite Hfs, Hfs0.
Qed.

(** The run [Examples.goto_times_out]. *)
Lemma navigation_failure_stops_run_witness :
  goto_outcome Examples.goto_times_out
  = Throw (mkError "Navigation timeout of 60000 ms exceeded")
  /\ results (final Examples.goto_times_out) = []
  /\ fs (final Examples.goto_times_out) !! "scrape_results.json" = None.
Proof.
  split; [reflexivity|].
  destruct (navigation_failure_stops_run Examples.goto_times_out _ eq_refl)
    as (_ & _ & _ & _ & Hres & _ & Hfile).
  split; [exact Hres | exact Hfile].
Defined.

(** ** Closing the browser *)

Lemma close_call_made sc :
  close ∈ calls_made (save_steps sc)
  <-> write_outcome sc "api_responses.json" = Ok tt
      /\ write_outcome sc "scrape_results.json" = Ok tt.
Proof.
  unfold save_steps. cbn [calls_made].
  destruct (write_outcome sc "api_responses.json") as [[]|e1],
    (write_outcome sc "scrape_results.json") as [[]|e2],
    (close_outcome sc) as [[]|e3];
    (split;
     [ intros H;
       repeat (apply elem_of_cons in H as [H|H]; [discriminate H || done|]);
       by apply elem_of_nil in H
     | intros [H1 H2]; try discriminate; set_solver ]).
Qed.

Lemma save_completes sc :
  first_error (save_steps sc) = None
  <-> close ∈ calls_made (save_steps sc) /\ close_outcome sc = Ok tt.
Proof.
  rewrite close_call_made. unfold save_steps. cbn [first_error].
  destruct (write_outcome sc "api_responses.json") as [[]|e1],
    (write_outcome sc "scrape_results.json") as [[]|e2],
    (close_outcome sc) as [[]|e3];
    split; try done; intros [[? ?] ?]; done.
Qed.

Lemma save_call_in_run sc (c : Call) :
  phase c = Saving ->
  c ∈ calls (final sc)
  <-> (dirs_run sc).2 = Ok tt
      /\ first_error (open_steps sc) = None
      /\ c ∈ calls_made (save_steps sc).
Proof.
  intros Hph.
  destruct (final_facts sc) as (sd & r & E & Hmk & _ & H).
  rewrite E. cbn [snd]. destruct r as [[]|e].
  - destruct H as (_ & _ & _ & Hcalls & _). rewrite Hcalls.
    unfold scrape_calls, calls_before_save.
    destruct (first_error (open_steps sc)) as [e|].
    + split; [| by intros (_ & ? & _)].
      intros [Hc|Hc]%elem_of_app.
      * apply Hmk in Hc as [? ->]. discriminate.
      * apply phase_open in Hc. congruence.
    + rewrite !elem_of_app. split; [| intros (_ & _ & ?); auto].
      intros [Hc | [[Hc | Hc] | Hc]].
      * apply Hmk in Hc as [? ->]. discriminate.
      * apply phase_open in Hc. congruence.
      * apply phase_loop in Hc as (i & _ & Hc & _). congruence.
      * done.
  - destruct H as (_ & _ & _ & Hcalls & _). rewrite Hcalls.
    split; [| by intros (? & _)].
    intros Hc. apply Hmk in Hc as [? ->]. discriminate.
Qed.

Lemma close_call_in_run sc :
  close ∈ calls (final sc)
  <-> (dirs_run sc).2 = Ok tt
      /\ first_error (open_steps sc) = None
      /\ close ∈ calls_made (save_steps sc).
Proof. by apply save_call_in_run. Qed.

(** C3, as the code has it.  [browser.close()] is called exactly on the
    runs in which the directory checks, launch, page set-up, navigation,
    the first [page.evaluate] and both file writes succeed; the outcomes
    of the page loop play no part.  The session is closed exactly when
    that call is made and succeeds.  When the browser was launched and a
    later step outside the page loop fails, the session is left running. *)
Theorem browser_closed_only_at_end sc :
  (close ∈ calls (final sc)
   <-> (dirs_run sc).2 = Ok tt
       /\ first_error (open_steps sc) = None
       /\ write_outcome sc "api_responses.json" = Ok tt
       /\ write_outcome sc "scrape_results.json" = Ok tt)
  /\ (browser (final sc) = Closed
      <-> close ∈ calls (final sc) /\ close_outcome sc = Ok tt)
  /\ ((dirs_run sc).2 = Ok tt -> launch_outcome sc = Ok tt ->
      scrape_error sc <> None -> browser (final sc) = Running).
Proof.
  split; [| split].
  - rewrite close_call_in_run, close_call_made. tauto.
  - rewrite close_call_in_run.
    destruct (final_facts sc) as (sd & r & E & _ & _ & H).
    rewrite E. cbn [snd]. destruct r as [[]|e].
    + destruct H as (_ & _ & _ & _ & Hb & _). rewrite Hb.
      unfold scrape_browser, scrape_error.
      destruct (first_error (open_steps sc)) as [e|] eqn:Hopen.
      * destruct (launch_outcome sc); split; try done;
          by intros ((_ & ? & _) & _).
      * rewrite (open_ok_launch_ok sc Hopen).
        pose proof (save_completes sc) as Hsave.
        destruct (first_error (save_steps sc)).
        -- split; [done|]. intros ((_ & _ & ?) & ?).
           assert (Some e = None) by tauto. done.
        -- split; [intros _ | done]. tauto.
    + destruct H as (_ & _ & _ & _ & Hb & _). rewrite Hb.
      split; [done | by intros ((? & _) & _)].
  - destruct (final_facts sc) as (sd & r & E & _ & _ & H).
    rewrite E. cbn [snd]. intros -> Hlaunch Herr.
    destruct H as (_ & _ & _ & _ & Hb & _). rewrite Hb.
    unfold scrape_browser. rewrite Hlaunch.
    by destruct (scrape_error sc).
Qed.

(** C3, as stated, fails on [Examples.goto_times_out]: the browser was
    launched, the navigation failed, and the process ends with the session
    running and without ever calling [browser.close()]. *)
Lemma browser_left_running_after_timeout :
  calls (final Examples.goto_times_out)
  = [mkdirSync "./images"; mkdirSync "./transcriptions";
     launch; newPage; setViewport; setRequestInterception; goto]
  /\ browser (final Examples.goto_times_out) = Running
  /\ browser (final Examples.goto_times_out) <> Closed.
Proof. by vm_compute. Qed.

(** The run [Examples.calm] ends with the browser closed. *)
Lemma browser_closed_only_at_end_witness :
  browser (final Examples.calm) = Closed.
Proof.
  apply (proj1 (proj2 (browser_closed_only_at_end Examples.calm))).
  split; [| reflexivity].
  apply (proj1 (browser_closed_only_at_end Examples.calm)).
  by vm_compute.
Defined.

(** ** Exit status *)

(** C4, as the code has it.  An exception of [scrapeNARA] (a failed
    launch, a navigation timeout, a failed write, ...) reaches
    [.catch(console.error)]: it is printed on the error stream and the
    exit status is 0, the same as when the end of the script is reached.
    The status is 1 only when one of the two module-level [mkdirSync]
    calls throws, which happens before [scrapeNARA] is called; the runtime
    then reports the exception. *)
Theorem exit_status_of_run sc :
  (exit_status sc = 1 <-> exists e, (dirs_run sc).2 = Throw e)
  /\ ((dirs_run sc).2 = Ok tt -> exit_status sc = 0)
  /\ (forall e, (dirs_run sc).2 = Ok tt -> scrape_error sc = Some e ->
                Stderr [Err e] ∈ log (final sc) /\ exit_status sc = 0)
  /\ (forall e, (dirs_run sc).2 = Throw e -> Uncaught e ∈ log (final sc)).
Proof.
  destruct (final_facts sc) as (sd & r & E & _ & _ & H).
  rewrite E. cbn [snd]. destruct r as [[]|e].
  - destruct H as (Hexit & _ & _ & _ & _ & Hlog & _). rewrite Hexit, Hlog.
    conjuncts; try done.
    + split; [done | by intros [? ?]].
    + intros e _ ->. split; [|done].
      rewrite elem_of_app, list_elem_of_singleton. auto.
  - destruct H as (Hexit & _ & _ & _ & _ & Hlog & _). rewrite Hexit, Hlog.
    conjuncts; try done.
    + split; [by eexists | done].
    + intros e' [= ->]. by apply list_elem_of_singleton.
Qed.

(** C4, as stated, fails on [Examples.launch_fails]: the launch throws,
    the error is printed, and the exit status is 0. *)
Lemma launch_failure_exits_zero :
  launch_outcome Examples.launch_fails
  = Throw (mkError "Failed to launch the browser process")
  /\ log (final Examples.launch_fails)
     = [Stdout [Str "Launching browser..."];
        Stderr [Err (mkError "Failed to launch the browser process")]]
  /\ exit_status Examples.launch_fails = 0.
Proof. by vm_compute. Qed.

(** On [Examples.goto_times_out] the timeout is printed and the status
    is 0. *)
Lemma exit_status_of_run_witness :
  Stderr [Err (mkError "Navigation timeout of 60000 ms exceeded")]
    ∈ log (final Examples.goto_times_out)
  /\ exit_status Examples.goto_times_out = 0.
Proof.
  apply (proj1 (proj2 (proj2 (exit_status_of_run Examples.goto_times_out)))).
  - by vm_compute.
  - by vm_compute.
Defined.

(** ** The PageResult sequence *)

Lemma page_entry_page sc (j : nat) (r : PageResult) :
  r ∈ page_entry sc j -> page r = j.
Proof.
  unfold page_entry.
  destruct (waitForSelector_outcome sc j), (click_outcome sc j),
    (imageUrl_outcome sc j); intros H;
    try (by apply elem_of_nil in H).
  by apply list_elem_of_singleton in H as ->.
Qed.

Lemma pages_pushed sc (l : list nat) :
  map page (flat_map (page_entry sc) l) = List.filter (reaches_push sc) l.
Proof.
  induction l as [|j l IH]; [done|].
  cbn [flat_map List.filter]. rewrite map_app, IH.
  unfold page_entry, reaches_push.
  by destruct (waitForSelector_outcome sc j), (click_outcome sc j),
    (imageUrl_outcome sc j).
Qed.

Lemma filter_all_true {A} (f : A -> bool) (l : list A) :
  (forall x, x ∈ l -> f x = true) -> List.filter f l = l.
Proof.
  induction l as [|x l IH]; intros H; [done|]. cbn [List.filter].
  rewrite (H x) by apply list_elem_of_here.
  rewrite IH; [done|]. intros y Hy. apply H. by apply list_elem_of_further.
Qed.

Lemma failed_write_other sc (p path : string) (content : Content)
    (files : gmap string FsEntry) :
  path <> p -> failed_write sc p content files !! path = files !! path.
Proof.
  intros Hne. unfold failed_write.
  destruct (written_before_failure sc p); [|done].
  by rewrite lookup_insert_ne.
Qed.

Lemma saved_fs_lookup sc (f f' : gmap string FsEntry) api res (path : string) :
  f !! path = f' !! path ->
  saved_fs sc f api res !! path = saved_fs sc f' api res !! path.
Proof.
  intros H. unfold saved_fs, failed_write.
  destruct (write_outcome sc "api_responses.json");
    [destruct (write_outcome sc "scrape_results.json")|];
    repeat match goal with
           | |- context [written_before_failure sc ?p] =>
               destruct (written_before_failure sc p)
           end;
    rewrite ?lookup_insert; repeat case_decide; done.
Qed.

(** The state of a run that got past lines 32-87. *)
Lemma loop_reached sc :
  (dirs_run sc).2 = Ok tt ->
  first_error (open_steps sc) = None ->
  results (final sc) = flat_map (page_entry sc) (seq 1 14)
  /\ (exists before after,
        log (final sc) = before ++ flat_map (page_log sc) (seq 1 14) ++ after)
  /\ (exists before after,
        calls (final sc) = before ++ loop_calls sc ++ after)
  /\ fs (final sc) !! "scrape_results.json"
     = saved_fs sc (fs0 sc) (captured_at_save sc)
                (flat_map (page_entry sc) (seq 1 14))
         !! "scrape_results.json".
Proof.
  intros Hdirs Hopen.
  destruct (final_facts sc) as (sd & r & E & _ & Hfs0 & H).
  rewrite E in Hdirs. cbn [snd] in Hdirs. subst r.
  destruct H as (_ & Hfs & Hres & Hcalls & _ & Hlog & _).
  unfold scrape_fs in Hfs. unfold scrape_results in Hres, Hfs.
  unfold scrape_calls, calls_before_save in Hcalls.
  unfold scrape_log in Hlog.
  rewrite Hopen in Hfs, Hres, Hcalls, Hlog.
  conjuncts.
  - done.
  - rewrite Hlog, <- !app_assoc. do 2 eexists. reflexivity.
  - rewrite Hcalls, <- !app_assoc.
    exists (calls sd ++ calls_made (open_steps sc)), (calls_made (save_steps sc)).
    by rewrite <- !app_assoc.
  - rewrite Hfs. apply saved_fs_lookup. by apply Hfs0.
Qed.

(** C1, as the code has it.  In a run that writes [scrape_results.json],
    the sequence written holds, in page order, one entry for every page
    whose selector wait, thumbnail click and image-URL read did not throw,
    and none for the other pages: at most 14 entries; exactly the pages
    1..14 in order when none of these three steps throws on any page.  The
    transcription step plays no part in which pages are present. *)
Theorem results_file_lists_pushed_pages sc :
  writeFileSync "scrape_results.json" ∈ calls (final sc) ->
  write_outcome sc "scrape_results.json" = Ok tt ->
  exists rs,
    fs (final sc) !! "scrape_results.json" = Some (File (ResultsJson rs))
    /\ rs = results (final sc)
    /\ rs = flat_map (page_entry sc) (seq 1 14)
    /\ map page rs = List.filter (reaches_push sc) (seq 1 14)
    /\ length rs <= 14
    /\ ((forall i, 1 <= i <= 14 -> reaches_push sc i = true) ->
        map page rs = seq 1 14).
Proof.
  intros Hcall Hwrite.
  apply save_call_in_run in Hcall as (Hdirs & Hopen & Hcall); [|done].
  destruct (loop_reached sc Hdirs Hopen) as (Hres & _ & _ & Hfs).
  assert (Hapi : write_outcome sc "api_responses.json" = Ok tt).
  { unfold save_steps in Hcall. cbn [calls_made] in Hcall.
    destruct (write_outcome sc "api_responses.json") as [[]|e]; [done|].
    by apply list_elem_of_singleton in Hcall. }
  exists (flat_map (page_entry sc) (seq 1 14)).
  rewrite Hfs. unfold saved_fs. rewrite Hapi, Hwrite, lookup_insert_eq.
  conjuncts; try done.
  - apply pages_pushed.
  - rewrite <- (length_map page), pages_pushed.
    etransitivity; [apply filter_length_le|]. by rewrite length_seq.
  - intros Hall. rewrite pages_pushed. apply filter_all_true.
    intros i Hi%elem_of_seq. apply Hall. lia.
Qed.

(** C1, as stated, fails on [Examples.click7_throws]: the loop completes,
    the file is written, and it holds 13 entries, none for page 7. *)
Lemma results_file_skips_failed_page :
  writeFileSync "scrape_results.json" ∈ calls (final Examples.click7_throws)
  /\ exists rs,
       fs (final Examples.click7_throws) !! "scrape_results.json"
       = Some (File (ResultsJson rs))
       /\ map page rs = [1; 2; 3; 4; 5; 6; 8; 9; 10; 11; 12; 13; 14]
       /\ length rs <> 14.
Proof.
  split.
  - apply (bool_decide_unpack _). by vm_compute.
  - eexists. split; [by vm_compute|]. split; [by vm_compute | by vm_compute].
Qed.

(** On [Examples.calm] the file lists the fourteen pages. *)
Lemma results_file_lists_pushed_pages_witness :
  exists rs,
    fs (final Examples.calm) !! "scrape_results.json"
    = Some (File (ResultsJson rs))
    /\ map page rs = seq 1 14.
Proof.
  destruct (results_file_lists_pushed_pages Examples.calm)
    as (rs & Hfile & _ & _ & _ & _ & Hall).
  - apply (bool_decide_unpack _). by vm_compute.
  - reflexivity.
  - exists rs. split; [exact Hfile|]. apply Hall. intros i _. reflexivity.
Defined.

(** ** Failures inside an iteration *)

(** The lines of iteration [i] sit together in the log, and the next
    iteration starts right after them. *)
Lemma page_lines_in_log sc (i : nat) :
  (dirs_run sc).2 = Ok tt ->
  first_error (open_steps sc) = None ->
  1 <= i <= 14 ->
  exists before after,
    log (final sc) = before ++ page_log sc i ++ after
    /\ (i < 14 -> exists rest, after = processing_line (S i) :: rest).
Proof.
  intros Hdirs Hopen Hi.
  destruct (loop_reached sc Hdirs Hopen) as (_ & (b & a & Hlog) & _).
  rewrite (seq_split i Hi), flat_map_app in Hlog. cbn [flat_map] in Hlog.
  exists (b ++ flat_map (page_log sc) (seq 1 (i - 1))),
         (flat_map (page_log sc) (seq (S i) (14 - i)) ++ a).
  split; [by rewrite Hlog, <- !app_assoc|].
  intros Hlt. destruct (14 - i) as [|k] eqn:Hk; [lia|].
  cbn [seq flat_map]. unfold page_log at 1. cbn [app]. by eexists.
Qed.

Lemma next_page_started sc (i : nat) :
  (dirs_run sc).2 = Ok tt ->
  first_error (open_steps sc) = None ->
  1 <= i < 14 ->
  waitForSelector (S i) ∈ calls (final sc).
Proof.
  intros Hdirs Hopen Hi.
  destruct (loop_reached sc Hdirs Hopen) as (_ & _ & (b & a & Hcalls) & _).
  rewrite Hcalls, !elem_of_app. right. left.
  unfold loop_calls. apply elem_of_flat_map. exists (S i). split.
  - apply elem_of_seq. lia.
  - unfold page_calls. apply list_elem_of_here.
Qed.

(** C2, as the code has it.  When the thumbnail click of page [i] is made
    and throws, the outer [catch] takes over: page [i] gets no entry at
    all, the entries of the other pages are what their own steps produce,
    in page order, the line "Error processing page i: <message>" follows
    the line that opened the iteration, and the loop goes on with page
    [i + 1]. *)
Theorem click_failure_skips_page sc (i : nat) (e : Error) :
  evaluate_click i ∈ calls (final sc) ->
  click_outcome sc i = Throw e ->
  1 <= i <= 14
  /\ results (final sc)
     = flat_map (page_entry sc) (seq 1 (i - 1) ++ seq (S i) (14 - i))
  /\ (forall r, r ∈ results (final sc) -> page r <> i)
  /\ (exists before after,
        log (final sc)
        = before ++ [processing_line i; error_line i e] ++ after
        /\ (i < 14 -> exists rest, after = processing_line (S i) :: rest))
  /\ (i < 14 -> waitForSelector (S i) ∈ calls (final sc)).
Proof.
  intros Hcall Hclick.
  apply page_call_made with (i := i) in Hcall
    as (Hdirs & Hopen & Hi & Hcall); [|done].
  assert (Hwait : waitForSelector_outcome sc i = Ok tt).
  { unfold page_calls in Hcall.
    destruct (waitForSelector_outcome sc i) as [[]|e']; [done|].
    apply elem_of_cons in Hcall as [Hcall|Hcall]; [discriminate|].
    by apply elem_of_nil in Hcall. }
  assert (Hentry : page_entry sc i = []).
  { unfold page_entry. by rewrite Hwait, Hclick. }
  assert (Hlines : page_log sc i = [processing_line i; error_line i e]).
  { unfold page_log, page_error. by rewrite Hwait, Hclick. }
  destruct (loop_reached sc Hdirs Hopen) as (Hres & _).
  assert (Hres' : results (final sc)
                  = flat_map (page_entry sc)
                             (seq 1 (i - 1) ++ seq (S i) (14 - i))).
  { rewrite Hres, (seq_split i Hi), !flat_map_app. cbn [flat_map].
    by rewrite Hentry. }
  conjuncts.
  - lia.
  - lia.
  - done.
  - intros r. rewrite Hres', elem_of_flat_map. intros (j & Hj & Hr).
    apply page_entry_page in Hr as ->.
    apply elem_of_app in Hj as [Hj|Hj]; apply elem_of_seq in Hj; lia.
  - destruct (page_lines_in_log sc i Hdirs Hopen Hi)
      as (before & after & Hlog & Hnext).
    exists before, after. by rewrite <- Hlines.
  - intros Hlt. apply next_page_started; [done | done | lia].
Qed.

(** C2, as stated, fails on [Examples.click7_throws]: the click of page 7
    is made and throws, and the results hold no entry for page 7, neither
    with a null image URL nor otherwise. *)
Lemma failed_click_leaves_no_entry :
  evaluate_click 7 ∈ calls (final Examples.click7_throws)
  /\ click_outcome Examples.click7_throws 7
     = Throw (mkError "Execution context was destroyed")
  /\ map page (results (final Examples.click7_throws))
     = [1; 2; 3; 4; 5; 6; 8; 9; 10; 11; 12; 13; 14]
  /\ mkPageResult 7 None "" ∉ results (final Examples.click7_throws).
Proof.
  conjuncts.
  - apply (bool_decide_unpack _). by vm_compute.
  - reflexivity.
  - by vm_compute.
  - intros H. apply (list_elem_of_fmap_2 page) in H.
    change (7 ∈ map page (results (final Examples.click7_throws))) in H.
    revert H. apply (bool_decide_unpack _). by vm_compute.
Qed.

(** On [Examples.click7_throws], page 7 and the step to page 8. *)
Lemma click_failure_skips_page_witness :
  (forall r, r ∈ results (final Examples.click7_throws) -> page r <> 7)
  /\ waitForSelector 8 ∈ calls (final Examples.click7_throws).
Proof.
  destruct (click_failure_skips_page Examples.click7_throws 7
              (mkError "Execution context was destroyed"))
    as (_ & _ & Hnone & _ & Hnext).
  - apply (bool_decide_unpack _). by vm_compute.
  - reflexivity.
  - split; [exact Hnone | apply Hnext; lia].
Defined.

(** C9.  When the inner [try] of page [i] is entered (the image URL was
    read) and one of its two awaits throws, the inner [catch] prints
    "Could not get transcription for page i" and the iteration goes on as
    usual: the entry of page [i] is pushed with the image URL that was
    read and the empty transcription, it is the only entry of that page,
    and the two "Page i: ..." lines follow. *)
Theorem transcription_failure_keeps_image sc (i : nat) (e : Error) :
  evaluate_hasTranscriptionTab i ∈ calls (final sc) ->
  hasTranscriptionTab_outcome sc i = Throw e
  \/ (hasTranscriptionTab_outcome sc i = Ok true
      /\ transcription_outcome sc i = Throw e) ->
  exists u,
    imageUrl_outcome sc i = Ok u
    /\ mkPageResult i u "" ∈ results (final sc)
    /\ (forall r, r ∈ results (final sc) -> page r = i ->
                  r = mkPageResult i u "")
    /\ exists before after,
         log (final sc)
         = before
           ++ [processing_line i; no_transcription_line i]
           ++ found_lines i (mkPageResult i u "")
           ++ after.
Proof.
  intros Hcall Hfail.
  apply page_call_made with (i := i) in Hcall
    as (Hdirs & Hopen & Hi & Hcall); [|done].
  assert (Hpre : exists u, waitForSelector_outcome sc i = Ok tt
                           /\ (exists b, click_outcome sc i = Ok b)
                           /\ imageUrl_outcome sc i = Ok u).
  { unfold page_calls in Hcall.
    destruct (waitForSelector_outcome sc i) as [[]|e1];
      [destruct (click_outcome sc i) as [b|e2];
       [destruct (imageUrl_outcome sc i) as [u|e3]; [by eauto|] |] |];
      repeat (apply elem_of_cons in Hcall as [Hcall|Hcall]; [discriminate|]);
      by apply elem_of_nil in Hcall. }
  destruct Hpre as (u & Hwait & [b Hclick] & Himage).
  assert (Hread : transcription_read sc i = ""
                  /\ exists e', transcription_error sc i = Some e').
  { unfold transcription_read, transcription_error.
    destruct Hfail as [-> | [-> ->]]; eauto. }
  destruct Hread as [Hread [e' Herr]].
  assert (Hentry : page_entry sc i = [mkPageResult i u ""]).
  { unfold page_entry. by rewrite Hwait, Hclick, Himage, Hread. }
  assert (Hlines : page_log sc i
                   = [processing_line i; no_transcription_line i]
                     ++ found_lines i (mkPageResult i u "")).
  { unfold page_log, page_error.
    rewrite Hwait, Hclick, Himage, Herr, Hentry. cbn [flat_map app].
    by rewrite app_nil_r. }
  destruct (loop_reached sc Hdirs Hopen) as (Hres & _).
  exists u. conjuncts.
  - done.
  - rewrite Hres. apply elem_of_flat_map. exists i. split.
    + apply elem_of_seq. lia.
    + rewrite Hentry. apply list_elem_of_here.
  - intros r. rewrite Hres, elem_of_flat_map.
    intros (j & _ & Hr) Hp.
    pose proof (page_entry_page sc j r Hr) as Hj.
    assert (j = i) as -> by congruence. rewrite Hentry in Hr.
    by apply list_elem_of_singleton in Hr.
  - destruct (page_lines_in_log sc i Hdirs Hopen Hi)
      as (before & after & Hlog & _).
    exists before, after. by rewrite Hlog, Hlines, <- !app_assoc.
Qed.

(** On [Examples.tab3_throws], page 3 keeps its image URL. *)
Lemma transcription_failure_keeps_image_witness :
  exists u,
    imageUrl_outcome Examples.tab3_throws 3 = Ok u
    /\ mkPageResult 3 u "" ∈ results (final Examples.tab3_throws).
Proof.
  destruct (transcription_failure_keeps_image Examples.tab3_throws 3
              (mkError "Execution context was destroyed"))
    as (u & Himage & Hin & _).
  - apply (bool_decide_unpack _). by vm_compute.
  - left. reflexivity.
  - exists u. split; [exact Himage | exact Hin].
Defined.

(** ** The capture sequence *)

Lemma of_interest_spec (u : string) :
  of_interest u = true
  <-> exists needle pre post,
        needle ∈ ["/records/"; "/transcription"; "/contributions"]
        /\ u = pre +:+ needle +:+ post.
Proof.
  unfold of_interest. rewrite !orb_true_iff, !includes_spec. split.
  - intros [[(pre & post & H) | (pre & post & H)] | (pre & post & H)];
      eexists _, pre, post; (split; [|exact H]); set_solver.
  - intros (needle & pre & post & Hin & H).
    repeat (apply elem_of_cons in Hin as [->|Hin]; [by eauto 6|]).
    by apply elem_of_nil in Hin.
Qed.

Lemma delivered_mkdirs sc (cs : list Call) :
  (forall c, c ∈ cs -> exists path, c = mkdirSync path) ->
  delivered sc cs = [].
Proof.
  unfold delivered. induction cs as [|c cs IH]; intros H; [done|].
  destruct (H c) as [path ->]; [apply list_elem_of_here|].
  cbn [List.filter observed]. apply IH.
  intros c' Hc'. apply H. by apply list_elem_of_further.
Qed.

(** What the observer has collected at the end of a run, and what line
    177 wrote if it ran. *)
Lemma capture_of_run sc :
  apiResponses (final sc) = (capture (seen sc)).1
  /\ (writeFileSync "api_responses.json" ∈ calls (final sc) ->
      write_outcome sc "api_responses.json" = Ok tt ->
      exists evs later,
        seen sc = evs ++ later
        /\ fs (final sc) !! "api_responses.json"
           = Some (File (ApiResponsesJson (capture evs).1))).
Proof.
  unfold seen.
  destruct (final_facts sc) as (sd & r & E & Hmk & _ & H).
  split.
  - destruct r as [[]|e].
    + destruct H as (_ & _ & _ & Hcalls & _ & _ & Hcap).
      rewrite Hcalls, delivered_app, (delivered_mkdirs sc _ Hmk).
      cbn [app]. by rewrite <- Hcap.
    + destruct H as (_ & _ & _ & Hcalls & _ & _ & Hapi).
      by rewrite Hcalls, (delivered_mkdirs sc _ Hmk), Hapi.
  - intros Hcall Hwrite.
    apply save_call_in_run in Hcall as (Hdirs & Hopen & _); [|done].
    rewrite E in Hdirs. cbn [snd] in Hdirs. subst r.
    destruct H as (_ & Hfs & _ & Hcalls & _).
    unfold scrape_fs in Hfs. unfold scrape_calls in Hcalls.
    rewrite Hopen in Hfs, Hcalls.
    exists (delivered sc (calls_before_save sc)),
           (delivered sc (calls_made (save_steps sc))).
    split.
    + by rewrite Hcalls, !delivered_app, (delivered_mkdirs sc _ Hmk).
    + rewrite Hfs. unfold saved_fs, captured_at_save. rewrite Hwrite.
      destruct (write_outcome sc "scrape_results.json").
      * rewrite lookup_insert_ne by done. apply lookup_insert_eq.
      * rewrite failed_write_other by done. apply lookup_insert_eq.
Qed.

(** C5.  A response with a URL of interest suspends its handler at
    [await response.json()].  When that promise rejects, the handler ends
    without an exception and the only thing that changes is that it is no
    longer suspended: [apiResponses], the log and everything else stay as
    they are. *)
Theorem unparsable_body_is_skipped (s : State) (id : nat) (u : string) :
  of_interest u = true ->
  on_net_event (ResponseEvent id u) s
  = (with_awaiting (<[id := u]> (awaiting s)) s, Ok tt)
  /\ forall s' : State,
       awaiting s' !! id = Some u ->
       on_net_event (JsonSettled id None) s'
       = (with_awaiting (delete id (awaiting s')) s', Ok tt)
       /\ apiResponses (on_net_event (JsonSettled id None) s').1
          = apiResponses s'
       /\ log (on_net_event (JsonSettled id None) s').1 = log s'.
Proof.
  intros Hu. split.
  - cbn [on_net_event]. unfold on_response. by rewrite Hu.
  - intros s' Hs'.
    assert (E : on_net_event (JsonSettled id None) s'
                = (with_awaiting (delete id (awaiting s')) s', Ok tt)).
    { cbn [on_net_event]. unfold on_json_settled. by rewrite Hs'. }
    by rewrite E.
Qed.

(** Response 4 of [Examples.crossing], a thumbnail under /records/ whose
    body is not JSON: its handler is suspended in [Examples.thumb_pending]
    and ends there without a trace. *)
Lemma unparsable_body_is_skipped_witness :
  awaiting Examples.thumb_pending !! 4 = Some Examples.thumb_url
  /\ on_net_event (JsonSettled 4 None) Examples.thumb_pending
     = (with_awaiting (delete 4 (awaiting Examples.thumb_pending))
                      Examples.thumb_pending, Ok tt)
  /\ apiResponses (on_net_event (JsonSettled 4 None) Examples.thumb_pending).1
     = apiResponses Examples.thumb_pending
  /\ log (on_net_event (JsonSettled 4 None) Examples.thumb_pending).1
     = log Examples.thumb_pending.
Proof.
  assert (H : awaiting Examples.thumb_pending !! 4 = Some Examples.thumb_url)
    by (by vm_compute).
  split; [exact H|].
  exact (proj2 (unparsable_body_is_skipped (initial Examples.calm) 4
                  Examples.thumb_url eq_refl)
               Examples.thumb_pending H).
Defined.

(** Each entry the observer collects has a URL containing one of the three
    substrings and carries the parsed body of a response announced with
    that URL. *)
Lemma capture_entries (evs : list NetEvent) (e : CapturedResponse) :
  e ∈ (capture evs).1 ->
  of_interest (url e) = true
  /\ (exists needle pre post,
        needle ∈ ["/records/"; "/transcription"; "/contributions"]
        /\ url e = pre +:+ needle +:+ post)
  /\ exists id, ResponseEvent id (url e) ∈ evs
               /\ JsonSettled id (Some (data e)) ∈ evs.
Proof.
  intros He. destruct (proj1 (capture_sound evs) e He) as [Hu Hid].
  conjuncts; [done | by apply of_interest_spec | done].
Qed.

(** C6, as the code has it.  At the end of every run each entry of the
    capture sequence has a URL containing one of the three substrings and
    carries the parsed body of a response that arrived with that URL, so a
    response with another URL never appears.  When the events are such as
    the network layer can produce, the entries are the successful
    settlements of [response.json()] for responses of interest, in the
    order of the settlements.  The file written by line 177 holds the
    sequence as it was then, the capture of an initial part of the events,
    with the same two properties. *)
Theorem capture_sequence_of_run sc :
  (forall e, e ∈ apiResponses (final sc) ->
     of_interest (url e) = true
     /\ (exists needle pre post,
           needle ∈ ["/records/"; "/transcription"; "/contributions"]
           /\ url e = pre +:+ needle +:+ post)
     /\ exists id, ResponseEvent id (url e) ∈ seen sc
                  /\ JsonSettled id (Some (data e)) ∈ seen sc)
  /\ (well_formed (seen sc) = true ->
      apiResponses (final sc) = omap (settled_entry (seen sc)) (seen sc))
  /\ (writeFileSync "api_responses.json" ∈ calls (final sc) ->
      write_outcome sc "api_responses.json" = Ok tt ->
      exists evs later l,
        seen sc = evs ++ later
        /\ fs (final sc) !! "api_responses.json"
           = Some (File (ApiResponsesJson l))
        /\ l = (capture evs).1
        /\ (forall e, e ∈ l ->
              of_interest (url e) = true
              /\ (exists needle pre post,
                    needle ∈ ["/records/"; "/transcription"; "/contributions"]
                    /\ url e = pre +:+ needle +:+ post)
              /\ exists id, ResponseEvent id (url e) ∈ evs
                           /\ JsonSettled id (Some (data e)) ∈ evs)
        /\ (well_formed evs = true -> l = omap (settled_entry evs) evs)).
Proof.
  destruct (capture_of_run sc) as [Hmem Hfile].
  conjuncts.
  - intros e. rewrite Hmem. apply capture_entries.
  - rewrite Hmem. apply capture_in_settlement_order.
  - intros Hcall Hwrite.
    destruct (Hfile Hcall Hwrite) as (evs & later & Hseen & Hfs).
    exists evs, later, (capture evs).1. conjuncts; try done.
    + intros e. apply capture_entries.
    + apply capture_in_settlement_order.
Qed.

(** C6, as stated, fails on [Examples.bodies_cross]: the record search
    arrives before the contributions, the body of the contributions is
    parsed first, and the sequence, in memory and in the file, has the
    contributions first. *)
Lemma capture_order_is_not_arrival_order :
  seen Examples.bodies_cross = Examples.crossing
  /\ well_formed Examples.crossing = true
  /\ omap (arrival_entry Examples.crossing) Examples.crossing
     = [mkCaptured Examples.records_url (JObject []);
        mkCaptured Examples.contributions_url (JArray [])]
  /\ apiResponses (final Examples.bodies_cross)
     = [mkCaptured Examples.contributions_url (JArray []);
        mkCaptured Examples.records_url (JObject [])]
  /\ fs (final Examples.bodies_cross) !! "api_responses.json"
     = Some (File (ApiResponsesJson
                     [mkCaptured Examples.contributions_url (JArray []);
                      mkCaptured Examples.records_url (JObject [])]))
  /\ apiResponses (final Examples.bodies_cross)
     <> omap (arrival_entry Examples.crossing) Examples.crossing.
Proof.
  conjuncts; by vm_compute.
Qed.

(** On [Examples.bodies_cross] the sequence is the settlements in order. *)
Lemma capture_sequence_of_run_witness :
  well_formed (seen Examples.bodies_cross) = true
  /\ apiResponses (final Examples.bodies_cross)
     = omap (settled_entry (seen Examples.bodies_cross))
            (seen Examples.bodies_cross).
Proof.
  assert (H : well_formed (seen Examples.bodies_cross) = true)
    by (by vm_compute).
  split; [exact H|].
  exact (proj1 (proj2 (capture_sequence_of_run Examples.bodies_cross)) H).
Defined.

End ScrapeFacts.

(** * More about [downloadFile] *)

Module DownloadMore.
Import Download DownloadFacts.

(** No event touches a path other than [filepath]. *)
Lemma on_event_other (filepath path : string) (s : State) (ev : HttpEvent) :
  path <> filepath ->
  files (on_event filepath s ev) !! path = files s !! path.
Proof.
  intros Hne. unfold on_event. destruct (uncaught s); [done|].
  destruct ev; cbn [handle]; try done.
  - cbn. by rewrite lookup_delete_ne.
  - destruct (piped s); cbn [files]; [|done]. unfold write.
    destruct (files s !! filepath); [|done]. by rewrite lookup_insert_ne.
  - by destruct (piped s).
Qed.

Lemma request_other (result : GetResult) (filepath path : string)
    (file : State) :
  path <> filepath ->
  files (request (on_event filepath) result file) !! path
  = files file !! path.
Proof.
  intros Hne. destruct result as [err|events]; cbn [request files]; [done|].
  revert file. induction events as [|ev events IH]; intros file;
    cbn [foldl]; [done|].
  by rewrite IH, on_event_other.
Qed.

(** X1.  Whatever happens to the stream and to the request,
    [downloadFile] leaves every path other than [filepath] as it found
    it. *)
Theorem downloadFile_touches_one_path
    (createWriteStream : string -> StreamOpen)
    (get : Protocol -> string -> GetResult)
    (fs : gmap string bytes) (url filepath path : string) :
  path <> filepath ->
  files (downloadFile createWriteStream get fs url filepath) !! path
  = fs !! path.
Proof.
  intros Hne. unfold downloadFile.
  destruct (createWriteStream filepath) as [|e|e handled]; [| done |].
  - rewrite request_other by done. cbn [files]. by rewrite lookup_insert_ne.
  - rewrite (proj1 (die_state _ _)). unfold request, first_events.
    destruct (get (protocol_of url) url) as [e'|events]; [done|].
    by rewrite (proj2 (proj2 (proj2 (proj2 (unopened_run _ _ _))))).
Qed.

(** A page saved earlier survives the interrupted download of another. *)
Lemma downloadFile_touches_one_path_witness :
  files (downloadFile Examples.opens Examples.get_cut_off
           {[ "./images/b.jpg" := [xff; xd8; xff; xd9] ]}
           "https://s3.amazonaws.com/a.jpg" "./images/a.jpg")
    !! "./images/b.jpg"
  = ({[ "./images/b.jpg" := [xff; xd8; xff; xd9] ]} : gmap string bytes)
      !! "./images/b.jpg".
Proof.
  apply downloadFile_touches_one_path. discriminate.
Defined.

(** What a resolved promise and a closed stream say about the events. *)
Lemma resolved_by_end (filepath : string) (evs : list HttpEvent) (s : State) :
  promise (foldl (on_event filepath) s evs) = Resolved ->
  promise s = Resolved
  \/ (End ∈ evs /\ (piped s = true \/ exists statusCode, Response statusCode ∈ evs)).
Proof.
  revert s. induction evs as [|ev evs IH]; intros s H; cbn [foldl] in H.
  { by left. }
  destruct (IH _ H) as [Hs | [Hend Hp]].
  - unfold on_event in Hs. destruct (uncaught s); [by left|].
    destruct ev; cbn [handle] in Hs.
    + destruct (promise s) eqn:Hps; cbn in Hs; try discriminate. by left.
    + by left.
    + left. by destruct (piped s).
    + destruct (piped s) eqn:Hpiped; cbn [promise] in Hs; [|by left].
      destruct (promise s) eqn:Hps; cbn [settle] in Hs;
        [| by left | discriminate].
      right. split; [apply list_elem_of_here | by left].
    + by left.
    + by left.
  - right. split; [by apply list_elem_of_further|].
    destruct Hp as [Hp | [st Hst]].
    + unfold on_event in Hp. destruct (uncaught s); [by left|].
      destruct ev; cbn [handle piped] in Hp.
      * by left.
      * right. eexists. apply list_elem_of_here.
      * left. destruct (piped s) eqn:E; cbn in Hp; congruence.
      * left. destruct (piped s) eqn:E; cbn in Hp; congruence.
      * by left.
      * by left.
    + right. exists st. by apply list_elem_of_further.
Qed.

Lemma closed_with_resolution (filepath : string) (evs : list HttpEvent) (s : State) :
  (promise s = Resolved -> closed s = true) ->
  promise (foldl (on_event filepath) s evs) = Resolved ->
  closed (foldl (on_event filepath) s evs) = true.
Proof.
  revert s. induction evs as [|ev evs IH]; intros s Hs; cbn [foldl]; [done|].
  apply IH. unfold on_event. destruct (uncaught s); [done|].
  destruct ev; cbn [handle]; try done.
  - cbn. destruct (promise s); cbn; try done.
  - by destruct (piped s).
  - by destruct (piped s).
Qed.

(** X2.  The promise is resolved only when the stream opened, the request
    was issued, a response arrived and its body ran to the end, and by
    then [file.close()] has been called. *)
Theorem downloadFile_resolves_on_end_only
    (createWriteStream : string -> StreamOpen)
    (get : Protocol -> string -> GetResult)
    (fs : gmap string bytes) (url filepath : string) :
  promise (downloadFile createWriteStream get fs url filepath) = Resolved ->
  createWriteStream filepath = Opens
  /\ (exists events,
        get (protocol_of url) url = Requested events
        /\ End ∈ events
        /\ exists statusCode, Response statusCode ∈ events)
  /\ closed (downloadFile createWriteStream get fs url filepath) = true.
Proof.
  unfold downloadFile, request, first_events.
  destruct (createWriteStream filepath) as [|e|e handled]; [| done |].
  - destruct (get (protocol_of url) url) as [e|events]; [done|].
    intros H. split; [done|]. split.
    + exists events. split; [done|].
      apply resolved_by_end in H as [H | [Hend [Hp | Hresp]]];
        try discriminate.
      by split.
    + by apply closed_with_resolution.
  - rewrite (proj1 (proj2 (die_state _ _))).
    destruct (get (protocol_of url) url) as [e'|events]; [done|].
    intros H. by apply unopened_run in H.
Qed.

(** A 404 page that arrived completely: the promise is resolved, and the
    events show the response and its end. *)
Lemma downloadFile_resolves_on_end_only_witness :
  (exists events,
     Examples.get_404 (protocol_of "http://host/a.jpg") "http://host/a.jpg"
     = Requested events
     /\ End ∈ events
     /\ exists statusCode, Response statusCode ∈ events)
  /\ closed (downloadFile Examples.opens Examples.get_404 ∅
               "http://host/a.jpg" "./images/a.jpg")
     = true.
Proof.
  destruct (downloadFile_resolves_on_end_only Examples.opens Examples.get_404
              ∅ "http://host/a.jpg" "./images/a.jpg") as (_ & H1 & H2).
  - reflexivity.
  - split; [exact H1 | exact H2].
Defined.

Lemma closed_by_end (filepath : string) (evs : list HttpEvent) (s : State) :
  closed (foldl (on_event filepath) s evs) = true ->
  closed s = true \/ End ∈ evs.
Proof.
  revert s. induction evs as [|ev evs IH]; intros s H; cbn [foldl] in H.
  { by left. }
  destruct (IH _ H) as [Hs | Hend]; [| right; by apply list_elem_of_further].
  unfold on_event in Hs. destruct (uncaught s); [by left|].
  destruct ev; cbn [handle closed] in Hs; try (by left).
  - left. destruct (piped s) eqn:E; cbn in Hs; congruence.
  - right. apply list_elem_of_here.
Qed.

(** X3.  The function sets no timeout: once the stream is open and the
    request issued, as long as Node reports neither an ['error'] of the
    request nor the end of the body, the promise stays pending, the stream
    stays open and the file stays on disk. *)
Theorem downloadFile_pending_without_end
    (createWriteStream : string -> StreamOpen)
    (get : Protocol -> string -> GetResult)
    (fs : gmap string bytes) (url filepath : string)
    (events : list HttpEvent) :
  createWriteStream filepath = Opens ->
  get (protocol_of url) url = Requested events ->
  (forall err, ReqError err ∉ events) ->
  End ∉ events ->
  promise (downloadFile createWriteStream get fs url filepath) = Pending
  /\ closed (downloadFile createWriteStream get fs url filepath) = false
  /\ is_Some (files (downloadFile createWriteStream get fs url filepath)
                !! filepath).
Proof.
  intros Hopen Hget Herr Hend. unfold downloadFile, request.
  rewrite Hopen, Hget. split; [| split].
  - destruct (promise (foldl _ _ _)) as [| |err] eqn:H;
      [done | exfalso | exfalso].
    + apply resolved_by_end in H as [H | [H _]]; [discriminate | done].
    + apply rejected_by_request_error in H as [H | H]; [discriminate|].
      by apply (Herr err).
  - destruct (closed (foldl _ _ _)) eqn:H; [|done].
    apply closed_by_end in H as [H | H]; [discriminate | done].
  - destruct (files (foldl _ _ _) !! filepath) eqn:H; [by eexists|].
    apply unlinked_by_request_error in H as [H | [err H]].
    + cbn in H. by rewrite lookup_insert_eq in H.
    + by apply Herr in H.
Qed.

(** The body of [Examples.get_cut_off] never ends. *)
Lemma downloadFile_pending_without_end_witness :
  promise (downloadFile Examples.opens Examples.get_cut_off ∅
             "https://s3.amazonaws.com/a.jpg" "./images/a.jpg") = Pending
  /\ closed (downloadFile Examples.opens Examples.get_cut_off ∅
               "https://s3.amazonaws.com/a.jpg" "./images/a.jpg") = false
  /\ is_Some (files (downloadFile Examples.opens Examples.get_cut_off ∅
                       "https://s3.amazonaws.com/a.jpg" "./images/a.jpg")
               !! "./images/a.jpg").
Proof.
  apply (downloadFile_pending_without_end Examples.opens Examples.get_cut_off
           ∅ "https://s3.amazonaws.com/a.jpg" "./images/a.jpg"
           (interrupted_response 200 [[xff; xd8]; [xff; xe0; x00]])).
  - reflexivity.
  - reflexivity.
  - intros err H.
    repeat (apply elem_of_cons in H as [H|H]; [discriminate H|]).
    by apply elem_of_nil in H.
  - intros H.
    repeat (apply elem_of_cons in H as [H|H]; [discriminate H|]).
    by apply elem_of_nil in H.
Defined.

Lemma unlinked_on_error (filepath : string) (evs : list HttpEvent)
    (s : State) (err : Error) :
  ReqError err ∈ evs ->
  uncaught (foldl (on_event filepath) s evs) = None ->
  files (foldl (on_event filepath) s evs) !! filepath = None.
Proof.
  revert s. induction evs as [|ev evs IH]; intros s Hin Halive.
  { by apply elem_of_nil in Hin. }
  cbn [foldl] in *. apply elem_of_cons in Hin as [<- | Hin]; [|by apply IH].
  apply unlinked_stays.
  pose proof (alive_before _ _ _ Halive) as Hstep.
  unfold on_event in *.
  destruct (uncaught s) eqn:E; [cbn in Hstep; congruence|].
  cbn [handle files]. apply lookup_delete_eq.
Qed.

(** X4.  The write stream truncates: what stood at [filepath] before the
    call plays no part in the outcome.  So a download that fails with a
    request error does not fall back on an earlier copy of the file: when
    the stream had opened and the process has lived to handle the error,
    nothing is left at [filepath]. *)
Theorem downloadFile_error_removes_earlier_copy
    (createWriteStream : string -> StreamOpen)
    (get : Protocol -> string -> GetResult)
    (fs : gmap string bytes) (url filepath : string)
    (events : list HttpEvent) (err : Error) :
  createWriteStream filepath = Opens ->
  get (protocol_of url) url = Requested events ->
  ReqError err ∈ events ->
  uncaught (downloadFile createWriteStream get fs url filepath) = None ->
  files (downloadFile createWriteStream get fs url filepath) !! filepath
  = None
  /\ downloadFile createWriteStream get fs url filepath
     = downloadFile createWriteStream get (delete filepath fs) url filepath.
Proof.
  intros Hopen Hget Herr. unfold downloadFile, request.
  rewrite Hopen, Hget. intros Halive. split.
  - by eapply unlinked_on_error.
  - by rewrite insert_delete_eq.
Qed.

(** The copy of an earlier run is gone after a refused connection. *)
Lemma downloadFile_error_removes_earlier_copy_witness :
  files (downloadFile Examples.opens Examples.get_refused
           {[ "./images/a.jpg" := [xff; xd8; xff; xd9] ]}
           "http://host/a.jpg" "./images/a.jpg")
    !! "./images/a.jpg" = None.
Proof.
  destruct (downloadFile_error_removes_earlier_copy
              Examples.opens Examples.get_refused
              {[ "./images/a.jpg" := [xff; xd8; xff; xd9] ]}
              "http://host/a.jpg" "./images/a.jpg"
              [ReqError (mkError "connect ECONNREFUSED")]
              (mkError "connect ECONNREFUSED")) as [H _].
  - reflexivity.
  - reflexivity.
  - apply list_elem_of_here.
  - reflexivity.
  - exact H.
Defined.

End DownloadMore.

(** * More about the capture script *)

Module ScrapeMore.
Import Scrape Trace ScrapeFacts.

(** ** The directory checks *)

Ltac differ :=
  first [ congruence
        | unfold imagesDir, transcriptionsDir in *; first [congruence | done] ].

Ltac look :=
  repeat first [ rewrite lookup_insert_eq
               | rewrite lookup_insert_ne by differ ];
  first [ done | by eexists ].

Ltac listed H :=
  repeat (apply elem_of_cons in H as [H|H]; [try discriminate H|]);
  try (by apply elem_of_nil in H).

Ltac distinct :=
  repeat (apply NoDup_cons; split;
          [ let H := fresh in intros H; listed H |]);
  apply NoDup_nil_2.

Ltac dirs_leaf :=
  cbn;
  split; [ let H := fresh in intros H; try discriminate H; split; look |];
  split; [ let H := fresh in
           intros path H; listed H; injection H as ->; auto |];
  split; [ intros path entry ?; look | distinct ].

(** What lines 11-12 do to the file system, in every case. *)
Lemma dirs_run_fs sc :
  ((dirs_run sc).2 = Ok tt ->
   is_Some (fs (dirs_run sc).1 !! imagesDir)
   /\ is_Some (fs (dirs_run sc).1 !! transcriptionsDir))
  /\ (forall path, mkdirSync path ∈ calls (dirs_run sc).1 ->
                  fs0 sc !! path = None
                  /\ (path = imagesDir \/ path = transcriptionsDir))
  /\ (forall path entry, fs0 sc !! path = Some entry ->
                        fs (dirs_run sc).1 !! path = Some entry)
  /\ NoDup (calls (dirs_run sc).1).
Proof.
  unfold dirs_run, ensure_dir, fs_existsSync, fs_mkdirSync, sync, bind, modify,
    ret, initial.
  cbn [fs].
  destruct (decide (is_Some (fs0 sc !! imagesDir))) as [Hi | Hi].
  - rewrite (bool_decide_eq_true_2 _ Hi).
    cbn [negb fs record_call with_fs with_calls calls app].
    destruct (decide (is_Some (fs0 sc !! transcriptionsDir))) as [Ht | Ht].
    + rewrite (bool_decide_eq_true_2 _ Ht). cbn [negb]. dirs_leaf.
    + rewrite (bool_decide_eq_false_2 _ Ht). cbn [negb].
      apply eq_None_not_Some in Ht.
      destruct (mkdir_outcome sc transcriptionsDir) as [[]|e]; dirs_leaf.
  - rewrite (bool_decide_eq_false_2 _ Hi).
    cbn [negb fs record_call with_fs with_calls calls app].
    apply eq_None_not_Some in Hi.
    destruct (mkdir_outcome sc imagesDir) as [[]|e];
      cbn [negb fs record_call with_fs with_calls calls app]; [| dirs_leaf].
    assert (Hsame : <[imagesDir:=Directory]> (fs0 sc) !! transcriptionsDir
                    = fs0 sc !! transcriptionsDir)
      by (by rewrite lookup_insert_ne).
    destruct (decide (is_Some (fs0 sc !! transcriptionsDir))) as [Ht | Ht].
    + rewrite bool_decide_eq_true_2 by (by rewrite Hsame). cbn [negb].
      dirs_leaf.
    + rewrite bool_decide_eq_false_2 by (by rewrite Hsame). cbn [negb].
      apply eq_None_not_Some in Ht.
      destruct (mkdir_outcome sc transcriptionsDir) as [[]|e]; dirs_leaf.
Qed.

Lemma dirs_ok_exit sc : exit_status sc = 0 <-> (dirs_run sc).2 = Ok tt.
Proof.
  destruct (final_facts sc) as (sd & r & E & _ & _ & H). rewrite E. cbn [snd].
  destruct r as [[]|e]; destruct H as [-> _]; split; done.
Qed.

(** A [mkdirSync] in the trace of a run is one of the directory checks. *)
Lemma dir_call_in_run sc (c : Call) :
  phase c = Directories ->
  c ∈ calls (final sc) -> c ∈ calls (dirs_run sc).1.
Proof.
  intros Hph Hc.
  destruct (final_facts sc) as (sd & r & E & _ & _ & H). rewrite E. cbn [fst].
  destruct r as [[]|e].
  - destruct H as (_ & _ & _ & Hcalls & _). rewrite Hcalls in Hc.
    apply elem_of_app in Hc as [Hc|Hc]; [done|]. exfalso.
    unfold scrape_calls, calls_before_save in Hc.
    destruct (first_error (open_steps sc)).
    + apply phase_open in Hc. congruence.
    + rewrite !elem_of_app in Hc. destruct Hc as [[Hc|Hc]|Hc].
      * apply phase_open in Hc. congruence.
      * apply phase_loop in Hc as (i & _ & Hc & _). congruence.
      * apply phase_save in Hc. congruence.
  - destruct H as (_ & _ & _ & Hcalls & _). by rewrite Hcalls in Hc.
Qed.

Lemma scrape_fs_other sc (files : gmap string FsEntry) (path : string) :
  path <> "api_responses.json" -> path <> "scrape_results.json" ->
  scrape_fs sc files !! path = files !! path.
Proof.
  intros H1 H2. unfold scrape_fs, saved_fs.
  destruct (first_error (open_steps sc)); [done|].
  destruct (write_outcome sc "api_responses.json");
    [|by rewrite failed_write_other].
  destruct (write_outcome sc "scrape_results.json");
    rewrite ?failed_write_other by done; by rewrite ?lookup_insert_ne.
Qed.

(** X5.  When the directory checks go through, both output directories
    exist at the end of the run; [mkdirSync] is called only for a path that
    did not exist, and whatever stood at a path other than the two output
    files when the script started is still there. *)
Theorem output_directories_exist sc :
  exit_status sc = 0 ->
  is_Some (fs (final sc) !! imagesDir)
  /\ is_Some (fs (final sc) !! transcriptionsDir)
  /\ (forall path, mkdirSync path ∈ calls (final sc) ->
                  fs0 sc !! path = None
                  /\ (path = imagesDir \/ path = transcriptionsDir))
  /\ (forall path entry,
        path <> "api_responses.json" -> path <> "scrape_results.json" ->
        fs0 sc !! path = Some entry -> fs (final sc) !! path = Some entry).
Proof.
  intros Hexit%dirs_ok_exit.
  destruct (dirs_run_fs sc) as (Hdirs & Hmk & Hkeep & _).
  destruct (Hdirs Hexit) as [Hi Ht].
  destruct (final_facts sc) as (sd & r & E & _ & _ & H).
  rewrite E in *. cbn [fst snd] in *. subst r.
  destruct H as (_ & Hfs & _).
  conjuncts.
  - by rewrite Hfs, scrape_fs_other.
  - by rewrite Hfs, scrape_fs_other.
  - intros path Hc. apply Hmk.
    apply dir_call_in_run in Hc; [|done]. by rewrite E in Hc.
  - intros path entry H1 H2 H0. rewrite Hfs, scrape_fs_other by done.
    by apply Hkeep.
Qed.

(** On [Examples.calm], which starts in an empty directory. *)
Lemma output_directories_exist_witness :
  is_Some (fs (final Examples.calm) !! imagesDir)
  /\ is_Some (fs (final Examples.calm) !! transcriptionsDir).
Proof.
  destruct (output_directories_exist Examples.calm) as (Hi & Ht & _).
  - by vm_compute.
  - split; [exact Hi | exact Ht].
Defined.

(** X6.  A run changes nothing outside four paths: the two directories
    and the two output files. *)
Theorem run_touches_four_paths sc (path : string) :
  path ∉ [imagesDir; transcriptionsDir;
          "api_responses.json"; "scrape_results.json"] ->
  fs (final sc) !! path = fs0 sc !! path.
Proof.
  intros Hpath.
  assert (path <> imagesDir /\ path <> transcriptionsDir
          /\ path <> "api_responses.json" /\ path <> "scrape_results.json")
    as (H1 & H2 & H3 & H4).
  { conjuncts; intros ->; apply Hpath; set_solver. }
  destruct (final_facts sc) as (sd & r & E & _ & Hfs0 & H).
  destruct r as [[]|e]; destruct H as (_ & Hfs & _); rewrite Hfs.
  - rewrite scrape_fs_other by done. by apply Hfs0.
  - by apply Hfs0.
Qed.

(** The notes of [MoreExamples.disk_full] are as they were. *)
Lemma run_touches_four_paths_witness :
  fs (final MoreExamples.disk_full) !! "notes.txt"
  = MoreExamples.earlier_files !! "notes.txt".
Proof.
  apply (run_touches_four_paths MoreExamples.disk_full "notes.txt").
  intros H. listed H.
Defined.

(** X7.  When a directory check throws, the script ends there: the exit
    status is 1, the runtime's report is the only output, the browser is
    never launched and nothing but [mkdirSync] is called. *)
Theorem directory_failure_stops_script sc :
  exit_status sc = 1 ->
  browser (final sc) = NotLaunched
  /\ (forall c, c ∈ calls (final sc) -> exists path, c = mkdirSync path)
  /\ results (final sc) = []
  /\ (exists e, (dirs_run sc).2 = Throw e /\ log (final sc) = [Uncaught e])
  /\ fs (final sc) !! "api_responses.json" = fs0 sc !! "api_responses.json"
  /\ fs (final sc) !! "scrape_results.json" = fs0 sc !! "scrape_results.json".
Proof.
  intros Hexit.
  destruct (final_facts sc) as (sd & r & E & Hmk & Hfs0 & H).
  rewrite E. cbn [snd].
  destruct r as [[]|e].
  { destruct H as [H _]. congruence. }
  destruct H as (_ & Hfs & Hres & Hcalls & Hb & Hlog & _).
  rewrite Hfs, Hcalls. conjuncts; try done.
  - by eexists.
  - by apply Hfs0.
  - by apply Hfs0.
Qed.

Lemma directory_failure_stops_script_witness :
  browser (final MoreExamples.mkdir_denied) = NotLaunched
  /\ results (final MoreExamples.mkdir_denied) = [].
Proof.
  destruct (directory_failure_stops_script MoreExamples.mkdir_denied)
    as (Hb & _ & Hres & _).
  - by vm_compute.
  - split; [exact Hb | exact Hres].
Defined.


(** ** The page loop and the writes *)

(** X8.  Once the loop is entered it is never left early: whatever throws
    inside an iteration, every page from 1 to 14 is started, and after the
    loop the script goes on to write the first file. *)
Theorem loop_runs_all_pages sc (i : nat) :
  waitForSelector 1 ∈ calls (final sc) ->
  1 <= i <= 14 ->
  waitForSelector i ∈ calls (final sc)
  /\ processing_line i ∈ log (final sc)
  /\ writeFileSync "api_responses.json" ∈ calls (final sc).
Proof.
  intros Hin Hi.
  apply page_call_made with (i := 1) in Hin as (Hdirs & Hopen & _); [|done].
  destruct (loop_reached sc Hdirs Hopen)
    as (_ & (lb & la & Hlog) & (cb & ca & Hcalls) & _).
  assert (Hseq : i ∈ seq 1 14) by (apply elem_of_seq; lia).
  conjuncts.
  - rewrite Hcalls, !elem_of_app. right. left.
    unfold loop_calls. apply elem_of_flat_map. exists i. split; [done|].
    apply list_elem_of_here.
  - rewrite Hlog, !elem_of_app. right. left.
    apply elem_of_flat_map. exists i. split; [done|].
    apply list_elem_of_here.
  - apply save_call_in_run; [done|]. conjuncts; try done.
    unfold save_steps. cbn [calls_made].
    destruct (write_outcome sc "api_responses.json"); apply list_elem_of_here.
Qed.

(** On [Examples.click7_throws] the last page is still processed. *)
Lemma loop_runs_all_pages_witness :
  waitForSelector 14 ∈ calls (final Examples.click7_throws)
  /\ processing_line 14 ∈ log (final Examples.click7_throws)
  /\ writeFileSync "api_responses.json" ∈ calls (final Examples.click7_throws).
Proof.
  apply loop_runs_all_pages.
  - apply (bool_decide_unpack _). by vm_compute.
  - lia.
Defined.

(** X9.  The two files are written one after the other with nothing kept
    in between: when the write of [api_responses.json] throws, the write of
    [scrape_results.json] is never attempted and that path is as it was
    when the script started; [api_responses.json] is as it was if the file
    could not be opened, and otherwise holds only what was written before
    the error; [browser.close()] is not called, and the error ends up on
    the error stream with exit status 0. *)
Theorem failed_first_write_loses_results sc (e : Error) :
  writeFileSync "api_responses.json" ∈ calls (final sc) ->
  write_outcome sc "api_responses.json" = Throw e ->
  (writeFileSync "scrape_results.json" ∉ calls (final sc))
  /\ (close ∉ calls (final sc))
  /\ (exists captured,
        fs (final sc) !! "api_responses.json"
        = match written_before_failure sc "api_responses.json" with
          | Some n => Some (File (Partial n (ApiResponsesJson captured)))
          | None => fs0 sc !! "api_responses.json"
          end)
  /\ fs (final sc) !! "scrape_results.json" = fs0 sc !! "scrape_results.json"
  /\ Stderr [Err e] ∈ log (final sc)
  /\ browser (final sc) = Running
  /\ exit_status sc = 0.
Proof.
  intros Hcall Hwrite.
  apply save_call_in_run in Hcall as (Hdirs & Hopen & _); [|done].
  assert (Hsave : calls_made (save_steps sc)
                  = [writeFileSync "api_responses.json"]).
  { unfold save_steps. cbn [calls_made]. by rewrite Hwrite. }
  assert (Herr : scrape_error sc = Some e).
  { unfold scrape_error, save_steps. rewrite Hopen. cbn [first_error].
    by rewrite Hwrite. }
  destruct (final_facts sc) as (sd & r & E & _ & Hfs0 & H).
  rewrite E in Hdirs. cbn [snd] in Hdirs. subst r.
  destruct H as (Hexit & Hfs & _ & _ & Hb & Hlog & _).
  conjuncts.
  - intros Hc. apply save_call_in_run in Hc as (_ & _ & Hc); [|done].
    rewrite Hsave in Hc. by apply list_elem_of_singleton in Hc.
  - intros Hc. apply save_call_in_run in Hc as (_ & _ & Hc); [|done].
    rewrite Hsave in Hc. by apply list_elem_of_singleton in Hc.
  - exists (captured_at_save sc).
    rewrite Hfs. unfold scrape_fs, saved_fs, failed_write.
    rewrite Hopen, Hwrite.
    destruct (written_before_failure sc "api_responses.json").
    + apply lookup_insert_eq.
    + by apply Hfs0.
  - rewrite Hfs. unfold scrape_fs, saved_fs. rewrite Hopen, Hwrite.
    rewrite failed_write_other by done. by apply Hfs0.
  - rewrite Hlog, Herr, elem_of_app, list_elem_of_singleton. auto.
  - rewrite Hb. unfold scrape_browser.
    by rewrite (open_ok_launch_ok sc Hopen), Herr.
  - done.
Qed.

(** On [MoreExamples.disk_full] the results file of the earlier run stays,
    and [api_responses.json] is left created and empty. *)
Lemma failed_first_write_loses_results_witness :
  (exists captured,
     fs (final MoreExamples.disk_full) !! "api_responses.json"
     = Some (File (Partial 0 (ApiResponsesJson captured))))
  /\ fs (final MoreExamples.disk_full) !! "scrape_results.json"
     = MoreExamples.earlier_files !! "scrape_results.json"
  /\ browser (final MoreExamples.disk_full) = Running.
Proof.
  destruct (failed_first_write_loses_results MoreExamples.disk_full
              (mkError "ENOSPC: no space left on device, write"))
    as (_ & _ & Hapi & Hfile & _ & Hb & _).
  - apply (bool_decide_unpack _). by vm_compute.
  - reflexivity.
  - split; [exact Hapi | split; [exact Hfile | exact Hb]].
Defined.

(** X10.  The number printed in "Captured n API responses" is the number
    of entries that line 177 then writes to [api_responses.json]. *)
Theorem captured_count_matches_file sc :
  writeFileSync "api_responses.json" ∈ calls (final sc) ->
  write_outcome sc "api_responses.json" = Ok tt ->
  exists l,
    fs (final sc) !! "api_responses.json" = Some (File (ApiResponsesJson l))
    /\ Stdout [Str ("Captured " +:+ String_of_nat (length l) +:+ " API responses")]
       ∈ log (final sc).
Proof.
  intros Hcall Hwrite.
  apply save_call_in_run in Hcall as (Hdirs & Hopen & _); [|done].
  destruct (final_facts sc) as (sd & r & E & _ & Hfs0 & H).
  rewrite E in Hdirs. cbn [snd] in Hdirs. subst r.
  destruct H as (_ & Hfs & _ & _ & _ & Hlog & _).
  exists (captured_at_save sc). split.
  - rewrite Hfs. unfold scrape_fs, saved_fs. rewrite Hopen, Hwrite.
    destruct (write_outcome sc "scrape_results.json").
    + rewrite lookup_insert_ne by done. apply lookup_insert_eq.
    + rewrite failed_write_other by done. apply lookup_insert_eq.
  - rewrite Hlog. unfold scrape_log, save_log. rewrite Hopen.
    rewrite !elem_of_app. left. right. right. left.
    apply list_elem_of_further, list_elem_of_here.
Qed.

(** On [Examples.bodies_cross] two responses are captured and counted. *)
Lemma captured_count_matches_file_witness :
  exists l,
    fs (final Examples.bodies_cross) !! "api_responses.json"
    = Some (File (ApiResponsesJson l))
    /\ Stdout [Str ("Captured " +:+ String_of_nat (length l) +:+ " API responses")]
       ∈ log (final Examples.bodies_cross).
Proof.
  apply captured_count_matches_file.
  - apply (bool_decide_unpack _). by vm_compute.
  - reflexivity.
Defined.


(** ** What the results depend on *)

Lemma saved_results_file sc (files : gmap string FsEntry) api res :
  saved_fs sc files api res !! "scrape_results.json"
  = match write_outcome sc "api_responses.json" with
    | Throw _ => files !! "scrape_results.json"
    | Ok _ =>
        match write_outcome sc "scrape_results.json" with
        | Ok _ => Some (File (ResultsJson res))
        | Throw _ =>
            match written_before_failure sc "scrape_results.json" with
            | Some n => Some (File (Partial n (ResultsJson res)))
            | None => files !! "scrape_results.json"
            end
        end
    end.
Proof.
  unfold saved_fs, failed_write.
  destruct (write_outcome sc "api_responses.json").
  - destruct (write_outcome sc "scrape_results.json").
    + apply lookup_insert_eq.
    + destruct (written_before_failure sc "scrape_results.json").
      * apply lookup_insert_eq.
      * by rewrite lookup_insert_ne.
  - destruct (written_before_failure sc "api_responses.json"); [|done].
    by rewrite lookup_insert_ne.
Qed.

(** X11.  The value the click step returns ([clicked]: whether a control
    for the page was found) is never used: two runs that differ only in
    these values collect the same results and leave the same
    [scrape_results.json]. *)
Theorem click_result_ignored sc (f g : nat -> Outcome bool) :
  (forall i, void (f i) = void (g i)) ->
  results (final (Examples.with_click f sc))
  = results (final (Examples.with_click g sc))
  /\ fs (final (Examples.with_click f sc)) !! "scrape_results.json"
     = fs (final (Examples.with_click g sc)) !! "scrape_results.json".
Proof.
  intros Hfg.
  assert (Hentry : forall i, page_entry (Examples.with_click f sc) i
                             = page_entry (Examples.with_click g sc) i).
  { intros i. unfold page_entry, transcription_read.
    cbn [Examples.with_click waitForSelector_outcome click_outcome
         imageUrl_outcome hasTranscriptionTab_outcome transcription_outcome].
    specialize (Hfg i).
    destruct (waitForSelector_outcome sc i); [|done].
    by destruct (f i), (g i). }
  assert (Hres : scrape_results (Examples.with_click f sc)
                 = scrape_results (Examples.with_click g sc)).
  { unfold scrape_results.
    change (first_error (open_steps (Examples.with_click f sc)))
      with (first_error (open_steps sc)).
    change (first_error (open_steps (Examples.with_click g sc)))
      with (first_error (open_steps sc)).
    destruct (first_error (open_steps sc)); [done|].
    by apply flat_map_ext. }
  destruct (final_facts (Examples.with_click f sc))
    as (sd & r & E & _ & Hfs0 & H).
  destruct (final_facts (Examples.with_click g sc))
    as (sd' & r' & E' & _ & Hfs0' & H').
  change (dirs_run (Examples.with_click g sc))
    with (dirs_run (Examples.with_click f sc)) in E'.
  rewrite E in E'. injection E' as <- <-.
  destruct r as [[]|e].
  - destruct H as (_ & Hfs & Hr & _), H' as (_ & Hfs' & Hr' & _).
    split; [congruence|].
    rewrite Hfs, Hfs'. unfold scrape_fs.
    change (first_error (open_steps (Examples.with_click f sc)))
      with (first_error (open_steps sc)).
    change (first_error (open_steps (Examples.with_click g sc)))
      with (first_error (open_steps sc)).
    destruct (first_error (open_steps sc)); [done|].
    rewrite !saved_results_file, Hres. reflexivity.
  - destruct H as (_ & Hfs & Hr & _), H' as (_ & Hfs' & Hr' & _).
    split; congruence.
Qed.

(** Whether the click finds a control on no page or on every page. *)
Lemma click_result_ignored_witness :
  results (final (Examples.with_click (fun _ => Ok false) Examples.calm))
  = results (final (Examples.with_click (fun _ => Ok true) Examples.calm)).
Proof.
  apply (click_result_ignored Examples.calm (fun _ => Ok false)
           (fun _ => Ok true)).
  intros i. reflexivity.
Defined.

(** X12.  On a page without a transcription tab the second wait and the
    text read are skipped: the entry is pushed with the image URL and the
    empty transcription, and the iteration prints its two "Page i" lines
    right after the line that opened it. *)
Theorem no_tab_no_text_read sc (i : nat) :
  evaluate_hasTranscriptionTab i ∈ calls (final sc) ->
  hasTranscriptionTab_outcome sc i = Ok false ->
  (tab_delay i ∉ calls (final sc))
  /\ (evaluate_transcription i ∉ calls (final sc))
  /\ exists u,
       imageUrl_outcome sc i = Ok u
       /\ mkPageResult i u "" ∈ results (final sc)
       /\ exists before after,
            log (final sc)
            = before ++ [processing_line i]
              ++ found_lines i (mkPageResult i u "") ++ after.
Proof.
  intros Hcall Htab.
  apply page_call_made with (i := i) in Hcall
    as (Hdirs & Hopen & Hi & Hcall); [|done].
  assert (Hpre : exists u, waitForSelector_outcome sc i = Ok tt
                           /\ (exists b, click_outcome sc i = Ok b)
                           /\ imageUrl_outcome sc i = Ok u).
  { unfold page_calls in Hcall.
    destruct (waitForSelector_outcome sc i) as [[]|e1];
      [destruct (click_outcome sc i) as [b|e2];
       [destruct (imageUrl_outcome sc i) as [u|e3]; [by eauto|] |] |];
      listed Hcall. }
  destruct Hpre as (u & Hwait & [b Hclick] & Himage).
  assert (Hcalls : page_calls sc i
                   = [waitForSelector i; evaluate_click i; click_delay i;
                      evaluate_imageUrl i; evaluate_hasTranscriptionTab i]).
  { unfold page_calls, transcription_calls.
    by rewrite Hwait, Hclick, Himage, Htab. }
  assert (Hentry : page_entry sc i = [mkPageResult i u ""]).
  { unfold page_entry, transcription_read.
    by rewrite Hwait, Hclick, Himage, Htab. }
  assert (Hlines : page_log sc i
                   = [processing_line i] ++ found_lines i (mkPageResult i u "")).
  { unfold page_log, page_error, transcription_error.
    rewrite Hwait, Hclick, Himage, Htab, Hentry. cbn [flat_map app].
    by rewrite app_nil_r. }
  destruct (loop_reached sc Hdirs Hopen) as (Hres & _).
  conjuncts.
  - intros Hc. apply page_call_made with (i := i) in Hc as (_ & _ & _ & Hc);
      [|done].
    rewrite Hcalls in Hc. listed Hc.
  - intros Hc. apply page_call_made with (i := i) in Hc as (_ & _ & _ & Hc);
      [|done].
    rewrite Hcalls in Hc. listed Hc.
  - exists u. conjuncts; [done | |].
    + rewrite Hres. apply elem_of_flat_map. exists i. split.
      * apply elem_of_seq. lia.
      * rewrite Hentry. apply list_elem_of_here.
    + destruct (page_lines_in_log sc i Hdirs Hopen Hi)
        as (before & after & Hlog & _).
      exists before, after. by rewrite Hlog, Hlines, <- !app_assoc.
Qed.

(** Page 5 of [MoreExamples.no_tabs]. *)
Lemma no_tab_no_text_read_witness :
  (evaluate_transcription 5 ∉ calls (final MoreExamples.no_tabs))
  /\ exists u,
       imageUrl_outcome MoreExamples.no_tabs 5 = Ok u
       /\ mkPageResult 5 u "" ∈ results (final MoreExamples.no_tabs).
Proof.
  destruct (no_tab_no_text_read MoreExamples.no_tabs 5)
    as (_ & Hno & u & Himage & Hin & _).
  - apply (bool_decide_unpack _). by vm_compute.
  - reflexivity.
  - split; [exact Hno|]. exists u. split; [exact Himage | exact Hin].
Defined.


(** ** The trace of calls *)

Lemma calls_made_NoDup (steps : list (Call * Outcome unit)) :
  NoDup (map fst steps) -> NoDup (calls_made steps).
Proof.
  induction steps as [|[c [[]|e]] steps IH]; cbn [calls_made map fst];
    intros H.
  - apply NoDup_nil_2.
  - apply NoDup_cons in H as [Hc H]. apply NoDup_cons. split; [|auto].
    by intros Hin%calls_made_subset.
  - apply NoDup_singleton.
Qed.

Lemma page_calls_NoDup sc (i : nat) : NoDup (page_calls sc i).
Proof.
  unfold page_calls, transcription_calls.
  destruct (waitForSelector_outcome sc i), (click_outcome sc i),
    (imageUrl_outcome sc i), (hasTranscriptionTab_outcome sc i) as [[]|];
    distinct.
Qed.

Lemma loop_calls_NoDup sc (l : list nat) :
  NoDup l -> NoDup (flat_map (page_calls sc) l).
Proof.
  induction l as [|i l IH]; intros H; cbn [flat_map].
  - apply NoDup_nil_2.
  - apply NoDup_cons in H as [Hi H]. apply NoDup_app.
    split; [apply page_calls_NoDup|]. split; [|auto].
    intros c Hc Hc'. apply phase_page in Hc.
    apply elem_of_flat_map in Hc' as (j & Hj & Hc').
    apply phase_page in Hc'. congruence.
Qed.

(** X13.  Nothing is ever retried: no directory is created twice, no
    Puppeteer call of a page is repeated, each file is written at most
    once and the browser is launched and closed at most once. *)
Theorem no_call_repeated sc : NoDup (calls (final sc)).
Proof.
  destruct (dirs_run_fs sc) as (_ & _ & _ & Hnd).
  destruct (final_facts sc) as (sd & r & E & Hmk & _ & H).
  rewrite E in Hnd. cbn [fst] in Hnd.
  assert (Hopen : NoDup (calls_made (open_steps sc))).
  { apply calls_made_NoDup. cbn. distinct. }
  assert (Hsave : NoDup (calls_made (save_steps sc))).
  { apply calls_made_NoDup. cbn. distinct. }
  destruct r as [[]|e]; destruct H as (_ & _ & _ & Hcalls & _);
    rewrite Hcalls; [|done].
  apply NoDup_app. split; [done|]. split.
  { intros c Hc Hc'. destruct (Hmk c Hc) as [path ->].
    unfold scrape_calls, calls_before_save in Hc'.
    destruct (first_error (open_steps sc)).
    - by apply phase_open in Hc'.
    - rewrite !elem_of_app in Hc'. destruct Hc' as [[Hc'|Hc']|Hc'].
      + by apply phase_open in Hc'.
      + by apply phase_loop in Hc' as (i & _ & Hc' & _).
      + by apply phase_save in Hc'. }
  unfold scrape_calls, calls_before_save.
  destruct (first_error (open_steps sc)); [done|].
  apply NoDup_app. split; [|split; [|done]].
  - apply NoDup_app. split; [done|]. split.
    + intros c Hc Hc'. apply phase_open in Hc.
      apply phase_loop in Hc' as (i & _ & Hc' & _). congruence.
    + apply loop_calls_NoDup, NoDup_seq.
  - intros c Hc Hc'. apply phase_save in Hc'.
    apply elem_of_app in Hc as [Hc|Hc].
    + apply phase_open in Hc. congruence.
    + apply phase_loop in Hc as (i & _ & Hc & _). congruence.
Qed.

(** ** What is captured and what is saved *)

Lemma capture_step_grows (c : list CapturedResponse * gmap nat string)
    (ev : NetEvent) :
  c.1 `prefix_of` (capture_step c ev).1.
Proof.
  destruct ev as [id u | id [d|]]; cbn [capture_step].
  - by destruct (of_interest u).
  - destruct (c.2 !! id); cbn [fst]; [by apply prefix_app_r | done].
  - by destruct (c.2 !! id).
Qed.

Lemma capture_grows (evs more : list NetEvent) :
  (capture evs).1 `prefix_of` (capture (evs ++ more)).1.
Proof.
  unfold capture. rewrite foldl_app.
  generalize (foldl capture_step ([], ∅) evs). intros c. revert c.
  induction more as [|ev more IH]; intros c; cbn [foldl]; [done|].
  etrans; [apply capture_step_grows | apply IH].
Qed.

Lemma calls_before_split (c : Call) (l r : list Call) :
  c ∉ l -> Order.calls_before c (l ++ c :: r) = l.
Proof.
  induction l as [|x l IH]; intros Hc; cbn [app Order.calls_before].
  - by rewrite decide_True.
  - rewrite decide_False.
    + f_equal. apply IH. intros H. apply Hc. by apply list_elem_of_further.
    + intros ->. apply Hc. apply list_elem_of_here.
Qed.

(** X14.  [api_responses.json] is the snapshot of [apiResponses] taken at
    line 177: it holds exactly the entries of the responses that settled
    during the calls made before the write.  [apiResponses] itself goes
    on growing: at the end of the run it holds these entries followed by
    those of the responses that settled while [browser.close()] was
    awaited, which are therefore collected and not saved. *)
Theorem saved_capture_is_snapshot sc :
  writeFileSync "api_responses.json" ∈ calls (final sc) ->
  write_outcome sc "api_responses.json" = Ok tt ->
  let before :=
    Order.calls_before (writeFileSync "api_responses.json") (calls (final sc)) in
  fs (final sc) !! "api_responses.json"
  = Some (File (ApiResponsesJson (capture (delivered sc before)).1))
  /\ apiResponses (final sc)
     = (capture (delivered sc before
                 ++ if bool_decide (close ∈ calls (final sc))
                    then net sc close else [])).1
  /\ (capture (delivered sc before)).1 `prefix_of` apiResponses (final sc).
Proof.
  intros Hcall Hwrite before.
  destruct (capture_of_run sc) as [Hfinal _]. unfold seen in Hfinal.
  pose proof (close_call_in_run sc) as Hclose.
  apply save_call_in_run in Hcall as (Hdirs & Hopen & _); [|done].
  destruct (final_facts sc) as (sd & r & E & Hmk & _ & H).
  rewrite E in Hdirs. cbn [snd] in Hdirs. subst r.
  destruct H as (_ & Hfs & _ & Hcalls & _).
  unfold scrape_fs in Hfs. unfold scrape_calls in Hcalls.
  rewrite Hopen in Hfs, Hcalls.
  assert (Hsave : exists rest,
             calls_made (save_steps sc)
             = writeFileSync "api_responses.json" :: rest
             /\ delivered sc rest
                = if bool_decide (close ∈ calls (final sc))
                  then net sc close else []).
  { unfold save_steps in *. cbn [calls_made] in *. rewrite Hwrite in *.
    destruct (write_outcome sc "scrape_results.json") as [[]|e] eqn:Hw2.
    - assert (Hlast : match close_outcome sc with
                      | Ok _ | _ => [close]
                      end = [close]) by (by destruct (close_outcome sc)).
      rewrite Hlast in *.
      exists [writeFileSync "scrape_results.json"; close]. split; [done|].
      rewrite bool_decide_eq_true_2.
      + unfold delivered. cbn. by rewrite app_nil_r.
      + apply Hclose. rewrite E. conjuncts; try done.
        do 2 apply list_elem_of_further. apply list_elem_of_here.
    - exists [writeFileSync "scrape_results.json"]. split; [done|].
      rewrite bool_decide_eq_false_2; [done|].
      intros (_ & _ & Hc)%Hclose.
      repeat (apply elem_of_cons in Hc as [Hc|Hc]; [discriminate Hc|]).
      by apply elem_of_nil in Hc. }
  destruct Hsave as (rest & Hsave & Hrest).
  assert (Hbefore : before = calls sd ++ calls_before_save sc).
  { unfold before. rewrite Hcalls, Hsave, app_assoc.
    apply calls_before_split. intros Hc.
    apply elem_of_app in Hc as [Hc|Hc].
    - by destruct (Hmk _ Hc) as [path Hp].
    - unfold calls_before_save in Hc. apply elem_of_app in Hc as [Hc|Hc].
      + by apply phase_open in Hc.
      + by apply phase_loop in Hc as (i & _ & Hc & _). }
  assert (Hdel : delivered sc before = delivered sc (calls_before_save sc)).
  { by rewrite Hbefore, delivered_app, (delivered_mkdirs sc _ Hmk). }
  assert (Hall : delivered sc (calls (final sc))
                 = delivered sc before
                   ++ if bool_decide (close ∈ calls (final sc))
                      then net sc close else []).
  { rewrite <- Hrest, Hdel, Hcalls, Hsave, !delivered_app,
      (delivered_mkdirs sc _ Hmk).
    done. }
  conjuncts.
  - rewrite Hfs, Hdel. unfold saved_fs, captured_at_save. rewrite Hwrite.
    destruct (write_outcome sc "scrape_results.json").
    + rewrite lookup_insert_ne by done. apply lookup_insert_eq.
    + rewrite failed_write_other by done. apply lookup_insert_eq.
  - by rewrite Hfinal, Hall.
  - rewrite Hfinal, Hall. apply capture_grows.
Qed.

(** On [MoreExamples.late_response] the record search, answered during
    the navigation, is saved; the contributions, answered while
    [browser.close()] is awaited, are collected and not saved. *)
Lemma saved_capture_is_snapshot_witness :
  fs (final MoreExamples.late_response) !! "api_responses.json"
  = Some (File (ApiResponsesJson
                  [mkCaptured Examples.records_url (JObject [])]))
  /\ apiResponses (final MoreExamples.late_response)
     = [mkCaptured Examples.records_url (JObject []);
        mkCaptured Examples.contributions_url (JArray [])].
Proof.
  destruct (saved_capture_is_snapshot MoreExamples.late_response)
    as (Hfile & Hfinal & _).
  - apply (bool_decide_unpack _). by vm_compute.
  - reflexivity.
  - rewrite Hfile, Hfinal. split; by vm_compute.
Defined.


(** ** The run in which nothing throws *)

Lemma dirs_ok sc :
  (forall path, mkdir_outcome sc path = Ok tt) -> (dirs_run sc).2 = Ok tt.
Proof.
  intros Hmk.
  unfold dirs_run, ensure_dir, fs_existsSync, fs_mkdirSync, sync, bind, modify,
    ret, initial.
  cbn [fs]. rewrite !Hmk.
  destruct (bool_decide (is_Some (fs0 sc !! imagesDir)));
    cbn [negb fs record_call with_fs with_calls calls app];
    match goal with
    | |- context [bool_decide ?P] => destruct (bool_decide P)
    end; reflexivity.
Qed.

(** Where a line of the output of a quiet run comes from. *)
Lemma quiet_log sc (l : LogLine) :
  Quiet.no_failure sc ->
  l ∈ log (final sc) ->
  l ∈ open_log sc
  \/ (exists i, l = processing_line i)
  \/ (exists i r, l ∈ found_lines i r)
  \/ l ∈ save_log sc (length (captured_at_save sc)).
Proof.
  intros (Hmk & Hwr & Hl & Hn & Hv & Hr & Hg & [d Hd] & Hpage & Hc) Hin.
  assert (Hopen : first_error (open_steps sc) = None).
  { unfold open_steps. cbn [first_error]. by rewrite Hl, Hn, Hv, Hr, Hg, Hd. }
  assert (Hsave : first_error (save_steps sc) = None).
  { unfold save_steps. cbn [first_error]. by rewrite !Hwr, Hc. }
  destruct (final_facts sc) as (sd & r & E & _ & _ & H).
  pose proof (dirs_ok sc Hmk) as Hdirs. rewrite E in Hdirs. cbn [snd] in Hdirs.
  subst r. destruct H as (_ & _ & _ & _ & _ & Hlog & _).
  unfold scrape_error, scrape_log in Hlog. rewrite Hopen, Hsave in Hlog.
  rewrite Hlog, app_nil_r, !elem_of_app in Hin.
  destruct Hin as [Hin | [Hin | Hin]]; [by left | | by do 3 right].
  apply elem_of_flat_map in Hin as (i & _ & Hin).
  destruct (Hpage i) as (Hw & [b Hb] & [u Hu] & [t Ht] & [x Hx]).
  unfold page_log, page_error, transcription_error, page_entry in Hin.
  rewrite Hw, Hb, Hu, Ht, Hx in Hin.
  apply elem_of_cons in Hin as [-> | Hin]; [right; left; by exists i|].
  right. right. left. exists i, (mkPageResult i u (transcription_read sc i)).
  destruct t; cbn [app flat_map] in Hin; by rewrite app_nil_r in Hin.
Qed.

(** X15.  When nothing throws, the run ends with exit status 0 and the
    browser closed; [results] has one entry for each page from 1 to 14, in
    order, and [scrape_results.json] holds them; [api_responses.json] is
    written; everything printed goes to standard output, and neither
    "Error processing page" nor "Could not get transcription" is among
    it. *)
Theorem quiet_run sc :
  Quiet.no_failure sc ->
  exit_status sc = 0
  /\ browser (final sc) = Closed
  /\ map page (results (final sc)) = seq 1 14
  /\ fs (final sc) !! "scrape_results.json"
     = Some (File (ResultsJson (results (final sc))))
  /\ (exists captured,
        fs (final sc) !! "api_responses.json"
        = Some (File (ApiResponsesJson captured)))
  /\ (forall l, l ∈ log (final sc) -> exists args, l = Stdout args)
  /\ (forall i e, error_line i e ∉ log (final sc))
  /\ (forall i, no_transcription_line i ∉ log (final sc)).
Proof.
  intros Hq.
  assert (Hlines : forall l, l ∈ log (final sc) ->
            l ∈ open_log sc
            \/ (exists i, l = processing_line i)
            \/ (exists i r, l ∈ found_lines i r)
            \/ l ∈ save_log sc (length (captured_at_save sc)))
    by (intros l; by apply quiet_log).
  destruct Hq as (Hmk & Hwr & Hl & Hn & Hv & Hr & Hg & [d Hd] & Hpage & Hc).
  assert (Hopen : first_error (open_steps sc) = None).
  { unfold open_steps. cbn [first_error]. by rewrite Hl, Hn, Hv, Hr, Hg, Hd. }
  assert (Hsave : first_error (save_steps sc) = None).
  { unfold save_steps. cbn [first_error]. by rewrite !Hwr, Hc. }
  assert (Hol : open_log sc
                = [Stdout [Str "Launching browser..."];
                   Stdout [Str "Navigating to National Archives catalog page..."];
                   Stdout [Str "Waiting for content to load..."];
                   Stdout [Str "Item data:";
                           Obj (mkItemData (fst d) 14 (snd d))]]).
  { unfold open_log, open_steps. cbn [take first_error].
    by rewrite Hl, Hn, Hv, Hr, Hg, Hd. }
  destruct (final_facts sc) as (sd & r & E & _ & _ & H).
  pose proof (dirs_ok sc Hmk) as Hdirs. rewrite E in Hdirs. cbn [snd] in Hdirs.
  subst r. destruct H as (Hexit & Hfs & Hres & _ & Hb & _).
  unfold scrape_browser, scrape_error in Hb. rewrite Hl, Hopen, Hsave in Hb.
  unfold scrape_fs, saved_fs in Hfs. rewrite Hopen, !Hwr in Hfs.
  unfold save_log in Hlines. rewrite Hsave, Hol in Hlines.
  conjuncts.
  - done.
  - done.
  - rewrite Hres. unfold scrape_results. rewrite Hopen, pages_pushed.
    apply filter_all_true. intros i _. unfold reaches_push.
    destruct (Hpage i) as (-> & [? ->] & [? ->] & _). done.
  - rewrite Hfs, Hres. apply lookup_insert_eq.
  - eexists. rewrite Hfs, lookup_insert_ne by done. apply lookup_insert_eq.
  - intros l [H | [[i ->] | [(i & r & H) | H]]]%Hlines.
    + listed H; subst l; by eexists.
    + by eexists.
    + unfold found_lines in H. listed H; subst l; by eexists.
    + cbn [app] in H. listed H; subst l; by eexists.
  - intros i e [H | [[j H] | [(j & r & H) | H]]]%Hlines.
    + listed H.
    + discriminate H.
    + unfold found_lines in H. listed H.
    + cbn [app] in H. listed H.
  - intros i [H | [[j H] | [(j & r & H) | H]]]%Hlines.
    + listed H.
    + discriminate H.
    + unfold found_lines in H. listed H.
    + cbn [app] in H. listed H.
Qed.

(** [Examples.calm] is such a run. *)
Lemma quiet_run_witness :
  exit_status Examples.calm = 0
  /\ browser (final Examples.calm) = Closed
  /\ map page (results (final Examples.calm)) = seq 1 14.
Proof.
  destruct (quiet_run Examples.calm) as (Hexit & Hb & Hpages & _).
  - unfold Quiet.no_failure. cbn.
    conjuncts; try reflexivity; try (by eexists).
    intros i. conjuncts; try reflexivity; by eexists.
  - conjuncts; [exact Hexit | exact Hb | exact Hpages].
Defined.

End ScrapeMore.

(** * Properties of the functions evaluated inside the page *)

Module InPageFacts.
Import Scrape Trace ScrapeFacts InPage.

(** ** Searching a list of elements *)

Lemma find_first {A} (f : A -> bool) (l : list A) (b : A) :
  find f l = Some b
  <-> exists before after,
        l = before ++ b :: after
        /\ (forall x, x ∈ before -> f x = false)
        /\ f b = true.
Proof.
  induction l as [|a l IH]; cbn [find].
  - split; [done|]. intros (before & after & H & _). by destruct before.
  - destruct (f a) eqn:Ha.
    + split.
      * intros [= <-]. exists [], l. split; [done|]. split; [|done].
        intros x Hx. by apply elem_of_nil in Hx.
      * intros (before & after & H & Hb & Hfb).
        destruct before as [|x before]; cbn in H; injection H as -> ->;
          [done|].
        rewrite Hb in Ha by apply list_elem_of_here. done.
    + rewrite IH. split; intros (before & after & H & Hb & Hfb).
      * exists (a :: before), after. subst l. split; [done|]. split; [|done].
        intros x [->|Hx]%elem_of_cons; auto.
      * destruct before as [|x before]; cbn in H; injection H as -> ->;
          [congruence|].
        exists before, after. split; [done|]. split; [|done].
        intros y Hy. apply Hb. by apply list_elem_of_further.
Qed.

Lemma find_nothing {A} (f : A -> bool) (l : list A) :
  find f l = None <-> forall x, x ∈ l -> f x = false.
Proof.
  induction l as [|a l IH]; cbn [find].
  - split; [|done]. intros _ x Hx. by apply elem_of_nil in Hx.
  - destruct (f a) eqn:Ha.
    + split; [done|]. intros H. rewrite H in Ha by apply list_elem_of_here.
      done.
    + rewrite IH. split.
      * intros H x [->|Hx]%elem_of_cons; auto.
      * intros H x Hx. apply H. by apply list_elem_of_further.
Qed.

Lemma first_labelled_find (pageNum : nat) (buttons : list Element) :
  first_labelled pageNum buttons = find (labelled pageNum) buttons.
Proof.
  induction buttons as [|btn rest IH]; [done|].
  cbn [first_labelled find]. by rewrite IH.
Qed.

Lemma first_transcription_tab_find (tabs : list Element) :
  first_transcription_tab tabs = find names_transcription tabs.
Proof.
  induction tabs as [|tab rest IH]; [done|].
  cbn [first_transcription_tab find]. by rewrite IH.
Qed.

(** ** Strings *)

Lemma append_cons (x : ascii) (a b : string) :
  String x a +:+ b = String x (a +:+ b).
Proof. reflexivity. Qed.

Lemma append_assoc (a b c : string) : (a +:+ b) +:+ c = a +:+ b +:+ c.
Proof.
  induction a as [|x a IH]; [done|]. by rewrite !append_cons, IH.
Qed.

Lemma String_of_nat_inj (n m : nat) :
  String_of_nat n = String_of_nat m -> n = m.
Proof.
  unfold String_of_nat. intros H.
  apply DecimalNat.Unsigned.to_uint_inj.
  assert (Some (Nat.to_uint n) = Some (Nat.to_uint m)) as [= ->]; [|done].
  by rewrite <- !NilEmpty.usu, H.
Qed.

Lemma uint_digits (d : Decimal.uint) :
  Forall (fun c => is_space c = false)
         (list_ascii_of_string (NilEmpty.string_of_uint d)).
Proof.
  induction d; cbn [NilEmpty.string_of_uint list_ascii_of_string];
    [apply Forall_nil_2 | apply Forall_cons; split; [reflexivity | done] ..].
Qed.

Lemma String_of_nat_solid (n : nat) :
  String_of_nat n <> ""
  /\ Forall (fun c => is_space c = false)
            (list_ascii_of_string (String_of_nat n)).
Proof.
  split; [|apply uint_digits].
  unfold String_of_nat. intros H.
  assert (Hnil : Nat.to_uint n = Decimal.Nil).
  { destruct (Nat.to_uint n); cbn in H; done. }
  pose proof (DecimalNat.Unsigned.to_of (Nat.to_uint n)) as Hn.
  rewrite DecimalNat.Unsigned.of_to, Hnil in Hn. cbn in Hn. done.
Qed.

Lemma trimStart_blank (ws s : string) :
  blank ws = true -> trimStart (ws +:+ s) = trimStart s.
Proof.
  induction ws as [|c ws IH]; [done|].
  rewrite append_cons. cbn [blank trimStart].
  intros [-> H]%andb_true_iff. auto.
Qed.

Lemma trimEnd_blank (ws : string) : blank ws = true -> trimEnd ws = "".
Proof.
  induction ws as [|c ws IH]; cbn [blank trimEnd]; [done|].
  intros [-> H]%andb_true_iff. by rewrite IH.
Qed.

Lemma trimEnd_solid (core ws : string) :
  core <> "" ->
  Forall (fun c => is_space c = false) (list_ascii_of_string core) ->
  blank ws = true ->
  trimEnd (core +:+ ws) = core.
Proof.
  intros Hne Hsolid Hws.
  induction core as [|c core IH]; [done|].
  cbn [list_ascii_of_string] in Hsolid.
  apply Forall_cons in Hsolid as [Hc Hsolid].
  rewrite append_cons. cbn [trimEnd].
  destruct core as [|c' core].
  - change ("" +:+ ws) with ws. by rewrite trimEnd_blank, Hc.
  - rewrite IH by done. done.
Qed.

Lemma trimStart_parts (s : string) :
  exists ws, blank ws = true /\ s = ws +:+ trimStart s.
Proof.
  induction s as [|c s (ws & Hws & IH)]; cbn [trimStart].
  - by exists "".
  - destruct (is_space c) eqn:Hc.
    + exists (String c ws). cbn [blank]. rewrite Hc, Hws, append_cons.
      split; [done | by rewrite <- IH].
    + by exists "".
Qed.

Lemma trimEnd_parts (s : string) :
  exists ws, blank ws = true /\ s = trimEnd s +:+ ws.
Proof.
  induction s as [|c s (ws & Hws & IH)]; cbn [trimEnd].
  - by exists "".
  - destruct (trimEnd s) as [|k kept] eqn:E.
    + change ("" +:+ ws) with ws in IH. subst ws.
      destruct (is_space c) eqn:Hc.
      * exists (String c s). cbn [blank]. by rewrite Hc, Hws.
      * by exists s.
    + exists ws. split; [done|]. by rewrite append_cons, <- IH.
Qed.

(** [trim] takes white space, and nothing else, from both ends. *)
Lemma trim_solid (core : string) (s : string) :
  core <> "" ->
  Forall (fun c => is_space c = false) (list_ascii_of_string core) ->
  trim s = core
  <-> exists before after,
        blank before = true /\ blank after = true
        /\ s = before +:+ core +:+ after.
Proof.
  intros Hne Hsolid. unfold trim. split.
  - intros H.
    destruct (trimStart_parts s) as (before & Hb & Hs).
    destruct (trimEnd_parts (trimStart s)) as (after & Ha & Ht).
    exists before, after. rewrite <- H, <- Ht. done.
  - intros (before & after & Hb & Ha & ->).
    rewrite trimStart_blank by done.
    destruct core as [|c core]; [done|].
    cbn [list_ascii_of_string] in Hsolid.
    pose proof Hsolid as [Hc _]%Forall_cons.
    rewrite append_cons. cbn [trimStart]. rewrite Hc, <- append_cons.
    by apply (trimEnd_solid (String c core)).
Qed.

Lemma toLowerCase_app (a b : string) :
  toLowerCase (a +:+ b) = toLowerCase a +:+ toLowerCase b.
Proof.
  induction a as [|c a IH]; [done|].
  rewrite append_cons. cbn [toLowerCase]. by rewrite append_cons, IH.
Qed.

Lemma toLowerCase_split (s a b : string) :
  toLowerCase s = a +:+ b ->
  exists s1 s2, s = s1 +:+ s2 /\ toLowerCase s1 = a /\ toLowerCase s2 = b.
Proof.
  revert s. induction a as [|c a IH]; intros s H.
  - by exists "", s.
  - destruct s as [|x s]; [done|].
    rewrite append_cons in H. cbn [toLowerCase] in H. injection H as Hx H.
    destruct (IH s H) as (s1 & s2 & -> & H1 & H2).
    exists (String x s1), s2. cbn [toLowerCase]. by rewrite Hx, H1.
Qed.

(** The test of line 140, on the text as it stands. *)
Lemma names_transcription_spec (tab : Element) :
  names_transcription tab = true
  <-> exists pre word post,
        textContent tab = pre +:+ word +:+ post
        /\ toLowerCase word = "transcription".
Proof.
  unfold names_transcription. rewrite includes_spec. split.
  - intros (a & b & H).
    apply toLowerCase_split in H as (pre & rest & Htext & _ & H).
    apply toLowerCase_split in H as (word & post & -> & Hword & _).
    by exists pre, word, post.
  - intros (pre & word & post & -> & Hword).
    exists (toLowerCase pre), (toLowerCase post).
    by rewrite !toLowerCase_app, Hword.
Qed.

(** ** The click on the page control *)

Lemma item_nth {A} (l : list A) (n : nat) :
  1 <= n -> item l (Z.of_nat n - 1) = l !! (n - 1).
Proof.
  intros Hn. unfold item.
  destruct (Z.ltb_spec (Z.of_nat n - 1) 0) as [H|H]; [lia|].
  f_equal. lia.
Qed.

Lemma click_by_label document pageNum before btn after :
  querySelectorAll document "button" = before ++ btn :: after ->
  (forall b, b ∈ before -> labelled pageNum b = false) ->
  labelled pageNum btn = true ->
  click_callback document pageNum = click_then_true "btn" btn.
Proof.
  intros Hbuttons Hbefore Hbtn. unfold click_callback.
  rewrite first_labelled_find.
  assert (H : find (labelled pageNum) (querySelectorAll document "button")
              = Some btn) by (apply find_first; eauto).
  by rewrite H.
Qed.

Lemma click_by_position document pageNum :
  1 <= pageNum ->
  (forall b, b ∈ querySelectorAll document "button" ->
             labelled pageNum b = false) ->
  click_callback document pageNum
  = match querySelectorAll document thumbnail_selector !! (pageNum - 1) with
    | Some thumb => click_then_true "thumbs[(pageNum - 1)]" thumb
    | None => (Ok false, [])
    end.
Proof.
  intros Hn Hnone%find_nothing. unfold click_callback.
  rewrite first_labelled_find, Hnone, item_nth by done.
  destruct (Nat.leb_spec pageNum
              (length (querySelectorAll document thumbnail_selector)))
    as [Hle|Hgt].
  - destruct (lookup_lt_is_Some_2
                (querySelectorAll document thumbnail_selector) (pageNum - 1))
      as [thumb ->]; [lia | done].
  - rewrite lookup_ge_None_2 by lia. done.
Qed.

(** What a click gives. *)
Lemma click_then_true_cases (callee : string) (el : Element) :
  (has_click el = true /\ click_then_true callee el = (Ok true, [node el]))
  \/ (has_click el = false
      /\ click_then_true callee el
         = (Throw (click_is_not_a_function callee), [])).
Proof. unfold click_then_true. destruct (has_click el); auto. Qed.

(** What the click function does for a page from 1 on: it clicks an
    element and returns [true], or finds nothing and returns [false], or
    finds an element that has no [click] and throws. *)
Lemma click_returns document pageNum :
  1 <= pageNum ->
  (exists x, click_callback document pageNum = (Ok true, [x]))
  \/ click_callback document pageNum = (Ok false, [])
  \/ exists callee el,
       has_click el = false
       /\ ((callee = "btn" /\ el ∈ querySelectorAll document "button")
           \/ (callee = "thumbs[(pageNum - 1)]"
               /\ el ∈ querySelectorAll document thumbnail_selector))
       /\ click_callback document pageNum
          = (Throw (click_is_not_a_function callee), []).
Proof.
  intros Hn.
  destruct (find (labelled pageNum) (querySelectorAll document "button"))
    as [btn|] eqn:Hfind.
  - pose proof Hfind as (before & after & Hb & Hbefore & Hbtn)%find_first.
    rewrite (click_by_label _ _ _ _ _ Hb Hbefore Hbtn).
    destruct (click_then_true_cases "btn" btn) as [[_ ->] | [Hno ->]].
    + left. by eexists.
    + right. right. exists "btn", btn. conjuncts; [done | | done].
      left. split; [done|]. rewrite Hb, elem_of_app. right.
      apply list_elem_of_here.
  - pose proof (proj1 (find_nothing _ _) Hfind) as Hnone.
    rewrite click_by_position by done.
    destruct (querySelectorAll document thumbnail_selector !! (pageNum - 1))
      as [thumb|] eqn:Hthumb; [|by right; left].
    destruct (click_then_true_cases "thumbs[(pageNum - 1)]" thumb)
      as [[_ ->] | [Hno ->]].
    + left. by eexists.
    + right. right. exists "thumbs[(pageNum - 1)]", thumb.
      conjuncts; [done | | done].
      right. split; [done|]. by eapply list_elem_of_lookup_2.
Qed.

(** X16.  For a page from 1 on, the click function never reads past the
    thumbnails.  It goes for the first button that names the page,
    whatever thumbnails there are; without such a button it goes for the
    thumbnail at the page's position, which exists exactly when the page
    is within the [thumbCount] that the first evaluation reports for the
    same document; otherwise it clicks nothing and returns [false].  It
    returns [true] exactly when it has clicked one element, and it throws
    exactly when the element it went for has no [click] method, as an
    [svg] that carries the thumbnail class. *)
Theorem click_callback_spec document pageNum :
  1 <= pageNum ->
  ((exists x, click_callback document pageNum = (Ok true, [x]))
   \/ click_callback document pageNum = (Ok false, [])
   \/ exists callee el,
        has_click el = false
        /\ ((callee = "btn" /\ el ∈ querySelectorAll document "button")
            \/ (callee = "thumbs[(pageNum - 1)]"
                /\ el ∈ querySelectorAll document thumbnail_selector))
        /\ click_callback document pageNum
           = (Throw (click_is_not_a_function callee), []))
  /\ (forall before btn after,
        querySelectorAll document "button" = before ++ btn :: after ->
        (forall b, b ∈ before -> labelled pageNum b = false) ->
        labelled pageNum btn = true ->
        click_callback document pageNum
        = if has_click btn then (Ok true, [node btn])
          else (Throw (click_is_not_a_function "btn"), []))
  /\ ((forall b, b ∈ querySelectorAll document "button" ->
                 labelled pageNum b = false) ->
      (pageNum <= snd (itemData_callback document)
       /\ exists thumb,
            querySelectorAll document thumbnail_selector !! (pageNum - 1)
            = Some thumb
            /\ click_callback document pageNum
               = if has_click thumb then (Ok true, [node thumb])
                 else (Throw (click_is_not_a_function
                                "thumbs[(pageNum - 1)]"), []))
      \/ (snd (itemData_callback document) < pageNum
          /\ click_callback document pageNum = (Ok false, []))).
Proof.
  intros Hn. conjuncts.
  - by apply click_returns.
  - intros before btn after. apply click_by_label.
  - intros Hnone. rewrite click_by_position by done.
    cbn [itemData_callback snd].
    destruct (Nat.le_gt_cases pageNum
                (length (querySelectorAll document thumbnail_selector)))
      as [Hle|Hgt].
    + left. split; [done|].
      destruct (lookup_lt_is_Some_2
                  (querySelectorAll document thumbnail_selector) (pageNum - 1))
        as [thumb Hthumb]; [lia|].
      exists thumb. by rewrite Hthumb.
    + right. split; [done|]. by rewrite lookup_ge_None_2 by lia.
Qed.

(** [Documents.three_thumbnails]: the thumbnail of page 2 is an [svg]. *)
Lemma click_callback_spec_witness :
  click_callback Documents.three_thumbnails 2
  = (Throw (click_is_not_a_function "thumbs[(pageNum - 1)]"), []).
Proof.
  destruct (click_callback_spec Documents.three_thumbnails 2)
    as (_ & _ & [(_ & thumb & Hthumb & ->) | (Hlt & _)]).
  - lia.
  - intros b Hb.
    repeat (apply elem_of_cons in Hb as [-> | Hb]; [reflexivity|]).
    by apply elem_of_nil in Hb.
  - injection Hthumb as <-. reflexivity.
  - vm_compute in Hlt. lia.
Defined.

(** X17.  The [aria-label] test of line 107 looks for "page n" anywhere in
    the label, so it also accepts the control of every page whose number
    begins with the digits of n: when such a control is the first button
    that passes the test, the click for page n goes to it. *)
Theorem label_test_confuses_pages document n m before btn after pre digits post :
  String_of_nat m = String_of_nat n +:+ digits ->
  aria_label btn = Some (pre +:+ "page " +:+ String_of_nat m +:+ post) ->
  querySelectorAll document "button" = before ++ btn :: after ->
  (forall b, b ∈ before -> labelled n b = false) ->
  click_callback document n
  = if has_click btn then (Ok true, [node btn])
    else (Throw (click_is_not_a_function "btn"), []).
Proof.
  intros Hm Hlabel Hbuttons Hbefore.
  apply (click_by_label document n before btn after); [done | done |].
  unfold labelled. rewrite Hlabel. apply orb_true_iff. right.
  apply includes_spec. exists pre, (digits +:+ post).
  rewrite Hm. by rewrite !append_assoc.
Qed.

(** On [Documents.pager] the click for page 1 lands on the control of
    page 10. *)
Lemma label_test_confuses_pages_witness :
  click_callback Documents.pager 1 = (Ok true, [2]).
Proof.
  apply (label_test_confuses_pages Documents.pager 1 10
           [Documents.button 1 "Previous" None]
           (Documents.button 2 "" (Some "Go to page 10"))
           [Documents.button 3 "" (Some "Go to page 1");
            Documents.button 4 "Next" None]
           "Go to " "0" "").
  - reflexivity.
  - reflexivity.
  - reflexivity.
  - intros b Hb. apply list_elem_of_singleton in Hb. subst b. reflexivity.
Defined.

(** X18.  The text test of line 107 is exact: a button passes it for page
    n exactly when its text is the decimal numeral of n with nothing but
    white space around it, and then it passes it for no other page. *)
Theorem text_test_exact (btn : Element) (n : nat) :
  (String.eqb (trim (textContent btn)) (String_of_nat n) = true
   <-> exists before after,
         blank before = true /\ blank after = true
         /\ textContent btn = before +:+ String_of_nat n +:+ after)
  /\ (forall m,
        String.eqb (trim (textContent btn)) (String_of_nat n) = true ->
        String.eqb (trim (textContent btn)) (String_of_nat m) = true ->
        n = m).
Proof.
  destruct (String_of_nat_solid n) as [Hne Hsolid]. split.
  - rewrite String.eqb_eq. by apply trim_solid.
  - intros m Hn%String.eqb_eq Hm%String.eqb_eq.
    apply String_of_nat_inj. congruence.
Qed.

(** ** The transcription tab *)

(** X19.  The tab is found whatever the case of its letters: the function
    finds one exactly when the text of some [button] or [role="tab"]
    element contains a word that is "transcription" once put in lower
    case, and returns [false], having clicked nothing, exactly when there
    is none.  It goes for the first such element and no other: it clicks
    it and returns [true], or throws when that element has no [click]
    method. *)
Theorem transcription_tab_any_case document :
  (fst (hasTranscriptionTab_callback document) <> Ok false
   <-> exists tab pre word post,
         tab ∈ querySelectorAll document tab_selector
         /\ textContent tab = pre +:+ word +:+ post
         /\ toLowerCase word = "transcription")
  /\ (forall before tab after,
        querySelectorAll document tab_selector = before ++ tab :: after ->
        (forall t, t ∈ before -> names_transcription t = false) ->
        names_transcription tab = true ->
        hasTranscriptionTab_callback document
        = if has_click tab then (Ok true, [node tab])
          else (Throw (click_is_not_a_function "tab"), []))
  /\ (fst (hasTranscriptionTab_callback document) = Ok false ->
      snd (hasTranscriptionTab_callback document) = [])
  /\ (fst (hasTranscriptionTab_callback document) = Ok true ->
      exists x, snd (hasTranscriptionTab_callback document) = [x]).
Proof.
  unfold hasTranscriptionTab_callback.
  rewrite first_transcription_tab_find. conjuncts.
  - destruct (find names_transcription (querySelectorAll document tab_selector))
      as [tab|] eqn:Hfind.
    + split.
      * intros _.
        apply find_first in Hfind as (before & after & Htabs & _ & Htab).
        apply names_transcription_spec in Htab
          as (pre & word & post & H1 & H2).
        exists tab, pre, word, post. split; [|done].
        rewrite Htabs, elem_of_app. right. apply list_elem_of_here.
      * intros _. unfold click_then_true. by destruct (has_click tab).
    + split; [done|]. intros (tab & pre & word & post & Hin & H1 & H2).
      pose proof (proj1 (find_nothing _ _) Hfind tab Hin) as Hno.
      rewrite (proj2 (names_transcription_spec tab)) in Hno; [done|].
      by exists pre, word, post.
  - intros before tab after Htabs Hbefore Htab.
    assert (H : find names_transcription
                  (querySelectorAll document tab_selector) = Some tab)
      by (apply find_first; eauto).
    by rewrite H.
  - destruct (find _ _) as [tab|]; [|done].
    unfold click_then_true. by destruct (has_click tab).
  - destruct (find _ _) as [tab|]; [|done].
    unfold click_then_true. destruct (has_click tab); [|done].
    intros _. by eexists.
Qed.

(** On [Documents.tabbed] the tab in capitals is found and clicked. *)
Lemma tab_in_capitals_is_found :
  hasTranscriptionTab_callback Documents.tabbed = (Ok true, [22]).
Proof. reflexivity. Qed.

(** ** The script on given documents *)



End InPageFacts.
